(** * Novel TTS Reader: segmentation, synthesis, response decoding, playback

    A shallow embedding of the pipeline implemented twice in the extension,
    once in the background service worker ([splitText], [synthesizeSegment],
    the [onMessage] listener) and once in the popup ([splitTextPlain],
    [synthesizeSegmentLocal], [synthesizeAll], [playNext], [stopPlayback]).

    Modelling conventions.
    - A JavaScript string is its sequence of UTF-16 code units ([jsstring]).
    - JavaScript numbers that the pipeline computes with are integers; they
      are modelled by [Z].  A stored setting converted with [Number] may also
      be [NaN]; fractional and infinite values are outside the model.
    - A [while] loop whose termination depends on its input is modelled with
      an explicit iteration budget; [OutOfFuel] means the loop has not
      returned within the budget.  The limits of the engine (the longest
      array, the memory) are outside the model: a run that can only end by
      reaching one of them, where the engine raises an error of its own, has
      [OutOfFuel] at every budget, and the properties below say nothing of
      such a run except that it returns no value.
    - A [throw] is the outcome [Throws e]; the thrown [Error] objects are
      told apart by the place that throws them. *)

From Stdlib Require Import String Ascii List ZArith NArith Lia Bool.
From Stdlib Require Import DecimalString.
Import ListNotations.
Open Scope Z_scope.

(** ** JavaScript strings *)

Definition code_unit := N.
Definition jsstring := list code_unit.

(** A literal of the source, as code units. *)
Definition lit (s : string) : jsstring :=
  map N_of_ascii (list_ascii_of_string s).

(** [s.length] *)
Definition jslength (s : jsstring) : Z := Z.of_nat (length s).

(** [s.slice(b, e)]: a negative index counts from the end, both indices are
    clamped to the string, and an empty range gives the empty string. *)
Definition slice (s : jsstring) (b e : Z) : jsstring :=
  let len := jslength s in
  let from := if b <? 0 then Z.max (len + b) 0 else Z.min b len in
  let to := if e <? 0 then Z.max (len + e) 0 else Z.min e len in
  firstn (Z.to_nat (to - from)) (skipn (Z.to_nat from) s).

Definition is_nil {A : Type} (l : list A) : bool :=
  match l with
  | [] => true
  | _ :: _ => false
  end.

Definition jsstring_eqb (a b : jsstring) : bool :=
  if list_eq_dec N.eq_dec a b then true else false.

(** ** Outcomes of a call *)

(** What the pipeline can raise: its three [throw new Error(...)] statements,
    a rejected [fetch], and the [RangeError] of a typed-array write past the
    end of its target. *)
Inductive error : Type :=
| NotConfigured
    (* 'API key, resource ID and speaker must be configured in the options page.' *)
| HttpError (status : Z) (statusText : jsstring)
    (* `HTTP ${response.status} – ${response.statusText}` *)
| NoAudioData
    (* 'No audio data returned from API.' *)
| FetchRejected (reason : jsstring)
| RangeError.

Inductive outcome (A : Type) : Type :=
| Returns (a : A)
| Throws (e : error)
| OutOfFuel.
Arguments Returns {A} a.
Arguments Throws {A} e.
Arguments OutOfFuel {A}.

(** ** Segmenter *)

(** The loop of [splitText]:
    [while (start < text.length) { segments.push(text.slice(start, start + maxLength)); start += maxLength; }]
    The array [segments] is a list without a bound on its length: the
    [RangeError] with which the engine ends a loop that keeps pushing is
    not modelled. *)
Fixpoint splitText_loop (fuel : nat) (text : jsstring) (maxLength start : Z)
    (segments : list jsstring) : outcome (list jsstring) :=
  match fuel with
  | O => OutOfFuel
  | S fuel' =>
      if start <? jslength text then
        splitText_loop fuel' text maxLength (start + maxLength)
          (segments ++ [slice text start (start + maxLength)])
      else Returns segments
  end.

(** background service worker *)
Definition splitText (fuel : nat) (text : jsstring) (maxLength : Z)
    : outcome (list jsstring) :=
  splitText_loop fuel text maxLength 0 [].

(** popup: the same body under another name *)
Definition splitTextPlain (fuel : nat) (text : jsstring) (maxLength : Z)
    : outcome (list jsstring) :=
  splitText_loop fuel text maxLength 0 [].


(** ** Stored settings *)

(** Numbers read back from storage: an integer, or [NaN]. *)
Inductive jsnum : Type :=
| NaN
| Num (z : Z).

(** The values a stored numeric setting can hold. *)
Inductive jsval : Type :=
| VUndefined
| VNull
| VBool (b : bool)
| VNumber (n : jsnum)
| VString (s : jsstring).

(** [n || d] for a number [n]: [NaN] and [0] are falsy. *)
Definition or_default (n : jsnum) (d : Z) : Z :=
  match n with
  | NaN => d
  | Num 0 => d
  | Num z => z
  end.

(** [!s] for a string. *)
Definition is_empty (s : jsstring) : bool :=
  match s with
  | [] => true
  | _ :: _ => false
  end.

(** The items of [chrome.storage.local]; [None] is a key never written. *)
Record storage_items : Type := {
  stored_apiKey : option jsstring;
  stored_resourceId : option jsstring;
  stored_speaker : option jsstring;
  stored_additions : option jsstring;
  stored_format : option jsstring;
  stored_sampleRate : option jsval;
  stored_maxLength : option jsval
}.

Record SynthesisSettings : Type := {
  apiKey : jsstring;
  resourceId : jsstring;
  speaker : jsstring;
  additions : jsstring;
  format : jsstring;
  sampleRate : jsval;
  maxLength : jsval
}.

Definition with_default {A : Type} (d : A) (o : option A) : A :=
  match o with
  | Some a => a
  | None => d
  end.

(** [chrome.storage.local.get({apiKey: '', ..., maxLength: 5000}, resolve)]:
    [getSettings] of the service worker and [getSettingsFromStorage] of the
    popup pass the same defaults. *)
Definition getSettings (items : storage_items) : SynthesisSettings :=
  {| apiKey := with_default [] (stored_apiKey items);
     resourceId := with_default [] (stored_resourceId items);
     speaker := with_default [] (stored_speaker items);
     additions := with_default [] (stored_additions items);
     format := with_default (lit "mp3") (stored_format items);
     sampleRate := with_default (VNumber (Num 24000)) (stored_sampleRate items);
     maxLength := with_default (VNumber (Num 5000)) (stored_maxLength items) |}.

Definition getSettingsFromStorage : storage_items -> SynthesisSettings :=
  getSettings.

(** ** Requests and responses *)

Record audio_params : Type := {
  ap_format : jsstring;
  sample_rate : jsnum
}.

(** [req_params] of the request body; [rp_additions] is [None] when the
    spread adds no [additions] key. *)
Record req_params : Type := {
  rp_text : jsstring;
  rp_speaker : jsstring;
  rp_additions : option jsstring;
  rp_audio_params : audio_params
}.

Record request : Type := {
  endpoint : jsstring;
  method : jsstring;
  x_api_key : jsstring;
  X_Api_Resource_Id : jsstring;
  Content_Type : jsstring;
  body : req_params
}.

(** What [fetch] is called with: the endpoint and the init object with its
    method, its three headers and its body, which is a text. *)
Record fetch_call : Type := {
  fc_endpoint : jsstring;
  fc_method : jsstring;
  fc_x_api_key : jsstring;
  fc_X_Api_Resource_Id : jsstring;
  fc_Content_Type : jsstring;
  fc_body : jsstring
}.

Definition uint8 := N.
Definition ArrayBuffer := list uint8.

(** A resolved [Response]: [response_text] is what [response.text()]
    resolves to, [response_arrayBuffer] what [response.arrayBuffer()]
    resolves to, [content_type] what [response.headers.get('Content-Type')]
    returns ([None] for [null]). *)
Record Response : Type := {
  ok : bool;
  status : Z;
  statusText : jsstring;
  content_type : option jsstring;
  response_text : jsstring;
  response_arrayBuffer : ArrayBuffer
}.

(** ** Response decoder *)

(** [toLowerCase] on a header value.  Header values are byte strings, so
    every code unit is below 256; there the upper-case letters are A-Z and
    the Latin-1 range U+00C0-U+00DE without U+00D7. *)
Definition toLowerCase_unit (c : code_unit) : code_unit :=
  (if ((65 <=? c) && (c <=? 90)) ||
      ((192 <=? c) && (c <=? 222) && negb (c =? 215))
   then c + 32 else c)%N.

Definition toLowerCase (s : jsstring) : jsstring := map toLowerCase_unit s.

(** Remove the prefix [p] from [s], if [s] starts with it. *)
Fixpoint strip_prefix (p s : jsstring) : option jsstring :=
  match p, s with
  | [], _ => Some s
  | _ :: _, [] => None
  | a :: p', b :: s' => if N.eqb a b then strip_prefix p' s' else None
  end.

(** [s.includes(needle)] *)
Fixpoint includes (s needle : jsstring) : bool :=
  match strip_prefix needle s with
  | Some _ => true
  | None =>
      match s with
      | [] => false
      | _ :: s' => includes s' needle
      end
  end.

Definition dquote : code_unit := 34%N.

(** The fixed part of the regular expression: a quote, the four letters of
    data, a quote, a colon and a quote: eight code units. *)
Definition data_prefix : jsstring :=
  dquote :: lit "data" ++ dquote :: lit ":" ++ [dquote].

(** The capturing group: the longest run without a quote, and what follows
    it. *)
Fixpoint span_not_quote (s : jsstring) : jsstring * jsstring :=
  match s with
  | [] => ([], [])
  | c :: s' =>
      if N.eqb c dquote then ([], s)
      else let (run, rest) := span_not_quote s' in (c :: run, rest)
  end.

(** The regular expression tried at the start of [s]: the capture and the
    text after the closing quote.  The run stops at a quote or at the end of
    the text; at the end there is no closing quote and no shorter run has a
    quote after it either, so the attempt fails. *)
Definition match_here (s : jsstring) : option (jsstring * jsstring) :=
  match strip_prefix data_prefix s with
  | None => None
  | Some after =>
      let (capture, rest) := span_not_quote after in
      match rest with
      | [] => None
      | _ :: rest' => Some (capture, rest')
      end
  end.

(** [regex.exec(text)] with the [g] flag, on the text from [lastIndex] on:
    the leftmost position where the expression matches.  The result is
    [match[1]] and the text from the new [lastIndex] on. *)
Fixpoint regex_exec (s : jsstring) : option (jsstring * jsstring) :=
  match match_here s with
  | Some m => Some m
  | None =>
      match s with
      | [] => None
      | _ :: s' => regex_exec s'
      end
  end.

Definition to_uint8 (c : code_unit) : uint8 := (c mod 256)%N.

Definition bytelength (b : list uint8) : Z := Z.of_nat (length b).

(** [target.set(chunk, offset)] on a [Uint8Array]; [None] is its
    [RangeError]. *)
Definition typed_set (target chunk : list uint8) (offset : Z)
    : option (list uint8) :=
  if (0 <=? offset) && (offset + bytelength chunk <=? bytelength target) then
    Some (firstn (Z.to_nat offset) target ++ chunk ++
          skipn (Z.to_nat offset + length chunk) target)
  else None.

(** [for (const chunk of audioChunks) { merged.set(chunk, offset); offset += chunk.length; }] *)
Fixpoint merge_chunks (audioChunks : list (list uint8)) (merged : list uint8)
    (offset : Z) : outcome ArrayBuffer :=
  match audioChunks with
  | [] => Returns merged
  | chunk :: rest =>
      match typed_set merged chunk offset with
      | Some merged' => merge_chunks rest merged' (offset + bytelength chunk)
      | None => Throws RangeError
      end
  end.

Record decode_state : Type := {
  audioChunks : list (list uint8);
  totalLength : Z
}.

Section Decoder.

(** [atob] of the platform; [None] is its [InvalidCharacterError]. *)
Variable atob : jsstring -> option jsstring.

(** The body of the [while] loop for one match. *)
Definition decode_step (st : decode_state) (b64 : jsstring) : decode_state :=
  if negb (is_empty b64) && negb (jsstring_eqb b64 (lit "null")) then
    match atob b64 with
    | Some binaryStr =>
        let bytes := map to_uint8 binaryStr in
        {| audioChunks := audioChunks st ++ [bytes];
           totalLength := totalLength st + bytelength bytes |}
    | None => st
    end
  else st.

(** [while ((match = regex.exec(text)) !== null) { ... }] *)
Fixpoint decode_loop (fuel : nat) (text : jsstring) (st : decode_state)
    : outcome decode_state :=
  match fuel with
  | O => OutOfFuel
  | S fuel' =>
      match regex_exec text with
      | None => Returns st
      | Some (b64, rest) => decode_loop fuel' rest (decode_step st b64)
      end
  end.

(** The text branch of [synthesizeSegment], from [response.text()] on.
    Every match consumes at least nine code units, so the loop needs at
    most as many iterations as the text has code units, plus one. *)
Definition decode_text (text : jsstring) : outcome ArrayBuffer :=
  match decode_loop (S (length text)) text
          {| audioChunks := []; totalLength := 0 |} with
  | Returns st =>
      if is_nil (audioChunks st) then Throws NoAudioData
      else merge_chunks (audioChunks st)
             (repeat 0%N (Z.to_nat (totalLength st))) 0
  | Throws e => Throws e
  | OutOfFuel => OutOfFuel
  end.

(** [synthesizeSegment] after the status check: the content type decides
    between the text branch and the raw body. *)
Definition decodeResponse (r : Response) : outcome ArrayBuffer :=
  let contentType := with_default [] (content_type r) in
  let lowerType := toLowerCase contentType in
  if includes lowerType (lit "application/json") || includes lowerType (lit "text")
  then decode_text (response_text r)
  else Returns (response_arrayBuffer r).

End Decoder.

(** ** The world a run acts on, and sequencing *)

(** The collaborators of a run: the stored items, the remote service with
    whatever state it has, the request objects built for the calls of
    [fetch] so far (oldest first; [fetch] itself gets the body serialized,
    see [fetch_arguments]), and the progress lines written to the status
    element, as (segment number, number of segments). *)
Record world (net : Type) : Type := {
  storage : storage_items;
  network : net;
  calls : list request;
  progress : list (Z * Z)
}.
Arguments storage {net} w.
Arguments network {net} w.
Arguments calls {net} w.
Arguments progress {net} w.

(** An [async] function body: it runs on a world and either returns, throws
    or does not return; an [await] is sequencing. *)
Definition M (net A : Type) : Type := world net -> outcome A * world net.

Definition ret {net A : Type} (a : A) : M net A := fun w => (Returns a, w).

Definition throw {net A : Type} (e : error) : M net A := fun w => (Throws e, w).

Definition lift {net A : Type} (o : outcome A) : M net A := fun w => (o, w).

Definition bind {net A B : Type} (m : M net A) (k : A -> M net B) : M net B :=
  fun w =>
    match m w with
    | (Returns a, w') => k a w'
    | (Throws e, w') => (Throws e, w')
    | (OutOfFuel, w') => (OutOfFuel, w')
    end.

(** [try { m } catch (err) { handler }] *)
Definition try_catch {net A : Type} (m : M net A) (handler : error -> M net A)
    : M net A :=
  fun w =>
    match m w with
    | (Throws e, w') => handler e w'
    | other => other
    end.

Notation "x <- m ;; k" := (bind m (fun x => k))
  (at level 61, m at next level, right associativity).
Notation "m ;;; k" := (bind m (fun _ => k))
  (at level 61, right associativity).

Definition read_storage {net : Type} : M net storage_items :=
  fun w => (Returns (storage w), w).

(** [statusEl.textContent = `Synthesizing segment ${i + 1} of ${segments.length}...`] *)
Definition show_progress {net : Type} (i total : Z) : M net unit :=
  fun w =>
    (Returns tt,
     {| storage := storage w; network := network w; calls := calls w;
        progress := progress w ++ [(i, total)] |}).

Definition synthesis_endpoint : jsstring :=
  lit "https://openspeech.bytedance.com/api/v3/tts/unidirectional".

(** A message sent to the service worker: [message.type], [message.text]. *)
Record message : Type := {
  msg_type : jsstring;
  msg_text : option jsstring
}.

(** What the listener of the service worker answers. *)
Inductive reply : Type :=
| Reply_buffers (buffers : list ArrayBuffer) (fmt : jsstring)
| Reply_error (e : error).

Section Pipeline.

Variable net : Type.

(** [fetch] of the platform: the remote service answers a call from its
    current state; [inl reason] is a rejected promise. *)
Variable fetch : fetch_call -> net -> (jsstring + Response) * net.

Variable atob : jsstring -> option jsstring.

(** [Number] applied to a string: the platform's string-to-number
    conversion. *)
Variable StringToNumber : jsstring -> jsnum.

(** [JSON.stringify(body)] of the platform, for the body object that holds
    the given [req_params]. *)
Variable JSON_stringify : req_params -> jsstring.

(** [Number(v)] *)
Definition Number (v : jsval) : jsnum :=
  match v with
  | VUndefined => NaN
  | VNull => Num 0
  | VBool b => Num (if b then 1 else 0)
  | VNumber n => n
  | VString s => StringToNumber s
  end.

(** The arguments of [fetch(endpoint, {method: 'POST', headers, body: JSON.stringify(body)})]
    for a request object: the body goes out serialized. *)
Definition fetch_arguments (req : request) : fetch_call :=
  {| fc_endpoint := endpoint req;
     fc_method := method req;
     fc_x_api_key := x_api_key req;
     fc_X_Api_Resource_Id := X_Api_Resource_Id req;
     fc_Content_Type := Content_Type req;
     fc_body := JSON_stringify (body req) |}.

(** [await fetch(endpoint, {method, headers, body: JSON.stringify(body)})];
    the request object is noted in [calls]. *)
Definition await_fetch (req : request) : M net Response :=
  fun w =>
    let (answer, network') := fetch (fetch_arguments req) (network w) in
    let w' := {| storage := storage w; network := network';
                 calls := calls w ++ [req]; progress := progress w |} in
    match answer with
    | inl reason => (Throws (FetchRejected reason), w')
    | inr resp => (Returns resp, w')
    end.

(** [endpoint], [headers] and [body] of [synthesizeSegment]. *)
Definition build_request (segment : jsstring) (settings : SynthesisSettings)
    : request :=
  {| endpoint := synthesis_endpoint;
     method := lit "POST";
     x_api_key := apiKey settings;
     X_Api_Resource_Id := resourceId settings;
     Content_Type := lit "application/json";
     body :=
       {| rp_text := segment;
          rp_speaker := speaker settings;
          rp_additions :=
            if is_empty (additions settings) then None
            else Some (additions settings);
          rp_audio_params :=
            {| ap_format := format settings;
               sample_rate := Number (sampleRate settings) |} |} |}.

(** service worker *)
Definition synthesizeSegment (segment : jsstring)
    (settings : SynthesisSettings) : M net ArrayBuffer :=
  resp <- await_fetch (build_request segment settings) ;;
  if negb (ok resp) then throw (HttpError (status resp) (statusText resp))
  else lift (decodeResponse atob resp).

(** popup: the same body under another name *)
Definition synthesizeSegmentLocal (segment : jsstring)
    (settings : SynthesisSettings) : M net ArrayBuffer :=
  resp <- await_fetch (build_request segment settings) ;;
  if negb (ok resp) then throw (HttpError (status resp) (statusText resp))
  else lift (decodeResponse atob resp).

(** [Number(settings.maxLength) || 5000] *)
Definition effective_maxLength (settings : SynthesisSettings) : Z :=
  or_default (Number (maxLength settings)) 5000.

(** [!settings.apiKey || !settings.resourceId || !settings.speaker] *)
Definition not_configured (settings : SynthesisSettings) : bool :=
  is_empty (apiKey settings) || is_empty (resourceId settings)
  || is_empty (speaker settings).

(** The [for] loop of the popup's [synthesizeAll], at index [i] with the
    segments from [i] on still to do. *)
Fixpoint synthesizeAll_loop (todo : list jsstring) (i total : Z)
    (settings : SynthesisSettings) (buffers : list ArrayBuffer)
    : M net (list ArrayBuffer) :=
  match todo with
  | [] => ret buffers
  | segment :: todo' =>
      show_progress (i + 1) total ;;;
      buffer <- synthesizeSegmentLocal segment settings ;;
      synthesizeAll_loop todo' (i + 1) total settings (buffers ++ [buffer])
  end.

(** popup *)
Definition synthesizeAll (fuel : nat) (text : jsstring)
    : M net (list ArrayBuffer * jsstring) :=
  items <- read_storage ;;
  let settings := getSettingsFromStorage items in
  if not_configured settings then throw NotConfigured
  else
    let maxLength := effective_maxLength settings in
    segments <- lift (splitTextPlain fuel text maxLength) ;;
    buffers <- synthesizeAll_loop segments 0 (Z.of_nat (length segments))
                 settings [] ;;
    ret (buffers, format settings).

(** The [for ... of] loop of the service worker's listener. *)
Fixpoint onMessage_loop (todo : list jsstring)
    (settings : SynthesisSettings) (buffers : list ArrayBuffer)
    : M net (list ArrayBuffer) :=
  match todo with
  | [] => ret buffers
  | segment :: todo' =>
      buffer <- synthesizeSegment segment settings ;;
      onMessage_loop todo' settings (buffers ++ [buffer])
  end.

(** service worker: the listener; [None] is [undefined], returned for a
    message that is not a synthesis request. *)
Definition onMessage (fuel : nat) (msg : option message)
    : M net (option reply) :=
  match msg with
  | None => ret None
  | Some m =>
      if negb (jsstring_eqb (msg_type m) (lit "synthesize")) then ret None
      else
        try_catch
          (items <- read_storage ;;
           let settings := getSettings items in
           if not_configured settings then throw NotConfigured
           else
             let text := with_default [] (msg_text m) in
             let maxLength := effective_maxLength settings in
             segments <- lift (splitText fuel text maxLength) ;;
             buffers <- onMessage_loop segments settings [] ;;
             ret (Some (Reply_buffers buffers (format settings))))
          (fun err => ret (Some (Reply_error err)))
  end.

End Pipeline.

(** ** Playback controller (popup) *)

(** A blob URL made by [URL.createObjectURL]; the URL store hands them out
    in sequence. *)
Definition object_url := nat.

(** What happens to blob URLs, in the order it happens. *)
Inductive url_event : Type :=
| Created (u : object_url) (buffer : ArrayBuffer) (mime : jsstring)
| Played (u : object_url)
| Revoked (u : object_url).

(** The texts the controller writes to the status element. *)
Inductive status_line : Type :=
| Status_other
| Status_playing (i total : Z)   (* `Playing segment ${i} of ${total}...` *)
| Status_finished                (* 'Finished reading.' *)
| Status_no_audio                (* 'No audio segments returned.' *)
| Status_stopped                 (* 'Playback stopped.' *).

(** The audio element: its source, whether it is playing it, and the URL
    that the current [onended] handler holds in its closure. *)
Record audio_element : Type := {
  src : option object_url;
  playing : bool;
  onended : option object_url
}.

Record popup : Type := {
  currentUrls : list object_url;
  currentIndex : nat;
  audioPlayer : audio_element;
  startBtn_disabled : bool;
  stopBtn_disabled : bool;
  statusEl : status_line;
  next_url : object_url;
  url_log : list url_event
}.

(** [URL.revokeObjectURL(url)] inside its [try] *)
Definition revokeObjectURL (url : object_url) (p : popup) : popup :=
  {| currentUrls := currentUrls p;
     currentIndex := currentIndex p;
     audioPlayer := audioPlayer p;
     startBtn_disabled := startBtn_disabled p;
     stopBtn_disabled := stopBtn_disabled p;
     statusEl := statusEl p;
     next_url := next_url p;
     url_log := url_log p ++ [Revoked url] |}.

(** [URL.createObjectURL(new Blob([new Uint8Array(buffer)], {type: mime}))] *)
Definition createObjectURL (buffer : ArrayBuffer) (mime : jsstring) (p : popup)
    : object_url * popup :=
  (next_url p,
   {| currentUrls := currentUrls p;
      currentIndex := currentIndex p;
      audioPlayer := audioPlayer p;
      startBtn_disabled := startBtn_disabled p;
      stopBtn_disabled := stopBtn_disabled p;
      statusEl := statusEl p;
      next_url := S (next_url p);
      url_log := url_log p ++ [Created (next_url p) buffer mime] |}).

(** [buffers.map(buffer => ... URL.createObjectURL(blob))] *)
Fixpoint create_urls (buffers : list ArrayBuffer) (mime : jsstring) (p : popup)
    : list object_url * popup :=
  match buffers with
  | [] => ([], p)
  | buffer :: rest =>
      let (u, p1) := createObjectURL buffer mime p in
      let (us, p2) := create_urls rest mime p1 in
      (u :: us, p2)
  end.

(** [playNext]: [currentUrls[currentIndex]] exists exactly when
    [currentIndex < currentUrls.length]. *)
Definition playNext (p : popup) : popup :=
  match nth_error (currentUrls p) (currentIndex p) with
  | None =>
      {| currentUrls := currentUrls p;
         currentIndex := currentIndex p;
         audioPlayer := audioPlayer p;
         startBtn_disabled := false;
         stopBtn_disabled := true;
         statusEl := Status_finished;
         next_url := next_url p;
         url_log := url_log p |}
  | Some url =>
      {| currentUrls := currentUrls p;
         currentIndex := currentIndex p;
         audioPlayer := {| src := Some url; playing := true; onended := Some url |};
         startBtn_disabled := startBtn_disabled p;
         stopBtn_disabled := stopBtn_disabled p;
         statusEl := Status_playing (Z.of_nat (currentIndex p) + 1)
                       (Z.of_nat (length (currentUrls p)));
         next_url := next_url p;
         url_log := url_log p ++ [Played url] |}
  end.

(** The handler installed by [playNext], holding [url]:
    revoke it, [currentIndex += 1], [playNext()]. *)
Definition onended_handler (url : object_url) (p : popup) : popup :=
  let p1 := revokeObjectURL url p in
  playNext
    {| currentUrls := currentUrls p1;
       currentIndex := currentIndex p1 + 1;
       audioPlayer := audioPlayer p1;
       startBtn_disabled := startBtn_disabled p1;
       stopBtn_disabled := stopBtn_disabled p1;
       statusEl := statusEl p1;
       next_url := next_url p1;
       url_log := url_log p1 |}.

(** The audio element reaches the end of its source.  The [ended] event is
    dispatched only for an element that is playing; the element then stops
    and its handler runs. *)
Definition ended (p : popup) : popup :=
  if playing (audioPlayer p) then
    let stopped :=
      {| currentUrls := currentUrls p;
         currentIndex := currentIndex p;
         audioPlayer := {| src := src (audioPlayer p); playing := false;
                           onended := onended (audioPlayer p) |};
         startBtn_disabled := startBtn_disabled p;
         stopBtn_disabled := stopBtn_disabled p;
         statusEl := statusEl p;
         next_url := next_url p;
         url_log := url_log p |} in
    match onended (audioPlayer p) with
    | Some url => onended_handler url stopped
    | None => stopped
    end
  else p.

(** [for (let i = currentIndex; i < currentUrls.length; i++) revoke currentUrls[i]] *)
Definition revoke_remaining (p : popup) : popup :=
  fold_left (fun q url => revokeObjectURL url q)
    (skipn (currentIndex p) (currentUrls p)) p.

(** [stopPlayback] *)
Definition stopPlayback (p : popup) : popup :=
  let silenced :=
    {| currentUrls := currentUrls p;
       currentIndex := currentIndex p;
       audioPlayer := {| src := None; playing := false;
                         onended := onended (audioPlayer p) |};
       startBtn_disabled := startBtn_disabled p;
       stopBtn_disabled := stopBtn_disabled p;
       statusEl := statusEl p;
       next_url := next_url p;
       url_log := url_log p |} in
  let p1 := revoke_remaining silenced in
  {| currentUrls := [];
     currentIndex := 0;
     audioPlayer := audioPlayer p1;
     startBtn_disabled := false;
     stopBtn_disabled := true;
     statusEl := Status_stopped;
     next_url := next_url p1;
     url_log := url_log p1 |}.

(** [format.toLowerCase() === 'mp3' ? 'audio/mpeg' : `audio/${format}`] *)
Definition mime_of (fmt : jsstring) : jsstring :=
  if jsstring_eqb (toLowerCase fmt) (lit "mp3") then lit "audio/mpeg"
  else lit "audio/" ++ fmt.

(** The callback of the start handler that turns the buffers into blob URLs
    and starts the queue: [currentUrls = buffers.map(...); currentIndex = 0; playNext();] *)
Definition start_playback (buffers : list ArrayBuffer) (mime : jsstring)
    (p : popup) : popup :=
  let (urls, p1) := create_urls buffers mime p in
  playNext
    {| currentUrls := urls;
       currentIndex := 0;
       audioPlayer := audioPlayer p1;
       startBtn_disabled := startBtn_disabled p1;
       stopBtn_disabled := stopBtn_disabled p1;
       statusEl := statusEl p1;
       next_url := next_url p1;
       url_log := url_log p1 |}.

(** The start handler once [synthesizeAll] has resolved: nothing is played
    for an empty list of buffers; [fmt] is [data.format || 'mp3']. *)
Definition play_result (buffers : list ArrayBuffer) (stored_fmt : option jsstring)
    (p : popup) : popup :=
  if is_nil buffers then
    {| currentUrls := currentUrls p;
       currentIndex := currentIndex p;
       audioPlayer := audioPlayer p;
       startBtn_disabled := false;
       stopBtn_disabled := true;
       statusEl := Status_no_audio;
       next_url := next_url p;
       url_log := url_log p |}
  else
    let stored := with_default (lit "mp3") stored_fmt in
    let fmt := if is_empty stored then lit "mp3" else stored in
    start_playback buffers (mime_of fmt) p.

(** The popup when it opens: [currentUrls = []], [currentIndex = 0]. *)
Definition popup_opened : popup :=
  {| currentUrls := [];
     currentIndex := 0;
     audioPlayer := {| src := None; playing := false; onended := None |};
     startBtn_disabled := false;
     stopBtn_disabled := true;
     statusEl := Status_other;
     next_url := 0%nat;
     url_log := [] |}.

(** The URLs created, played and revoked in a stretch of the log, in order. *)
Fixpoint created_in (log : list url_event) : list object_url :=
  match log with
  | [] => []
  | Created u _ _ :: log' => u :: created_in log'
  | _ :: log' => created_in log'
  end.

Fixpoint played_in (log : list url_event) : list object_url :=
  match log with
  | [] => []
  | Played u :: log' => u :: played_in log'
  | _ :: log' => played_in log'
  end.

Fixpoint revoked_in (log : list url_event) : list object_url :=
  match log with
  | [] => []
  | Revoked u :: log' => u :: revoked_in log'
  | _ :: log' => revoked_in log'
  end.

(** ** Platform functions, for running the model on examples *)

(** Modelled from the platform's definition of [atob] (forgiving base64):
    ASCII whitespace is dropped, up to two padding signs are removed from a
    text whose length is a multiple of four, a length of 1 modulo 4 or a code
    unit outside the alphabet is an error, and leftover bits are dropped. *)
Definition b64_value (c : code_unit) : option N :=
  (if (65 <=? c) && (c <=? 90) then Some (c - 65)
   else if (97 <=? c) && (c <=? 122) then Some (c - 71)
   else if (48 <=? c) && (c <=? 57) then Some (c + 4)
   else if c =? 43 then Some 62
   else if c =? 47 then Some 63
   else None)%N.

Definition is_ascii_whitespace (c : code_unit) : bool :=
  ((c =? 9) || (c =? 10) || (c =? 12) || (c =? 13) || (c =? 32))%N.

Definition strip_padding (s : jsstring) : jsstring :=
  if (length s mod 4 =? 0)%nat then
    match rev s with
    | 61%N :: 61%N :: r => rev r
    | 61%N :: r => rev r
    | _ => s
    end
  else s.

Fixpoint b64_values (s : jsstring) : option (list N) :=
  match s with
  | [] => Some []
  | c :: s' =>
      match b64_value c, b64_values s' with
      | Some v, Some vs => Some (v :: vs)
      | _, _ => None
      end
  end.

Fixpoint b64_bytes (vs : list N) : jsstring :=
  match vs with
  | a :: b :: c :: d :: rest =>
      let n := (a * 262144 + b * 4096 + c * 64 + d)%N in
      (n / 65536)%N :: ((n / 256) mod 256)%N :: (n mod 256)%N :: b64_bytes rest
  | [a; b; c] =>
      let n := (a * 4096 + b * 64 + c)%N in
      [(n / 1024)%N; ((n / 4) mod 256)%N]
  | [a; b] => [((a * 64 + b) / 16)%N]
  | _ => []
  end.

Definition atob_forgiving (s : jsstring) : option jsstring :=
  let data := strip_padding (filter (fun c => negb (is_ascii_whitespace c)) s) in
  if (length data mod 4 =? 1)%nat then None
  else
    match b64_values data with
    | Some vs => Some (b64_bytes vs)
    | None => None
    end.

(** A string-to-number conversion for the examples: right on the strings of
    decimal digits and on the strings of letters other than Infinity. *)
Fixpoint digits_value (s : jsstring) (acc : Z) : jsnum :=
  match s with
  | [] => Num acc
  | c :: s' =>
      if ((48 <=? c) && (c <=? 57))%N then digits_value s' (10 * acc + Z.of_N c - 48)
      else NaN
  end.

Definition StringToNumber_digits (s : jsstring) : jsnum := digits_value s 0.

(** Modelled from the platform's definition of [JSON.stringify], for the
    body object of a request: no white space, the keys in insertion order,
    strings quoted with the short escapes, the [\u] escape for the other
    control characters and for lone surrogates, a number in decimal and
    [NaN] as null.  Right on the integers below ten to the 21st in absolute
    value, which is where the platform switches to exponent notation. *)
Definition hex_digit (n : N) : code_unit :=
  (if n <? 10 then 48 + n else 87 + n)%N.

Definition unicode_escape (c : code_unit) : jsstring :=
  [92; 117; hex_digit (c / 4096); hex_digit ((c / 256) mod 16);
   hex_digit ((c / 16) mod 16); hex_digit (c mod 16)]%N.

Definition is_high_surrogate (c : code_unit) : bool :=
  ((55296 <=? c) && (c <=? 56319))%N.

Definition is_low_surrogate (c : code_unit) : bool :=
  ((56320 <=? c) && (c <=? 57343))%N.

Definition json_escape (c : code_unit) : jsstring :=
  (if c =? 8 then [92; 98]
   else if c =? 9 then [92; 116]
   else if c =? 10 then [92; 110]
   else if c =? 12 then [92; 102]
   else if c =? 13 then [92; 114]
   else if c =? 34 then [92; 34]
   else if c =? 92 then [92; 92]
   else if c <? 32 then unicode_escape c
   else [c])%N.

Fixpoint json_quote_units (s : jsstring) : jsstring :=
  match s with
  | [] => []
  | c :: s' =>
      if is_high_surrogate c then
        match s' with
        | d :: s'' =>
            if is_low_surrogate d then c :: d :: json_quote_units s''
            else unicode_escape c ++ json_quote_units s'
        | [] => unicode_escape c
        end
      else if is_low_surrogate c then unicode_escape c ++ json_quote_units s'
      else json_escape c ++ json_quote_units s'
  end.

Definition json_string (s : jsstring) : jsstring :=
  dquote :: json_quote_units s ++ [dquote].

Definition json_number (n : jsnum) : jsstring :=
  match n with
  | NaN => lit "null"
  | Num z => lit (NilZero.string_of_int (Z.to_int z))
  end.

(** A key with its colon. *)
Definition json_key (k : string) : jsstring :=
  dquote :: lit k ++ [dquote; 58%N].

Definition JSON_stringify_body (rp : req_params) : jsstring :=
  lit "{" ++ json_key "req_params" ++ lit "{"
  ++ json_key "text" ++ json_string (rp_text rp) ++ lit ","
  ++ json_key "speaker" ++ json_string (rp_speaker rp) ++ lit ","
  ++ match rp_additions rp with
     | Some a => json_key "additions" ++ json_string a ++ lit ","
     | None => []
     end
  ++ json_key "audio_params" ++ lit "{"
  ++ json_key "format" ++ json_string (ap_format (rp_audio_params rp)) ++ lit ","
  ++ json_key "sample_rate" ++ json_number (sample_rate (rp_audio_params rp))
  ++ lit "}}}".

(** A remote service that answers from a script: one prepared answer per
    request, in order; once the script is used up it rejects. *)
Definition scripted_fetch (_ : fetch_call) (script : list (jsstring + Response))
    : (jsstring + Response) * list (jsstring + Response) :=
  match script with
  | [] => (inl (lit "offline"), [])
  | answer :: script' => (answer, script')
  end.

(** ** Notions used to state the properties *)

(** The content type sends the response to the text branch. *)
Definition textual (r : Response) : bool :=
  let lowerType := toLowerCase (with_default [] (content_type r)) in
  includes lowerType (lit "application/json") || includes lowerType (lit "text").

Definition quote_free (s : jsstring) : Prop := Forall (fun c => c <> dquote) s.

(** The pattern occurs in [s] after [pre], with value [v] and [rest] after
    its closing quote. *)
Definition occurs (s pre v rest : jsstring) : Prop :=
  s = pre ++ data_prefix ++ v ++ dquote :: rest /\ quote_free v.

(** The values captured by the successive matches of the expression, as the
    loop sees them: each search starts where the previous match ended. *)
Inductive successive_matches : jsstring -> list jsstring -> Prop :=
| matches_done (s : jsstring) :
    regex_exec s = None -> successive_matches s []
| matches_next (s v rest : jsstring) (vs : list jsstring) :
    regex_exec s = Some (v, rest) ->
    successive_matches rest vs ->
    successive_matches s (v :: vs).

(** A captured value yields a chunk: it is not empty, it is not the word
    null, and it decodes. *)
Definition usable (atob : jsstring -> option jsstring) (v : jsstring) : bool :=
  negb (is_empty v) && negb (jsstring_eqb v (lit "null")) &&
  match atob v with
  | Some _ => true
  | None => false
  end.

Definition chunk_of (atob : jsstring -> option jsstring) (v : jsstring)
    : list uint8 :=
  match atob v with
  | Some binaryStr => map to_uint8 binaryStr
  | None => []
  end.

(** The decoded chunks of the captured values, in match order. *)
Definition decoded_chunks (atob : jsstring -> option jsstring)
    (captures : list jsstring) : list (list uint8) :=
  map (chunk_of atob) (filter (usable atob) captures).

(** A JSON object with the single field data. *)
Definition data_object (v : jsstring) : jsstring :=
  lit "{" ++ data_prefix ++ v ++ dquote :: lit "}".

(** A body in frames: before each data field some text without a quote,
    and some text without a quote at the end. *)
Fixpoint framed (frames : list (jsstring * jsstring)) (post : jsstring)
    : jsstring :=
  match frames with
  | [] => post
  | (pre, v) :: frames' =>
      pre ++ data_prefix ++ v ++ dquote :: framed frames' post
  end.

(** Storage in which no key was ever written. *)
Definition no_items : storage_items :=
  {| stored_apiKey := None; stored_resourceId := None; stored_speaker := None;
     stored_additions := None; stored_format := None;
     stored_sampleRate := None; stored_maxLength := None |}.

(** A remote service watched from outside: next to its own state it keeps,
    oldest first, the arguments [fetch] was called with. *)
Definition recorded {net : Type}
    (fetch : fetch_call -> net -> (jsstring + Response) * net)
    (call : fetch_call) (n : list fetch_call * net)
    : (jsstring + Response) * (list fetch_call * net) :=
  let (answer, n') := fetch call (snd n) in
  (answer, (fst n ++ [call], n')).

(** The world [w] with its remote service watched, after the calls [seen]. *)
Definition observed {net : Type} (seen : list fetch_call) (w : world net)
    : world (list fetch_call * net) :=
  {| storage := storage w; network := (seen, network w); calls := calls w;
     progress := progress w |}.

(** [m'] is [m] run against the watched service: the same outcome in the
    same world, and the service has seen the arguments of [fetch] for each
    request of the run, in order. *)
Definition watches {net A : Type} (JSON_stringify : req_params -> jsstring)
    (m : M net A) (m' : M (list fetch_call * net) A) : Prop :=
  forall (seen : list fetch_call) (w : world net),
    exists issued : list request,
      calls (snd (m w)) = calls w ++ issued /\
      m' (observed seen w)
      = (fst (m w),
         observed (seen ++ map (fetch_arguments JSON_stringify) issued)
           (snd (m w))).

(** A serialized body shown with apostrophes for its double quotes. *)
Definition single_quoted (s : jsstring) : jsstring :=
  map (fun c => if (c =? 34)%N then 39%N else c) s.

Section PipelineNotions.

Variable net : Type.
Variable fetch : fetch_call -> net -> (jsstring + Response) * net.
Variable atob : jsstring -> option jsstring.
Variable StringToNumber : jsstring -> jsnum.
Variable JSON_stringify : req_params -> jsstring.

(** One synthesis call seen from the remote service: what the call yields
    and the state it leaves the service in. *)
Definition call_result (settings : SynthesisSettings) (segment : jsstring)
    (n : net) : outcome ArrayBuffer * net :=
  let run := synthesizeSegment net fetch atob StringToNumber JSON_stringify segment settings
               {| storage := no_items; network := n; calls := [];
                  progress := [] |} in
  (fst run, network (snd run)).

(** The segments are synthesized one after the other, each from the state
    the previous call left, and all calls succeed. *)
Inductive synthesized (settings : SynthesisSettings)
    : list jsstring -> net -> list ArrayBuffer -> net -> Prop :=
| synthesized_nil (n : net) : synthesized settings [] n [] n
| synthesized_cons (segment : jsstring) (todo : list jsstring) (n n1 n2 : net)
    (buffer : ArrayBuffer) (buffers : list ArrayBuffer) :
    call_result settings segment n = (Returns buffer, n1) ->
    synthesized settings todo n1 buffers n2 ->
    synthesized settings (segment :: todo) n (buffer :: buffers) n2.

(** The requests for a list of segments, in order. *)
Definition requests_for (settings : SynthesisSettings)
    (segments : list jsstring) : list request :=
  map (fun segment => build_request StringToNumber segment settings) segments.

(** The body of a request carries the stored sample rate converted by
    [Number], the stored format, and the stored additions when they are not
    empty. *)
Definition carries_settings (settings : SynthesisSettings) (req : request)
    : Prop :=
  sample_rate (rp_audio_params (body req))
  = Number StringToNumber (sampleRate settings) /\
  ap_format (rp_audio_params (body req)) = format settings /\
  rp_additions (body req)
  = (if is_empty (additions settings) then None
     else Some (additions settings)).

End PipelineNotions.

(** The queue created by [start_playback] in [p]: consecutive blob URLs. *)
Definition queue_of (p : popup) (n : nat) : list object_url :=
  seq (next_url p) n.

(** [k] [ended] events in a row. *)
Fixpoint after_ended (k : nat) (p : popup) : popup :=
  match k with
  | O => p
  | S k' => after_ended k' (ended p)
  end.

(** The state of the controller while the segment of index [j] plays, in a
    queue of [n] URLs started from [p0]. *)
Definition playing_index (p0 : popup) (n j : nat) (p : popup) : Prop :=
  currentUrls p = queue_of p0 n /\
  currentIndex p = j /\
  (j < n)%nat /\
  audioPlayer p = {| src := Some (next_url p0 + j)%nat; playing := true;
                     onended := Some (next_url p0 + j)%nat |} /\
  exists log,
    url_log p = url_log p0 ++ log /\
    created_in log = queue_of p0 n /\
    played_in log = seq (next_url p0) (S j) /\
    revoked_in log = seq (next_url p0) j.

(** The state of the controller once the last segment has ended. *)
Definition finished_queue (p0 : popup) (n : nat) (p : popup) : Prop :=
  currentUrls p = queue_of p0 n /\
  currentIndex p = n /\
  playing (audioPlayer p) = false /\
  statusEl p = Status_finished /\
  startBtn_disabled p = false /\
  stopBtn_disabled p = true /\
  exists log,
    url_log p = url_log p0 ++ log /\
    created_in log = queue_of p0 n /\
    played_in log = queue_of p0 n /\
    revoked_in log = queue_of p0 n.

(** ** Text extraction (content script) *)

(** The white space and line terminators that [trim] removes. *)
Definition is_js_whitespace (c : code_unit) : bool :=
  (((9 <=? c) && (c <=? 13)) || (c =? 32) || (c =? 160) || (c =? 5760)
   || ((8192 <=? c) && (c <=? 8202)) || (c =? 8232) || (c =? 8233)
   || (c =? 8239) || (c =? 8287) || (c =? 12288) || (c =? 65279))%N.

Fixpoint drop_whitespace (s : jsstring) : jsstring :=
  match s with
  | [] => []
  | c :: s' => if is_js_whitespace c then drop_whitespace s' else s
  end.

(** [s.trim()] *)
Definition trim (s : jsstring) : jsstring :=
  rev (drop_whitespace (rev (drop_whitespace s))).

(** What the content script reads from the page:
    [window.getSelection && window.getSelection().toString()] ([None] when it
    is not a string) and [document.body?.innerText] ([None] without a
    body). *)
Record page : Type := {
  page_selection : option jsstring;
  page_innerText : option jsstring
}.

(** The body of the [try] of the content script: the trimmed selection when
    there is one, else the text of the body. *)
Definition page_text (pg : page) : jsstring :=
  let selection := with_default [] (page_selection pg) in
  if negb (is_empty selection) && negb (is_empty (trim selection))
  then trim selection
  else with_default [] (page_innerText pg).

(** The listener of the content script: the [text] it passes to
    [sendResponse], or [None] when it does not answer.  [pg] is [None] when
    reading the page throws, which the [catch] turns into the empty text. *)
Definition getText_listener (msg : option message) (pg : option page)
    : option jsstring :=
  match msg with
  | None => None
  | Some m =>
      if jsstring_eqb (msg_type m) (lit "getText") then
        Some (match pg with
              | Some pg' => page_text pg'
              | None => []
              end)
      else None
  end.

(** ** The options page *)

Record options_form : Type := {
  form_apiKey : jsstring;
  form_resourceId : jsstring;
  form_speaker : jsstring;
  form_additions : jsstring;
  form_format : jsstring;
  form_sampleRate : jsstring;
  form_maxLength : jsstring
}.

(** The submit handler of the options page: the seven keys it writes with
    [chrome.storage.local.set].  [parseInt10 v] is [parseInt(v, 10)] of the
    platform. *)
Definition save_options (parseInt10 : jsstring -> jsnum) (form : options_form)
    : storage_items :=
  {| stored_apiKey := Some (trim (form_apiKey form));
     stored_resourceId := Some (trim (form_resourceId form));
     stored_speaker := Some (trim (form_speaker form));
     stored_additions := Some (trim (form_additions form));
     stored_format := Some (form_format form);
     stored_sampleRate :=
       Some (VNumber (Num (or_default (parseInt10 (form_sampleRate form)) 24000)));
     stored_maxLength :=
       Some (VNumber (Num (or_default (parseInt10 (form_maxLength form)) 5000))) |}.

(** ** The start handler of the popup *)

(** What the active tab answers to the getText message: a
    [chrome.runtime.lastError], or a response ([None] for [undefined]) with
    its [text] ([None] for [undefined]). *)
Inductive tab_answer : Type :=
| Tab_lastError
| Tab_response (response : option (option jsstring)).

(** Where the start handler ends; each case but the last two writes its own
    line to the status element.  [Synthesis_pending] is not an end: the run
    of [synthesizeAll] has not returned within the budget and the handler is
    still inside its [try].  For a run that the engine ends with an error of
    its own (a non-positive [maxLength] on a non-empty text) the model stays
    there, where the handler goes through its [catch]. *)
Inductive start_outcome : Type :=
| No_active_tab          (* 'No active tab found.' *)
| Unable_to_retrieve     (* 'Unable to retrieve text from this page.' *)
| No_text_found          (* 'No text found on this page.' *)
| Synthesis_failed (e : error)   (* `Error: ${err.message || err}` *)
| No_audio_segments      (* 'No audio segments returned.' *)
| Playback_started
| Synthesis_pending.

(** [startBtn.disabled = false; stopBtn.disabled = true;] with a status
    line *)
Definition reset_controls (p : popup) : popup :=
  {| currentUrls := currentUrls p;
     currentIndex := currentIndex p;
     audioPlayer := audioPlayer p;
     startBtn_disabled := false;
     stopBtn_disabled := true;
     statusEl := Status_other;
     next_url := next_url p;
     url_log := url_log p |}.

(** [response?.text?.trim() || ''] *)
Definition response_text_trimmed (response : option (option jsstring))
    : jsstring :=
  match response with
  | Some (Some text) => trim text
  | _ => []
  end.

Section StartHandler.

Variable net : Type.
Variable fetch : fetch_call -> net -> (jsstring + Response) * net.
Variable atob : jsstring -> option jsstring.
Variable StringToNumber : jsstring -> jsnum.
Variable JSON_stringify : req_params -> jsstring.

(** The click handler of the start button, run without another handler in
    between: [tabs] is what [chrome.tabs.query] finds, each tab with its
    answer to the getText message. *)
Definition start_click (fuel : nat) (tabs : list tab_answer) (p : popup)
    (w : world net) : start_outcome * popup * world net :=
  let busy :=
    {| currentUrls := currentUrls p;
       currentIndex := currentIndex p;
       audioPlayer := audioPlayer p;
       startBtn_disabled := true;
       stopBtn_disabled := false;
       statusEl := Status_other;
       next_url := next_url p;
       url_log := url_log p |} in
  match tabs with
  | [] => (No_active_tab, reset_controls busy, w)
  | Tab_lastError :: _ => (Unable_to_retrieve, reset_controls busy, w)
  | Tab_response response :: _ =>
      let text := response_text_trimmed response in
      if is_empty text then (No_text_found, reset_controls busy, w)
      else
        match synthesizeAll net fetch atob StringToNumber JSON_stringify fuel text w with
        | (Returns (buffers, _), w') =>
            (if is_nil buffers then No_audio_segments else Playback_started,
             play_result buffers (stored_format (storage w')) busy, w')
        | (Throws e, w') => (Synthesis_failed e, reset_controls busy, w')
        | (OutOfFuel, w') => (Synthesis_pending, busy, w')
        end
  end.

End StartHandler.

(** ** Events of the playback controller *)

(** What can happen to the controller: the start handler installs a queue,
    the audio element reaches the end of its source, [stopPlayback] runs. *)
Inductive popup_event : Type :=
| Ev_start (buffers : list ArrayBuffer) (mime : jsstring)
| Ev_ended
| Ev_stop.

Definition popup_step (p : popup) (ev : popup_event) : popup :=
  match ev with
  | Ev_start buffers mime => start_playback buffers mime p
  | Ev_ended => ended p
  | Ev_stop => stopPlayback p
  end.

Definition popup_run (events : list popup_event) (p : popup) : popup :=
  fold_left popup_step events p.

(** The URLs still to be revoked by [stopPlayback]: the queue from the
    cursor on. *)
Definition pending (p : popup) : list object_url :=
  skipn (currentIndex p) (currentUrls p).

(** ** Example data *)

(** A JSON response carrying two data objects without a separator. *)
Definition two_chunks_response : Response :=
  {| ok := true;
     status := 200;
     statusText := lit "OK";
     content_type := Some (lit "Application/JSON; charset=utf-8");
     response_text := data_object (lit "QUJD") ++ data_object (lit "QQ==");
     response_arrayBuffer := [] |}.

(** A JSON response whose data fields are null or empty. *)
Definition null_only_response : Response :=
  {| ok := true;
     status := 200;
     statusText := lit "OK";
     content_type := Some (lit "application/json");
     response_text :=
       concat (map data_object [lit "null"; lit ""; lit "null"]);
     response_arrayBuffer := [] |}.

(** A response with raw audio. *)
Definition binary_response : Response :=
  {| ok := true;
     status := 200;
     statusText := lit "OK";
     content_type := Some (lit "audio/mpeg");
     response_text := [];
     response_arrayBuffer := [255; 251; 144; 0]%N |}.

(** A refusal of the remote service. *)
Definition failed_response : Response :=
  {| ok := false;
     status := 429;
     statusText := lit "Too Many Requests";
     content_type := Some (lit "application/json");
     response_text := [];
     response_arrayBuffer := [] |}.

(** Stored settings with credentials, a format outside the documented
    ones, a sample rate that is not a number, and segments of three code
    units. *)
Definition configured_items : storage_items :=
  {| stored_apiKey := Some (lit "key");
     stored_resourceId := Some (lit "seed-tts-2.0");
     stored_speaker := Some (lit "narrator");
     stored_additions := None;
     stored_format := Some (lit "wav");
     stored_sampleRate := Some (VString (lit "fast"));
     stored_maxLength := Some (VNumber (Num 3)) |}.

(** The same without a speaker. *)
Definition no_speaker_items : storage_items :=
  {| stored_apiKey := Some (lit "key");
     stored_resourceId := Some (lit "seed-tts-2.0");
     stored_speaker := Some [];
     stored_additions := None;
     stored_format := Some (lit "mp3");
     stored_sampleRate := Some (VNumber (Num 24000));
     stored_maxLength := Some (VNumber (Num 3)) |}.

(** A stored maximum length below zero. *)
Definition negative_maxLength_items : storage_items :=
  {| stored_apiKey := Some (lit "key");
     stored_resourceId := Some (lit "seed-tts-2.0");
     stored_speaker := Some (lit "narrator");
     stored_additions := None;
     stored_format := Some (lit "mp3");
     stored_sampleRate := Some (VNumber (Num 24000));
     stored_maxLength := Some (VNumber (Num (-5))) |}.

(** A remote service that answers the first request, refuses the second and
    would answer a third. *)
Definition three_answers : list (jsstring + Response) :=
  [inr two_chunks_response; inr failed_response; inr binary_response].

Definition fresh_world (items : storage_items)
    (script : list (jsstring + Response))
    : world (list (jsstring + Response)) :=
  {| storage := items; network := script; calls := []; progress := [] |}.

Definition three_buffers : list ArrayBuffer := [[1%N]; [2%N]; [3%N]].

(** * Properties *)

(** ** Facts about [slice] and the segmenter loop *)

Lemma jslength_nonneg (s : jsstring) : 0 <= jslength s.
Proof. unfold jslength; lia. Qed.

Lemma slice_forward (s : jsstring) (start n : Z) :
  0 <= start -> start < jslength s -> 0 < n ->
  slice s start (start + n) =
    firstn (Z.to_nat (Z.min n (jslength s - start))) (skipn (Z.to_nat start) s).
Proof.
  intros Hs Hlt Hn. unfold slice.
  destruct (Z.ltb_spec start 0); [lia|].
  destruct (Z.ltb_spec (start + n) 0); [lia|].
  cbv zeta. replace (Z.min start (jslength s)) with start by lia.
  replace (Z.min (start + n) (jslength s) - start)
    with (Z.min n (jslength s - start)) by lia.
  reflexivity.
Qed.

Lemma skipn_plus {A} (l : list A) (a b : nat) :
  skipn (a + b) l = skipn b (skipn a l).
Proof.
  revert l; induction a as [|a IH]; intros l; simpl; [reflexivity|].
  destruct l as [|x l]; [now rewrite skipn_nil | apply IH].
Qed.

(** One iteration consumes the next [min maxLength remaining] code units. *)
Lemma splitText_loop_positive (text : jsstring) (maxLength : Z) :
  0 < maxLength ->
  forall (fuel : nat) (start : Z) (segments : list jsstring),
    0 <= start ->
    Z.max 0 (jslength text - start) < Z.of_nat fuel ->
    exists more,
      splitText_loop fuel text maxLength start segments = Returns (segments ++ more)
      /\ concat more = skipn (Z.to_nat start) text
      /\ Forall (fun s => 0 < jslength s <= maxLength) more.
Proof.
  intros HL. induction fuel as [|fuel IH]; intros start segments Hs Hfuel.
  - exfalso. simpl in Hfuel. lia.
  - simpl. destruct (Z.ltb_spec start (jslength text)) as [Hlt|Hge].
    + destruct (IH (start + maxLength)
                   (segments ++ [slice text start (start + maxLength)]))
        as (more & Hrun & Hcat & Hall); [lia | lia |].
      exists (slice text start (start + maxLength) :: more).
      split; [|split].
      * rewrite Hrun, <- app_assoc. reflexivity.
      * simpl. rewrite Hcat, slice_forward by lia.
        destruct (Z.le_ge_cases maxLength (jslength text - start)) as [Hle|Hgt].
        -- rewrite Z.min_l by lia.
           replace (Z.to_nat (start + maxLength))
             with (Z.to_nat start + Z.to_nat maxLength)%nat by lia.
           rewrite skipn_plus. apply firstn_skipn.
        -- rewrite Z.min_r by lia.
           rewrite (skipn_all2 (n := Z.to_nat (start + maxLength))).
           2:{ unfold jslength in *. lia. }
           rewrite app_nil_r. apply firstn_all2.
           rewrite length_skipn. unfold jslength in *. lia.
      * constructor; [|exact Hall].
        rewrite slice_forward by lia. unfold jslength in *.
        rewrite length_firstn, length_skipn. lia.
    + exists []. rewrite app_nil_r. split; [reflexivity|].
      split; [|constructor].
      simpl. symmetry. apply skipn_all2. unfold jslength in *. lia.
Qed.

(** With a non-positive [maxLength] the cursor never moves forward, so on
    a non-empty text the loop does not leave through its condition: it
    returns no list. *)
Lemma splitText_loop_stuck (text : jsstring) (maxLength : Z) :
  maxLength <= 0 -> text <> [] ->
  forall (fuel : nat) (start : Z) (segments result : list jsstring),
    start <= 0 ->
    splitText_loop fuel text maxLength start segments <> Returns result.
Proof.
  intros HL Hne. induction fuel as [|fuel IH]; intros start segments result Hs.
  - discriminate.
  - simpl. destruct (Z.ltb_spec start (jslength text)) as [Hlt|Hge].
    + apply IH. lia.
    + exfalso. destruct text as [|c text]; [congruence|].
      unfold jslength in Hge. simpl length in Hge. lia.
Qed.

Lemma splitText_loop_more_fuel (text : jsstring) (maxLength : Z) (extra : nat) :
  forall (fuel : nat) (start : Z) (segments result : list jsstring),
    splitText_loop fuel text maxLength start segments = Returns result ->
    splitText_loop (fuel + extra) text maxLength start segments = Returns result.
Proof.
  induction fuel as [|fuel IH]; intros start segments result H.
  - discriminate.
  - simpl in *. destruct (start <? jslength text); [apply IH|]; exact H.
Qed.

(** The segmenter has no [throw] of its own: none of the pipeline's errors
    comes out of it. *)
Lemma splitText_loop_throws_nothing (text : jsstring) (maxLength : Z) :
  forall (fuel : nat) (start : Z) (segments : list jsstring) (e : error),
    e <> RangeError ->
    splitText_loop fuel text maxLength start segments <> Throws e.
Proof.
  induction fuel as [|fuel IH]; intros start segments e He; simpl.
  - discriminate.
  - destruct (start <? jslength text); [now apply IH | discriminate].
Qed.

Lemma splitTextPlain_eq : splitTextPlain = splitText.
Proof. reflexivity. Qed.

(** The segmenter on a positive [maxLength]. *)
Lemma splitText_returns (T : jsstring) (L : Z) :
  0 < L ->
  exists segments : list jsstring,
    (forall fuel : nat, (length T < fuel)%nat ->
       splitText fuel T L = Returns segments) /\
    concat segments = T /\
    Forall (fun s => 0 < jslength s <= L) segments.
Proof.
  intros HL.
  destruct (splitText_loop_positive T L HL (S (length T)) 0 [])
    as (segments & Hrun & Hcat & Hall); [lia | unfold jslength; lia |].
  simpl app in Hrun. simpl skipn in Hcat.
  exists segments. split; [|split; assumption].
  intros fuel Hfuel. unfold splitText.
  replace fuel with (S (length T) + (fuel - S (length T)))%nat by lia.
  apply splitText_loop_more_fuel; exact Hrun.
Qed.

(** C1. For a positive [maxLength] the segmenter returns (given a budget of
    more iterations than the text has code units, and then always the same
    list) non-empty segments of at most [maxLength] code units whose
    concatenation in order is the text; the empty text gives no segment.
    The service worker's [splitText] and the popup's [splitTextPlain]
    agree. *)
Theorem splitText_lossless_bounded (T : jsstring) (L : Z) :
  0 < L ->
  exists segments : list jsstring,
    (forall fuel : nat, (length T < fuel)%nat ->
       splitText fuel T L = Returns segments /\
       splitTextPlain fuel T L = Returns segments) /\
    concat segments = T /\
    Forall (fun s => 0 < jslength s <= L) segments /\
    (T = [] -> segments = []).
Proof.
  intros HL.
  destruct (splitText_returns T L HL) as (segments & Hrun & Hcat & Hall).
  exists segments. split; [|split; [|split]].
  - intros fuel Hfuel. rewrite splitTextPlain_eq.
    split; apply Hrun; exact Hfuel.
  - exact Hcat.
  - exact Hall.
  - intros HT. destruct segments as [|s segments]; [reflexivity|].
    exfalso. inversion Hall as [|? ? Hs _]; subst.
    destruct s; [unfold jslength in Hs; simpl in Hs; lia | discriminate].
Qed.

Lemma splitText_lossless_bounded_witness :
  exists segments : list jsstring,
    (forall fuel : nat, (length (lit "abcdefg") < fuel)%nat ->
       splitText fuel (lit "abcdefg") 3 = Returns segments /\
       splitTextPlain fuel (lit "abcdefg") 3 = Returns segments) /\
    concat segments = lit "abcdefg" /\
    Forall (fun s => 0 < jslength s <= 3) segments /\
    (lit "abcdefg" = [] -> segments = []).
Proof. apply (splitText_lossless_bounded (lit "abcdefg") 3). lia. Defined.

Example splitText_abcdefg :
  splitText 8 (lit "abcdefg") 3 = Returns [lit "abc"; lit "def"; lit "g"].
Proof. reflexivity. Qed.

(** ** The regular expression *)

Lemma strip_prefix_app (p s : jsstring) : strip_prefix p (p ++ s) = Some s.
Proof.
  induction p as [|a p IH]; simpl; [reflexivity|].
  now rewrite N.eqb_refl.
Qed.

Lemma strip_prefix_sound (p : jsstring) :
  forall s r : jsstring, strip_prefix p s = Some r -> s = p ++ r.
Proof.
  induction p as [|a p IH]; intros s r H; simpl in *.
  - congruence.
  - destruct s as [|b s]; [discriminate|].
    destruct (N.eqb_spec a b) as [->|]; [|discriminate].
    simpl. f_equal. now apply IH.
Qed.

Lemma span_not_quote_spec (s : jsstring) :
  s = fst (span_not_quote s) ++ snd (span_not_quote s)
  /\ quote_free (fst (span_not_quote s))
  /\ (snd (span_not_quote s) = [] \/
      exists r, snd (span_not_quote s) = dquote :: r).
Proof.
  induction s as [|c s (IH1 & IH2 & IH3)]; simpl.
  - repeat split; [constructor | now left].
  - destruct (N.eqb_spec c dquote) as [->|Hc]; simpl.
    + repeat split; [constructor | right; now exists s].
    + destruct (span_not_quote s) as [run rest]; simpl in *.
      repeat split; [congruence | now constructor | exact IH3].
Qed.

Lemma span_not_quote_app (v rest : jsstring) :
  quote_free v -> span_not_quote (v ++ dquote :: rest) = (v, dquote :: rest).
Proof.
  induction 1 as [|c v Hc _ IH]; simpl.
  - reflexivity.
  - destruct (N.eqb_spec c dquote); [contradiction|]. now rewrite IH.
Qed.

Lemma span_not_quote_all (s : jsstring) :
  quote_free s -> span_not_quote s = (s, []).
Proof.
  induction 1 as [|c s Hc _ IH]; simpl.
  - reflexivity.
  - destruct (N.eqb_spec c dquote); [contradiction|]. now rewrite IH.
Qed.

Lemma data_prefix_cons : exists tail, data_prefix = dquote :: tail.
Proof. eexists. reflexivity. Qed.

Lemma match_here_not_quote (c : code_unit) (s : jsstring) :
  c <> dquote -> match_here (c :: s) = None.
Proof.
  intros Hc. unfold match_here. destruct data_prefix_cons as (tail & ->).
  cbn [strip_prefix].
  destruct (N.eqb_spec dquote c); [congruence | reflexivity].
Qed.

Lemma match_here_nil : match_here [] = None.
Proof. reflexivity. Qed.

(** The expression matches at the start of [s] exactly when the pattern
    occurs there. *)
Lemma match_here_occurs (s v rest : jsstring) :
  match_here s = Some (v, rest) <-> occurs s [] v rest.
Proof.
  unfold match_here, occurs. split.
  - destruct (strip_prefix data_prefix s) as [after|] eqn:Hp; [|discriminate].
    apply strip_prefix_sound in Hp.
    destruct (span_not_quote_spec after) as (Hcat & Hfree & Hrest).
    destruct (span_not_quote after) as [capture rest0]; simpl in *.
    destruct rest0 as [|q rest']; [discriminate|].
    intros [= <- <-]. destruct Hrest as [|(r & [= -> ->])]; [discriminate|].
    split; [now rewrite Hp, Hcat | exact Hfree].
  - intros (-> & Hfree). cbn [app]. rewrite strip_prefix_app.
    now rewrite span_not_quote_app.
Qed.

Lemma regex_exec_eq (s : jsstring) :
  regex_exec s =
    match match_here s with
    | Some m => Some m
    | None =>
        match s with
        | [] => None
        | _ :: s' => regex_exec s'
        end
    end.
Proof. destruct s; reflexivity. Qed.

(** A result of [regex.exec] is an occurrence of the pattern, and the
    leftmost one. *)
Lemma regex_exec_sound :
  forall s v rest : jsstring,
    regex_exec s = Some (v, rest) ->
    exists pre,
      occurs s pre v rest /\
      forall pre' v' rest', occurs s pre' v' rest' ->
        (length pre <= length pre')%nat.
Proof.
  induction s as [|c s IH]; intros v rest H; rewrite regex_exec_eq in H.
  - discriminate.
  - destruct (match_here (c :: s)) as [m|] eqn:Hm.
    + injection H as ->. exists []. split; [now apply match_here_occurs|].
      intros; simpl; lia.
    + destruct (IH v rest H) as (pre & (Hs & Hfree) & Hleft).
      exists (c :: pre). split; [split; [simpl; now rewrite Hs | exact Hfree]|].
      intros pre' v' rest' Hocc. destruct pre' as [|c' pre'].
      * apply match_here_occurs in Hocc. congruence.
      * destruct Hocc as (Heq & Hfree'). simpl in Heq. injection Heq as -> Heq.
        simpl. apply le_n_S. apply (Hleft pre' v' rest'). now split.
Qed.

(** [regex.exec] returns [null] exactly when the pattern occurs nowhere. *)
Lemma regex_exec_none (s : jsstring) :
  regex_exec s = None <-> forall pre v rest, ~ occurs s pre v rest.
Proof.
  split.
  - induction s as [|c s IH]; intros H pre v rest Hocc;
      rewrite regex_exec_eq in H.
    + destruct Hocc as (Heq & _). destruct data_prefix_cons as (tail & Ht).
      rewrite Ht in Heq. destruct pre; discriminate.
    + destruct (match_here (c :: s)) as [m|] eqn:Hm; [discriminate|].
      destruct pre as [|c' pre].
      * apply match_here_occurs in Hocc. congruence.
      * destruct Hocc as (Heq & Hfree). simpl in Heq. injection Heq as -> Heq.
        apply (IH H pre v rest). now split.
  - intros H. destruct (regex_exec s) as [[v rest]|] eqn:He; [|reflexivity].
    destruct (regex_exec_sound s v rest He) as (pre & Hocc & _).
    now destruct (H pre v rest).
Qed.

(** Every match consumes at least the eight fixed code units and the closing
    quote. *)
Lemma regex_exec_shorter (s v rest : jsstring) :
  regex_exec s = Some (v, rest) -> (length rest + 9 <= length s)%nat.
Proof.
  intros H. destruct (regex_exec_sound s v rest H) as (pre & (-> & _) & _).
  rewrite !length_app. simpl. lia.
Qed.

(** Text without a quote before a data field is skipped. *)
Lemma regex_exec_frame (pre v rest : jsstring) :
  quote_free pre -> quote_free v ->
  regex_exec (pre ++ data_prefix ++ v ++ dquote :: rest) = Some (v, rest).
Proof.
  intros Hpre Hv. induction Hpre as [|c pre Hc _ IH].
  - rewrite regex_exec_eq.
    assert (Hm : match_here ([] ++ data_prefix ++ v ++ dquote :: rest)
                 = Some (v, rest)) by (apply match_here_occurs; now split).
    now rewrite Hm.
  - rewrite regex_exec_eq. simpl app. now rewrite match_here_not_quote.
Qed.

Lemma regex_exec_quote_free (s : jsstring) :
  quote_free s -> regex_exec s = None.
Proof.
  induction 1 as [|c s Hc _ IH]; rewrite regex_exec_eq.
  - reflexivity.
  - now rewrite match_here_not_quote.
Qed.

(** ** The matches of a whole text *)

Lemma successive_matches_total :
  forall s : jsstring, exists captures, successive_matches s captures.
Proof.
  intros s. remember (length s) as n eqn:Hn. revert s Hn.
  induction n as [n IH] using lt_wf_ind; intros s ->.
  destruct (regex_exec s) as [[v rest]|] eqn:He.
  - destruct (IH (length rest)) with (s := rest) as (vs & Hvs);
      [apply regex_exec_shorter in He; lia | reflexivity |].
    exists (v :: vs). now apply matches_next with rest.
  - exists []. now constructor.
Qed.

Lemma successive_matches_unique (s : jsstring) (c1 c2 : list jsstring) :
  successive_matches s c1 -> successive_matches s c2 -> c1 = c2.
Proof.
  intros H1. revert c2.
  induction H1 as [s He|s v rest vs He _ IH]; intros c2 H2;
    inversion H2; subst; try congruence.
  assert (Heq : Some (v, rest) = Some (v0, rest0)) by congruence.
  injection Heq as <- <-. f_equal. now apply IH.
Qed.

(** In a framed body the matches are the values of the data fields, in
    order. *)
Lemma successive_matches_framed (frames : list (jsstring * jsstring))
    (post : jsstring) :
  Forall (fun f => quote_free (fst f) /\ quote_free (snd f)) frames ->
  quote_free post ->
  successive_matches (framed frames post) (map snd frames).
Proof.
  intros Hf Hpost. induction Hf as [|[pre v] frames (Hpre & Hv) _ IH]; simpl.
  - constructor. now apply regex_exec_quote_free.
  - apply matches_next with (framed frames post); [|exact IH].
    now apply regex_exec_frame.
Qed.

(** ** Merging the chunks *)

Lemma bytelength_app (a b : list uint8) :
  bytelength (a ++ b) = bytelength a + bytelength b.
Proof. unfold bytelength. rewrite length_app. lia. Qed.

(** Writing a chunk right after the part already written, into the zeros
    that follow it. *)
Lemma typed_set_next (written chunk : list uint8) (m : nat) :
  typed_set (written ++ repeat 0%N (length chunk + m)) chunk (bytelength written)
  = Some ((written ++ chunk) ++ repeat 0%N m).
Proof.
  unfold typed_set.
  assert (Hlen : bytelength (written ++ repeat 0%N (length chunk + m))
                 = bytelength written + bytelength chunk + Z.of_nat m).
  { rewrite bytelength_app. unfold bytelength. rewrite repeat_length. lia. }
  rewrite Hlen.
  destruct (Z.leb_spec 0 (bytelength written)) as [_|Hneg];
    [|unfold bytelength in Hneg; lia].
  destruct (Z.leb_spec (bytelength written + bytelength chunk)
              (bytelength written + bytelength chunk + Z.of_nat m)) as [_|Hbad];
    [|lia].
  simpl andb. cbv iota. f_equal.
  unfold bytelength. rewrite Nat2Z.id.
  rewrite firstn_app, firstn_all, Nat.sub_diag, firstn_O, app_nil_r.
  rewrite <- app_assoc. f_equal. f_equal.
  rewrite repeat_app, app_assoc.
  rewrite skipn_app.
  assert (Hw : length (written ++ repeat 0%N (length chunk))
               = (length written + length chunk)%nat)
    by now rewrite length_app, repeat_length.
  rewrite <- Hw, skipn_all, Nat.sub_diag. reflexivity.
Qed.

Lemma merge_chunks_concat (chunks : list (list uint8)) :
  forall written : list uint8,
    merge_chunks chunks (written ++ repeat 0%N (length (concat chunks)))
      (bytelength written)
    = Returns (written ++ concat chunks).
Proof.
  induction chunks as [|chunk chunks IH]; intros written; simpl.
  - reflexivity.
  - rewrite length_app, typed_set_next, <- bytelength_app, IH.
    now rewrite <- app_assoc.
Qed.

Section DecoderProperties.

Variable atob : jsstring -> option jsstring.

Lemma decode_step_usable (st : decode_state) (v : jsstring) :
  decode_step atob st v =
    if usable atob v then
      {| audioChunks := audioChunks st ++ [chunk_of atob v];
         totalLength := totalLength st + bytelength (chunk_of atob v) |}
    else st.
Proof.
  unfold decode_step, usable, chunk_of.
  destruct (negb (is_empty v) && negb (jsstring_eqb v (lit "null")));
    destruct (atob v); reflexivity.
Qed.

(** The loop body folded over the captured values. *)
Lemma decode_steps (captures : list jsstring) :
  forall st : decode_state,
    fold_left (decode_step atob) captures st =
      {| audioChunks := audioChunks st ++ decoded_chunks atob captures;
         totalLength :=
           totalLength st + bytelength (concat (decoded_chunks atob captures)) |}.
Proof.
  unfold decoded_chunks.
  induction captures as [|v captures IH]; intros st; simpl.
  - rewrite app_nil_r, Z.add_0_r. now destruct st.
  - rewrite IH, decode_step_usable. destruct (usable atob v); simpl.
    + rewrite <- app_assoc, bytelength_app. simpl. f_equal. lia.
    + reflexivity.
Qed.

(** The loop returns once the text has no further match. *)
Lemma decode_loop_matches (s : jsstring) (captures : list jsstring) :
  successive_matches s captures ->
  forall (fuel : nat) (st : decode_state),
    (length s < fuel)%nat ->
    decode_loop atob fuel s st = Returns (fold_left (decode_step atob) captures st).
Proof.
  induction 1 as [s He|s v rest vs He _ IH]; intros fuel st Hfuel;
    (destruct fuel as [|fuel]; [lia|]); simpl; rewrite He.
  - reflexivity.
  - apply IH. apply regex_exec_shorter in He. lia.
Qed.

(** The text branch, in terms of the matches of the text. *)
Lemma decode_text_matches (text : jsstring) (captures : list jsstring) :
  successive_matches text captures ->
  decode_text atob text =
    match decoded_chunks atob captures with
    | [] => Throws NoAudioData
    | chunk :: chunks => Returns (concat (chunk :: chunks))
    end.
Proof.
  intros Hm. unfold decode_text.
  rewrite (decode_loop_matches text captures Hm) by lia.
  rewrite decode_steps. cbn [audioChunks totalLength app].
  destruct (decoded_chunks atob captures) as [|chunk chunks]; [reflexivity|].
  cbn [is_nil]. unfold bytelength. rewrite Z.add_0_l, Nat2Z.id.
  apply (merge_chunks_concat (chunk :: chunks) []).
Qed.

Lemma decodeResponse_textual (r : Response) :
  textual r = true -> decodeResponse atob r = decode_text atob (response_text r).
Proof. unfold textual, decodeResponse. cbv zeta. now intros ->. Qed.

Lemma decoded_chunks_app (c1 c2 : list jsstring) :
  decoded_chunks atob (c1 ++ c2) = decoded_chunks atob c1 ++ decoded_chunks atob c2.
Proof. unfold decoded_chunks. now rewrite filter_app, map_app. Qed.

Lemma decoded_chunks_nil (captures : list jsstring) :
  decoded_chunks atob captures = [] <->
  Forall (fun v => usable atob v = false) captures.
Proof.
  unfold decoded_chunks. induction captures as [|v captures IH]; simpl.
  - split; [constructor | reflexivity].
  - destruct (usable atob v) eqn:Hu; simpl.
    + split; [discriminate|]. intros H. inversion H; congruence.
    + rewrite IH. split; [now constructor | intros H; now inversion H].
Qed.

End DecoderProperties.

(** ** Bodies made of data objects *)

Lemma quote_free_app (a b : jsstring) :
  quote_free a -> quote_free b -> quote_free (a ++ b).
Proof. intros Ha Hb. apply Forall_app. now split. Qed.

Lemma quote_free_brace_open : quote_free (lit "{").
Proof. repeat constructor; discriminate. Qed.

Lemma quote_free_brace_close : quote_free (lit "}").
Proof. repeat constructor; discriminate. Qed.

Lemma quote_free_null : quote_free (lit "null").
Proof. repeat constructor; discriminate. Qed.

(** Objects written one after the other, after some text without a quote:
    the matches are their values. *)
Lemma successive_matches_objects (vs : list jsstring) :
  Forall quote_free vs ->
  forall junk : jsstring, quote_free junk ->
    successive_matches (junk ++ concat (map data_object vs)) vs.
Proof.
  induction 1 as [|v vs Hv _ IH]; intros junk Hjunk; cbn [map concat].
  - rewrite app_nil_r. constructor. now apply regex_exec_quote_free.
  - apply matches_next
      with (rest := lit "}" ++ concat (map data_object vs)).
    + assert (E : junk ++ data_object v ++ concat (map data_object vs)
                  = (junk ++ lit "{") ++ data_prefix ++ v ++
                    dquote :: (lit "}" ++ concat (map data_object vs))).
      { unfold data_object at 1. rewrite <- !app_assoc. reflexivity. }
      rewrite E. apply regex_exec_frame; [|exact Hv].
      apply quote_free_app; [exact Hjunk | exact quote_free_brace_open].
    + apply IH. exact quote_free_brace_close.
Qed.

Lemma jsstring_eqb_eq (a b : jsstring) : jsstring_eqb a b = true <-> a = b.
Proof.
  unfold jsstring_eqb. destruct (list_eq_dec N.eq_dec a b); split;
    congruence.
Qed.

Lemma jsstring_eqb_neq (a b : jsstring) : jsstring_eqb a b = false <-> a <> b.
Proof.
  unfold jsstring_eqb. destruct (list_eq_dec N.eq_dec a b); split;
    congruence.
Qed.

Lemma usable_decodes (atob : jsstring -> option jsstring) (v b : jsstring) :
  v <> [] -> v <> lit "null" -> atob v = Some b -> usable atob v = true.
Proof.
  intros Hne Hnull Hb. unfold usable. rewrite Hb.
  apply jsstring_eqb_neq in Hnull. rewrite Hnull.
  destruct v; [congruence | reflexivity].
Qed.

Lemma usable_skipped (atob : jsstring -> option jsstring) (v : jsstring) :
  v = [] \/ v = lit "null" \/ atob v = None <-> usable atob v = false.
Proof.
  unfold usable. split.
  - intros [->|[->|Hb]]; [reflexivity | reflexivity |].
    rewrite Hb. now rewrite andb_false_r.
  - destruct v as [|c v]; [now left|]. right.
    destruct (jsstring_eqb (c :: v) (lit "null")) eqn:Hn.
    + left. now apply jsstring_eqb_eq.
    + right. destruct (atob (c :: v)); [discriminate | reflexivity].
Qed.

(** C3. A response whose lower-cased content type contains application/json
    or text is decoded from its text: the values captured by the successive
    matches of the data pattern (leftmost first, each search resuming after
    the previous match; [regex_exec_sound] and [regex_exec_none] relate them
    to the occurrences of the pattern) are taken in order, those that are
    non-empty, not the word null and decodable are base64-decoded, and the
    result is the concatenation of these chunks in match order (an error
    when there is none).  The scan does not depend on the JSON structure
    around the fields: in a body where text without a quote surrounds the
    fields, the matches are exactly the field values; and two data objects
    written one after the other without a separator decode to the first
    decoded sequence followed by the second. *)
Theorem decode_textual_response (atob : jsstring -> option jsstring)
    (r : Response) :
  textual r = true ->
  (exists captures : list jsstring,
     successive_matches (response_text r) captures /\
     decodeResponse atob r =
       match decoded_chunks atob captures with
       | [] => Throws NoAudioData
       | chunk :: chunks => Returns (concat (chunk :: chunks))
       end) /\
  (forall (frames : list (jsstring * jsstring)) (post : jsstring),
     Forall (fun f => quote_free (fst f) /\ quote_free (snd f)) frames ->
     quote_free post ->
     response_text r = framed frames post ->
     decodeResponse atob r =
       match decoded_chunks atob (map snd frames) with
       | [] => Throws NoAudioData
       | chunk :: chunks => Returns (concat (chunk :: chunks))
       end) /\
  (forall v1 v2 b1 b2 : jsstring,
     quote_free v1 -> quote_free v2 ->
     v1 <> [] -> v2 <> [] -> v1 <> lit "null" -> v2 <> lit "null" ->
     atob v1 = Some b1 -> atob v2 = Some b2 ->
     response_text r = data_object v1 ++ data_object v2 ->
     decodeResponse atob r = Returns (map to_uint8 b1 ++ map to_uint8 b2)).
Proof.
  intros Ht. rewrite (decodeResponse_textual atob r Ht). split; [|split].
  - destruct (successive_matches_total (response_text r)) as (captures & Hm).
    exists captures. split; [exact Hm|]. now apply decode_text_matches.
  - intros frames post Hf Hpost Heq. apply decode_text_matches.
    rewrite Heq. now apply successive_matches_framed.
  - intros v1 v2 b1 b2 Hq1 Hq2 Hn1 Hn2 Hu1 Hu2 Hb1 Hb2 Heq.
    rewrite (decode_text_matches atob (response_text r) [v1; v2]).
    + unfold decoded_chunks. cbn [filter].
      rewrite (usable_decodes atob v1 b1), (usable_decodes atob v2 b2)
        by assumption.
      cbn [map concat]. unfold chunk_of. rewrite Hb1, Hb2.
      now rewrite app_nil_r.
    + rewrite Heq.
      replace (data_object v1 ++ data_object v2)
        with ([] ++ concat (map data_object [v1; v2]))
        by (cbn [map concat app]; now rewrite app_nil_r).
      apply successive_matches_objects; [|constructor].
      repeat constructor; assumption.
Qed.

Lemma decode_textual_response_witness :
  textual two_chunks_response = true /\
  decodeResponse atob_forgiving two_chunks_response
  = Returns (map to_uint8 (lit "ABC") ++ map to_uint8 (lit "A")).
Proof.
  split; [reflexivity|].
  destruct (decode_textual_response atob_forgiving two_chunks_response)
    as (_ & _ & Htwo); [reflexivity|].
  apply (Htwo (lit "QUJD") (lit "QQ==") (lit "ABC") (lit "A"));
    try reflexivity; try discriminate; repeat constructor; discriminate.
Defined.

(** C4. In the text branch a captured value that is empty, the word null, or
    not decodable is skipped and the decoding goes on: the result is the one
    the other values give.  The decoding fails with the no-audio error
    exactly when no captured value yields a chunk; in particular when the
    body is made only of data objects whose value is null or empty. *)
Theorem decode_skips_unusable (atob : jsstring -> option jsstring)
    (r : Response) (captures : list jsstring) :
  textual r = true ->
  successive_matches (response_text r) captures ->
  (forall (st : decode_state) (v : jsstring),
     v = [] \/ v = lit "null" \/ atob v = None -> decode_step atob st v = st) /\
  (forall (c1 c2 : list jsstring) (v : jsstring),
     captures = c1 ++ v :: c2 ->
     v = [] \/ v = lit "null" \/ atob v = None ->
     decodeResponse atob r =
       match decoded_chunks atob (c1 ++ c2) with
       | [] => Throws NoAudioData
       | chunk :: chunks => Returns (concat (chunk :: chunks))
       end) /\
  (decodeResponse atob r = Throws NoAudioData <->
   Forall (fun v => usable atob v = false) captures) /\
  (forall vs : list jsstring,
     Forall (fun v => v = lit "null" \/ v = []) vs ->
     response_text r = concat (map data_object vs) ->
     decodeResponse atob r = Throws NoAudioData).
Proof.
  intros Ht Hm. rewrite (decodeResponse_textual atob r Ht).
  rewrite (decode_text_matches atob _ captures Hm).
  split; [|split; [|split]].
  - intros st v Hv. rewrite decode_step_usable.
    apply usable_skipped in Hv. now rewrite Hv.
  - intros c1 c2 v -> Hv. apply usable_skipped in Hv.
    rewrite !decoded_chunks_app. unfold decoded_chunks at 2.
    cbn [filter]. rewrite Hv. reflexivity.
  - rewrite <- decoded_chunks_nil.
    destruct (decoded_chunks atob captures); split; congruence.
  - intros vs Hvs Heq.
    assert (Hobj : successive_matches (response_text r) vs).
    { rewrite Heq. apply (successive_matches_objects vs) with (junk := []);
        [|constructor].
      eapply Forall_impl; [|exact Hvs].
      intros v [->| ->]; [exact quote_free_null | constructor]. }
    rewrite (successive_matches_unique _ _ _ Hm Hobj).
    assert (Hnil : decoded_chunks atob vs = []).
    { apply decoded_chunks_nil. eapply Forall_impl; [|exact Hvs].
      intros v [Hv|Hv]; apply usable_skipped; [right; left | left]; exact Hv. }
    now rewrite Hnil.
Qed.

Lemma decode_skips_unusable_witness :
  textual null_only_response = true /\
  successive_matches (response_text null_only_response)
    [lit "null"; lit ""; lit "null"] /\
  decodeResponse atob_forgiving null_only_response = Throws NoAudioData.
Proof.
  assert (Hm : successive_matches (response_text null_only_response)
                 [lit "null"; lit ""; lit "null"]).
  { apply (successive_matches_objects [lit "null"; lit ""; lit "null"])
      with (junk := []); repeat constructor; discriminate. }
  split; [reflexivity|]. split; [exact Hm|].
  destruct (decode_skips_unusable atob_forgiving null_only_response
              [lit "null"; lit ""; lit "null"] eq_refl Hm)
    as (_ & _ & _ & Hnull).
  apply (Hnull [lit "null"; lit ""; lit "null"]); [|reflexivity].
  repeat constructor; tauto.
Defined.

Example decode_skips_bad_chunk :
  decode_text atob_forgiving
    (concat (map data_object [lit "null"; lit "!!"; lit "QQ=="; lit ""]))
  = Returns (map to_uint8 (lit "A")).
Proof. reflexivity. Qed.

(** ** The synthesis client and the orchestrator *)

Section PipelineProperties.

Variable net : Type.
Variable fetch : fetch_call -> net -> (jsstring + Response) * net.
Variable atob : jsstring -> option jsstring.
Variable StringToNumber : jsstring -> jsnum.
Variable JSON_stringify : req_params -> jsstring.

Local Abbreviation build_request := (build_request StringToNumber).
Local Abbreviation fetch_arguments := (fetch_arguments JSON_stringify).
Local Abbreviation synthesizeSegment :=
  (synthesizeSegment net fetch atob StringToNumber JSON_stringify).
Local Abbreviation synthesizeSegmentLocal :=
  (synthesizeSegmentLocal net fetch atob StringToNumber JSON_stringify).
Local Abbreviation synthesizeAll_loop :=
  (synthesizeAll_loop net fetch atob StringToNumber JSON_stringify).
Local Abbreviation synthesizeAll := (synthesizeAll net fetch atob StringToNumber JSON_stringify).
Local Abbreviation onMessage_loop := (onMessage_loop net fetch atob StringToNumber JSON_stringify).
Local Abbreviation onMessage := (onMessage net fetch atob StringToNumber JSON_stringify).
Local Abbreviation effective_maxLength := (effective_maxLength StringToNumber).
Local Abbreviation call_result := (call_result net fetch atob StringToNumber JSON_stringify).
Local Abbreviation synthesized := (synthesized net fetch atob StringToNumber JSON_stringify).
Local Abbreviation requests_for := (requests_for StringToNumber).
Local Abbreviation carries_settings := (carries_settings StringToNumber).

Lemma synthesizeSegmentLocal_eq : synthesizeSegmentLocal = synthesizeSegment.
Proof. reflexivity. Qed.

(** A call hands exactly one request to [fetch] and touches nothing but the
    remote service. *)
Lemma synthesizeSegment_run (segment : jsstring)
    (settings : SynthesisSettings) (w : world net) :
  synthesizeSegment segment settings w =
    (fst (call_result settings segment (network w)),
     {| storage := storage w;
        network := snd (call_result settings segment (network w));
        calls := calls w ++ [build_request segment settings];
        progress := progress w |}).
Proof.
  unfold call_result, synthesizeSegment, bind, await_fetch.
  cbn [network calls progress storage].
  destruct (fetch (fetch_arguments (build_request segment settings)) (network w))
    as [[reason|resp] n']; cbn; [reflexivity|].
  destruct (ok resp); cbn; [|reflexivity].
  unfold lift. reflexivity.
Qed.

Lemma decodeResponse_not_NotConfigured (r : Response) :
  decodeResponse atob r <> Throws NotConfigured.
Proof.
  unfold decodeResponse. cbv zeta.
  destruct (includes _ _ || includes _ _); [|discriminate].
  destruct (successive_matches_total (response_text r)) as (captures & Hm).
  rewrite (decode_text_matches atob _ captures Hm).
  destruct (decoded_chunks atob captures); discriminate.
Qed.

Lemma decodeResponse_returns_or_throws (r : Response) :
  decodeResponse atob r <> OutOfFuel.
Proof.
  unfold decodeResponse. cbv zeta.
  destruct (includes _ _ || includes _ _); [|discriminate].
  destruct (successive_matches_total (response_text r)) as (captures & Hm).
  rewrite (decode_text_matches atob _ captures Hm).
  destruct (decoded_chunks atob captures); discriminate.
Qed.

(** A synthesis call never raises the configuration error and always
    comes back. *)
Lemma call_result_outcome (settings : SynthesisSettings) (segment : jsstring)
    (n : net) :
  fst (call_result settings segment n) <> Throws NotConfigured /\
  fst (call_result settings segment n) <> OutOfFuel.
Proof.
  unfold call_result, synthesizeSegment, bind, await_fetch.
  cbn [network calls progress storage].
  destruct (fetch (fetch_arguments (build_request segment settings)) n)
    as [[reason|resp] n']; cbn; [split; discriminate|].
  destruct (ok resp); cbn; [|split; discriminate].
  split; [apply decodeResponse_not_NotConfigured
         | apply decodeResponse_returns_or_throws].
Qed.

(** One turn of the popup's loop: a progress line, one request, and the
    loop goes on only if the call returned a buffer. *)
Lemma synthesizeAll_loop_step (segment : jsstring) (todo : list jsstring)
    (i total : Z) (settings : SynthesisSettings) (buffers : list ArrayBuffer)
    (w : world net) :
  synthesizeAll_loop (segment :: todo) i total settings buffers w =
    let w1 := {| storage := storage w;
                 network := snd (call_result settings segment (network w));
                 calls := calls w ++ [build_request segment settings];
                 progress := progress w ++ [(i + 1, total)] |} in
    match fst (call_result settings segment (network w)) with
    | Returns buffer =>
        synthesizeAll_loop todo (i + 1) total settings (buffers ++ [buffer]) w1
    | Throws e => (Throws e, w1)
    | OutOfFuel => (OutOfFuel, w1)
    end.
Proof.
  unfold synthesizeAll_loop; fold synthesizeAll_loop. unfold bind at 1. unfold show_progress.
  unfold bind at 1.
  change (synthesizeSegmentLocal segment settings)
    with (synthesizeSegment segment settings).
  rewrite synthesizeSegment_run. cbn [network calls progress storage fst snd].
  destruct (fst (call_result settings segment (network w))); reflexivity.
Qed.

(** One turn of the service worker's loop. *)
Lemma onMessage_loop_step (segment : jsstring) (todo : list jsstring)
    (settings : SynthesisSettings) (buffers : list ArrayBuffer)
    (w : world net) :
  onMessage_loop (segment :: todo) settings buffers w =
    let w1 := {| storage := storage w;
                 network := snd (call_result settings segment (network w));
                 calls := calls w ++ [build_request segment settings];
                 progress := progress w |} in
    match fst (call_result settings segment (network w)) with
    | Returns buffer => onMessage_loop todo settings (buffers ++ [buffer]) w1
    | Throws e => (Throws e, w1)
    | OutOfFuel => (OutOfFuel, w1)
    end.
Proof.
  unfold onMessage_loop; fold onMessage_loop. unfold bind at 1.
  rewrite synthesizeSegment_run. cbn [network calls progress storage fst snd].
  destruct (fst (call_result settings segment (network w))); reflexivity.
Qed.

(** While the calls succeed the popup's loop walks down the segments, one
    request per segment, in order. *)
Lemma synthesizeAll_loop_prefix (settings : SynthesisSettings)
    (done : list jsstring) (n n1 : net) (bs : list ArrayBuffer) :
  synthesized settings done n bs n1 ->
  forall (rest : list jsstring) (i total : Z) (buffers : list ArrayBuffer)
         (w : world net),
    network w = n ->
    exists w1 : world net,
      synthesizeAll_loop (done ++ rest) i total settings buffers w
      = synthesizeAll_loop rest (i + Z.of_nat (length done)) total settings
          (buffers ++ bs) w1
      /\ network w1 = n1
      /\ storage w1 = storage w
      /\ calls w1 = calls w ++ requests_for settings done.
Proof.
  induction 1 as [n|segment todo n n1 n2 buffer bs Hcall _ IH];
    intros rest i total buffers w Hn.
  - exists w. cbn [app length requests_for map]. rewrite Z.add_0_r, !app_nil_r.
    auto.
  - cbn [app]. rewrite synthesizeAll_loop_step. cbv zeta.
    rewrite Hn, Hcall. cbn [fst snd].
    match goal with
    | |- context [synthesizeAll_loop (todo ++ rest) _ _ _ _ ?w2] =>
        destruct (IH rest (i + 1) total (buffers ++ [buffer]) w2 eq_refl)
          as (w1 & Heq & Hnet & Hsto & Hcalls)
    end.
    exists w1. rewrite Heq. cbn [storage calls] in Hsto, Hcalls.
    split; [|split; [exact Hnet | split; [exact Hsto|]]].
    + f_equal; [cbn [length]; lia | now rewrite <- app_assoc].
    + rewrite Hcalls, <- app_assoc. reflexivity.
Qed.

Lemma onMessage_loop_prefix (settings : SynthesisSettings)
    (done : list jsstring) (n n1 : net) (bs : list ArrayBuffer) :
  synthesized settings done n bs n1 ->
  forall (rest : list jsstring) (buffers : list ArrayBuffer) (w : world net),
    network w = n ->
    exists w1 : world net,
      onMessage_loop (done ++ rest) settings buffers w
      = onMessage_loop rest settings (buffers ++ bs) w1
      /\ network w1 = n1
      /\ storage w1 = storage w
      /\ calls w1 = calls w ++ requests_for settings done.
Proof.
  induction 1 as [n|segment todo n n1 n2 buffer bs Hcall _ IH];
    intros rest buffers w Hn.
  - exists w. cbn [app length requests_for map]. rewrite !app_nil_r. auto.
  - cbn [app]. rewrite onMessage_loop_step. cbv zeta.
    rewrite Hn, Hcall. cbn [fst snd].
    match goal with
    | |- context [onMessage_loop (todo ++ rest) _ _ ?w2] =>
        destruct (IH rest (buffers ++ [buffer]) w2 eq_refl)
          as (w1 & Heq & Hnet & Hsto & Hcalls)
    end.
    exists w1. rewrite Heq. cbn [storage calls] in Hsto, Hcalls.
    split; [|split; [exact Hnet | split; [exact Hsto|]]].
    + f_equal. now rewrite <- app_assoc.
    + rewrite Hcalls, <- app_assoc. reflexivity.
Qed.

(** Whatever happens, the requests of the popup's loop are those of a
    prefix of the segments, and the loop does not raise the configuration
    error. *)
Lemma synthesizeAll_loop_calls (settings : SynthesisSettings)
    (todo : list jsstring) :
  forall (i total : Z) (buffers : list ArrayBuffer) (w : world net),
    exists k : nat,
      calls (snd (synthesizeAll_loop todo i total settings buffers w))
      = calls w ++ requests_for settings (firstn k todo)
      /\ fst (synthesizeAll_loop todo i total settings buffers w)
         <> Throws NotConfigured
      /\ (todo <> [] -> k <> 0%nat).
Proof.
  induction todo as [|segment todo IH]; intros i total buffers w.
  - exists 0%nat. cbn. rewrite app_nil_r. repeat split; [discriminate | congruence].
  - rewrite synthesizeAll_loop_step. cbv zeta.
    destruct (call_result_outcome settings segment (network w)) as (Hnc & _).
    destruct (fst (call_result settings segment (network w))) as [buffer|e|].
    + match goal with
      | |- context [synthesizeAll_loop todo _ _ _ _ ?w2] =>
          destruct (IH (i + 1) total (buffers ++ [buffer]) w2)
            as (k & Hcalls & Hout & _)
      end.
      exists (S k). cbn [calls] in Hcalls. rewrite Hcalls, <- app_assoc.
      repeat split; [exact Hout | discriminate].
    + exists 1%nat. cbn. repeat split; [congruence | discriminate].
    + exists 1%nat. cbn. repeat split; discriminate.
Qed.

Lemma onMessage_loop_calls (settings : SynthesisSettings)
    (todo : list jsstring) :
  forall (buffers : list ArrayBuffer) (w : world net),
    exists k : nat,
      calls (snd (onMessage_loop todo settings buffers w))
      = calls w ++ requests_for settings (firstn k todo)
      /\ fst (onMessage_loop todo settings buffers w) <> Throws NotConfigured
      /\ (todo <> [] -> k <> 0%nat).
Proof.
  induction todo as [|segment todo IH]; intros buffers w.
  - exists 0%nat. cbn. rewrite app_nil_r. repeat split; [discriminate | congruence].
  - rewrite onMessage_loop_step. cbv zeta.
    destruct (call_result_outcome settings segment (network w)) as (Hnc & _).
    destruct (fst (call_result settings segment (network w))) as [buffer|e|].
    + match goal with
      | |- context [onMessage_loop todo _ _ ?w2] =>
          destruct (IH (buffers ++ [buffer]) w2) as (k & Hcalls & Hout & _)
      end.
      exists (S k). cbn [calls] in Hcalls. rewrite Hcalls, <- app_assoc.
      repeat split; [exact Hout | discriminate].
    + exists 1%nat. cbn. repeat split; [congruence | discriminate].
    + exists 1%nat. cbn. repeat split; discriminate.
Qed.

(** The orchestrators once the settings have passed the check. *)
Lemma synthesizeAll_configured (fuel : nat) (text : jsstring) (w : world net) :
  not_configured (getSettingsFromStorage (storage w)) = false ->
  synthesizeAll fuel text w =
    let settings := getSettingsFromStorage (storage w) in
    match splitTextPlain fuel text (effective_maxLength settings) with
    | Returns segments =>
        match synthesizeAll_loop segments 0 (Z.of_nat (length segments))
                settings [] w with
        | (Returns buffers, w') => (Returns (buffers, format settings), w')
        | (Throws e, w') => (Throws e, w')
        | (OutOfFuel, w') => (OutOfFuel, w')
        end
    | Throws e => (Throws e, w)
    | OutOfFuel => (OutOfFuel, w)
    end.
Proof.
  intros Hc. unfold synthesizeAll, bind at 1, read_storage. rewrite Hc.
  unfold bind at 1, lift. cbv zeta.
  destruct (splitTextPlain fuel text _); [|reflexivity|reflexivity].
  unfold bind. now destruct (synthesizeAll_loop _ _ _ _ _ w) as [[?|?|] ?].
Qed.

Lemma onMessage_configured (fuel : nat) (m : message) (w : world net) :
  msg_type m = lit "synthesize" ->
  not_configured (getSettings (storage w)) = false ->
  onMessage fuel (Some m) w =
    let settings := getSettings (storage w) in
    match splitText fuel (with_default [] (msg_text m))
            (effective_maxLength settings) with
    | Returns segments =>
        match onMessage_loop segments settings [] w with
        | (Returns buffers, w') =>
            (Returns (Some (Reply_buffers buffers (format settings))), w')
        | (Throws e, w') => (Returns (Some (Reply_error e)), w')
        | (OutOfFuel, w') => (OutOfFuel, w')
        end
    | Throws e => (Returns (Some (Reply_error e)), w)
    | OutOfFuel => (OutOfFuel, w)
    end.
Proof.
  intros Ht Hc. unfold onMessage. rewrite Ht. cbn [negb].
  change (jsstring_eqb (lit "synthesize") (lit "synthesize")) with true.
  cbn [negb]. unfold try_catch, bind at 1, read_storage. rewrite Hc.
  unfold bind at 1, lift. cbv zeta.
  destruct (splitText fuel _ _); [|reflexivity|reflexivity].
  unfold bind. now destruct (onMessage_loop _ _ _ w) as [[?|?|] ?].
Qed.

Lemma not_configured_false (settings : SynthesisSettings) :
  apiKey settings <> [] -> resourceId settings <> [] -> speaker settings <> [] ->
  not_configured settings = false.
Proof.
  unfold not_configured. intros Ha Hr Hs.
  destruct (apiKey settings); [congruence|].
  destruct (resourceId settings); [congruence|].
  destruct (speaker settings); [congruence | reflexivity].
Qed.

Lemma not_configured_true (settings : SynthesisSettings) :
  apiKey settings = [] \/ resourceId settings = [] \/ speaker settings = [] ->
  not_configured settings = true.
Proof.
  unfold not_configured. intros [->|[->| ->]]; cbn;
    rewrite ?orb_true_r; reflexivity.
Qed.


(** C5. A response whose lower-cased content type contains neither
    application/json nor text is decoded to its raw body, unchanged; so a
    synthesis call answered by such a successful response returns the body
    bytes. *)
Theorem decode_binary_response (r : Response) :
  textual r = false ->
  decodeResponse atob r = Returns (response_arrayBuffer r) /\
  (forall (settings : SynthesisSettings) (segment : jsstring) (n n' : net),
     fetch (fetch_arguments (build_request segment settings)) n = (inr r, n') ->
     ok r = true ->
     call_result settings segment n = (Returns (response_arrayBuffer r), n')) /\
  (forall (settings : SynthesisSettings) (segment : jsstring) (w : world net) (n' : net),
     fetch (fetch_arguments (build_request segment settings)) (network w) = (inr r, n') ->
     ok r = true ->
     fst (synthesizeSegment segment settings w) = Returns (response_arrayBuffer r) /\
     fst (synthesizeSegmentLocal segment settings w) = Returns (response_arrayBuffer r)).
Proof.
  intros Ht.
  assert (Hd : decodeResponse atob r = Returns (response_arrayBuffer r)).
  { unfold textual in Ht. unfold decodeResponse. cbv zeta. now rewrite Ht. }
  assert (Hc : forall settings segment n n',
             fetch (fetch_arguments (build_request segment settings)) n = (inr r, n') ->
             ok r = true ->
             call_result settings segment n = (Returns (response_arrayBuffer r), n')).
  { intros settings segment n n' Hf Hok.
    unfold call_result, synthesizeSegment, bind, await_fetch.
    cbn [network calls progress storage]. rewrite Hf. cbn.
    rewrite Hok. cbn. unfold lift. cbn. now rewrite Hd. }
  split; [exact Hd|]. split; [exact Hc|].
  intros settings segment w n' Hf Hok.
  change (synthesizeSegmentLocal segment settings w)
    with (synthesizeSegment segment settings w).
  rewrite synthesizeSegment_run. cbn [fst].
  now rewrite (Hc settings segment (network w) n' Hf Hok).
Qed.

(** C6. When the stored settings have an empty API key, resource id or
    speaker, the popup's [synthesizeAll] throws the configuration error and
    leaves the world as it was: no request has been handed to [fetch].  The
    listener of the service worker answers a synthesis message with the same
    error, again without any request. *)
Theorem synthesizeAll_requires_configuration (fuel : nat) (text : jsstring)
    (w : world net) :
  apiKey (getSettingsFromStorage (storage w)) = [] \/
  resourceId (getSettingsFromStorage (storage w)) = [] \/
  speaker (getSettingsFromStorage (storage w)) = [] ->
  synthesizeAll fuel text w = (Throws NotConfigured, w) /\
  calls (snd (synthesizeAll fuel text w)) = calls w /\
  (forall m : message,
     msg_type m = lit "synthesize" ->
     onMessage fuel (Some m) w = (Returns (Some (Reply_error NotConfigured)), w)).
Proof.
  intros H. apply not_configured_true in H.
  assert (Hrun : synthesizeAll fuel text w = (Throws NotConfigured, w)).
  { unfold synthesizeAll, bind, read_storage. now rewrite H. }
  split; [exact Hrun|]. split; [now rewrite Hrun|].
  intros m Hm. unfold onMessage. rewrite Hm.
  change (jsstring_eqb (lit "synthesize") (lit "synthesize")) with true.
  cbn [negb]. unfold try_catch, bind, read_storage.
  change (getSettings (storage w)) with (getSettingsFromStorage (storage w)).
  now rewrite H.
Qed.

(** When every call succeeds the popup returns the buffers in segment
    order, after one request per segment, in segment order. *)
Lemma synthesizeAll_all_succeed (fuel : nat) (text : jsstring) (w : world net)
    (segments : list jsstring) (buffers : list ArrayBuffer) (n1 : net) :
  not_configured (getSettingsFromStorage (storage w)) = false ->
  splitTextPlain fuel text
    (effective_maxLength (getSettingsFromStorage (storage w)))
  = Returns segments ->
  synthesized (getSettingsFromStorage (storage w)) segments (network w)
    buffers n1 ->
  exists w' : world net,
    synthesizeAll fuel text w
    = (Returns (buffers, format (getSettingsFromStorage (storage w))), w')
    /\ calls w' = calls w
                  ++ requests_for (getSettingsFromStorage (storage w)) segments
    /\ network w' = n1.
Proof.
  intros Hc Hsplit Hok. rewrite (synthesizeAll_configured fuel text w Hc).
  cbv zeta. rewrite Hsplit.
  destruct (synthesizeAll_loop_prefix _ _ _ _ _ Hok [] 0
              (Z.of_nat (length segments)) [] w eq_refl)
    as (w1 & Heq & Hnet & _ & Hcalls).
  rewrite app_nil_r in Heq. rewrite Heq. cbn. exists w1. auto.
Qed.

(** C7. The segments are synthesized one at a time, in order, and the first
    failure ends the run.  If the text splits into [done], then [failing],
    then [later], the calls for [done] succeed one after the other and the
    call for [failing] throws, then [synthesizeAll] throws that error and
    returns no buffer, and the requests made are those of [done] and of
    [failing], in order, and no other: none of [later] is requested.  (With
    [done] and [later] of one segment each: three segments, the second call
    fails, two calls.)  The listener of the service worker makes the same
    requests and answers with the error instead of a list of buffers. *)
Theorem synthesizeAll_aborts_on_first_failure (fuel : nat) (text : jsstring)
    (w : world net) (done : list jsstring) (failing : jsstring)
    (later : list jsstring) (buffers : list ArrayBuffer) (n1 n2 : net)
    (e : error) :
  not_configured (getSettingsFromStorage (storage w)) = false ->
  splitTextPlain fuel text
    (effective_maxLength (getSettingsFromStorage (storage w)))
  = Returns (done ++ failing :: later) ->
  synthesized (getSettingsFromStorage (storage w)) done (network w) buffers n1 ->
  call_result (getSettingsFromStorage (storage w)) failing n1 = (Throws e, n2) ->
  (exists w' : world net,
     synthesizeAll fuel text w = (Throws e, w') /\
     calls w' = calls w
                ++ requests_for (getSettingsFromStorage (storage w))
                     (done ++ [failing]) /\
     length (calls w') = (length (calls w) + length done + 1)%nat /\
     network w' = n2) /\
  (forall m : message,
     msg_type m = lit "synthesize" ->
     with_default [] (msg_text m) = text ->
     exists w' : world net,
       onMessage fuel (Some m) w = (Returns (Some (Reply_error e)), w') /\
       calls w' = calls w
                  ++ requests_for (getSettingsFromStorage (storage w))
                       (done ++ [failing]) /\
       network w' = n2).
Proof.
  intros Hc Hsplit Hok Hfail. split.
  - rewrite (synthesizeAll_configured fuel text w Hc). cbv zeta.
    rewrite Hsplit.
    destruct (synthesizeAll_loop_prefix _ _ _ _ _ Hok (failing :: later) 0
                (Z.of_nat (length (done ++ failing :: later))) [] w eq_refl)
      as (w1 & Heq & Hnet & _ & Hcalls).
    rewrite Heq, synthesizeAll_loop_step. cbv zeta.
    rewrite Hnet, Hfail. cbn [fst snd].
    eexists. split; [reflexivity|]. cbn [calls network].
    unfold requests_for in *. rewrite Hcalls, map_app, <- app_assoc.
    repeat split. rewrite !length_app, length_map. cbn [map length]. lia.
  - intros m Hm Htext.
    rewrite (onMessage_configured fuel m w Hm Hc). cbv zeta.
    rewrite Htext, <- splitTextPlain_eq.
    change (getSettings (storage w)) with (getSettingsFromStorage (storage w)).
    rewrite Hsplit.
    destruct (onMessage_loop_prefix _ _ _ _ _ Hok (failing :: later) [] w
                eq_refl) as (w1 & Heq & Hnet & _ & Hcalls).
    rewrite Heq, onMessage_loop_step. cbv zeta.
    rewrite Hnet, Hfail. cbn [fst snd].
    eexists. split; [reflexivity|]. cbn [calls network].
    unfold requests_for in *. rewrite Hcalls, map_app, <- app_assoc.
    now split.
Qed.

Lemma splitText_nonempty (fuel : nat) (text : jsstring) (L : Z) :
  text <> [] -> 0 < L -> (length text < fuel)%nat ->
  exists segment segments,
    splitTextPlain fuel text L = Returns (segment :: segments).
Proof.
  intros Hne HL Hfuel.
  destruct (splitText_returns text L HL) as (segments & Hrun & Hcat & _).
  pose proof (Hrun fuel Hfuel) as Hplain. rewrite <- splitTextPlain_eq in Hplain.
  destruct segments as [|segment segments]; [simpl in Hcat; congruence|].
  now exists segment, segments.
Qed.

(** The requests of a run of the popup on configured settings. *)
Lemma synthesizeAll_issued (fuel : nat) (text : jsstring) (w : world net) :
  not_configured (getSettingsFromStorage (storage w)) = false ->
  exists issued : list request,
    calls (snd (synthesizeAll fuel text w)) = calls w ++ issued /\
    Forall (carries_settings (getSettingsFromStorage (storage w))) issued /\
    (text <> [] ->
     0 < effective_maxLength (getSettingsFromStorage (storage w)) ->
     (length text < fuel)%nat ->
     issued <> []).
Proof.
  intros Hc. rewrite (synthesizeAll_configured fuel text w Hc). cbv zeta.
  destruct (splitTextPlain fuel text _) as [segments|e|] eqn:Hsplit.
  - destruct (synthesizeAll_loop_calls (getSettingsFromStorage (storage w))
                segments 0 (Z.of_nat (length segments)) [] w)
      as (k & Hcalls & _ & Hk).
    exists (requests_for (getSettingsFromStorage (storage w))
              (firstn k segments)).
    split; [|split].
    + destruct (synthesizeAll_loop _ _ _ _ _ w) as [[?|?|] ?];
        exact Hcalls.
    + unfold requests_for. apply Forall_map, Forall_forall.
      intros segment _. unfold carries_settings. now cbn.
    + intros Hne HL Hfuel.
      destruct (splitText_nonempty fuel text _ Hne HL Hfuel)
        as (segment & rest & Hsome).
      rewrite Hsome in Hsplit. injection Hsplit as <-.
      destruct k as [|k]; [now destruct Hk|]. discriminate.
  - exists []. rewrite app_nil_r. split; [reflexivity|]. split; [constructor|].
    intros Hne HL Hfuel.
    destruct (splitText_nonempty fuel text _ Hne HL Hfuel)
      as (segment & rest & Hsome). congruence.
  - exists []. rewrite app_nil_r. split; [reflexivity|]. split; [constructor|].
    intros Hne HL Hfuel.
    destruct (splitText_nonempty fuel text _ Hne HL Hfuel)
      as (segment & rest & Hsome). congruence.
Qed.

(** The requests of the service worker's answer to a synthesis message, on
    configured settings. *)
Lemma onMessage_issued (fuel : nat) (m : message) (w : world net) :
  msg_type m = lit "synthesize" ->
  not_configured (getSettingsFromStorage (storage w)) = false ->
  exists issued : list request,
    calls (snd (onMessage fuel (Some m) w)) = calls w ++ issued /\
    Forall (carries_settings (getSettingsFromStorage (storage w))) issued /\
    (with_default [] (msg_text m) <> [] ->
     0 < effective_maxLength (getSettingsFromStorage (storage w)) ->
     (length (with_default [] (msg_text m)) < fuel)%nat ->
     issued <> []).
Proof.
  intros Hm Hc. rewrite (onMessage_configured fuel m w Hm Hc). cbv zeta.
  change (getSettings (storage w)) with (getSettingsFromStorage (storage w)).
  rewrite <- splitTextPlain_eq.
  destruct (splitTextPlain fuel (with_default [] (msg_text m)) _)
    as [segments|e|] eqn:Hsplit.
  - destruct (onMessage_loop_calls (getSettingsFromStorage (storage w))
                segments [] w) as (k & Hcalls & _ & Hk).
    exists (requests_for (getSettingsFromStorage (storage w))
              (firstn k segments)).
    split; [|split].
    + destruct (onMessage_loop _ _ _ w) as [[?|?|] ?]; exact Hcalls.
    + unfold requests_for. apply Forall_map, Forall_forall.
      intros segment _. unfold carries_settings. now cbn.
    + intros Hne HL Hfuel.
      destruct (splitText_nonempty fuel _ _ Hne HL Hfuel)
        as (segment & rest & Hsome).
      rewrite Hsome in Hsplit. injection Hsplit as <-.
      destruct k as [|k]; [now destruct Hk|]. discriminate.
  - exists []. rewrite app_nil_r. split; [reflexivity|]. split; [constructor|].
    intros Hne HL Hfuel.
    destruct (splitText_nonempty fuel _ _ Hne HL Hfuel)
      as (segment & rest & Hsome). congruence.
  - exists []. rewrite app_nil_r. split; [reflexivity|]. split; [constructor|].
    intros Hne HL Hfuel.
    destruct (splitText_nonempty fuel _ _ Hne HL Hfuel)
      as (segment & rest & Hsome). congruence.
Qed.

(** On configured settings neither orchestrator raises the configuration
    error. *)
Lemma synthesizeAll_passes_check (fuel : nat) (text : jsstring) (w : world net) :
  not_configured (getSettingsFromStorage (storage w)) = false ->
  fst (synthesizeAll fuel text w) <> Throws NotConfigured.
Proof.
  intros Hc. rewrite (synthesizeAll_configured fuel text w Hc). cbv zeta.
  assert (Hsplit := splitText_loop_throws_nothing text
                (effective_maxLength (getSettingsFromStorage (storage w)))
                fuel 0 [] NotConfigured ltac:(discriminate)).
  change (splitTextPlain fuel text
            (effective_maxLength (getSettingsFromStorage (storage w)))
          <> Throws NotConfigured) in Hsplit.
  destruct (splitTextPlain fuel text _) as [segments|e|]; cbn;
    [|congruence|discriminate].
  destruct (synthesizeAll_loop_calls (getSettingsFromStorage (storage w))
              segments 0 (Z.of_nat (length segments)) [] w)
    as (k & _ & Hout & _).
  destruct (synthesizeAll_loop _ _ _ _ _ w) as [[?|?|] ?]; cbn in *;
    congruence.
Qed.

Lemma onMessage_passes_check (fuel : nat) (m : message) (w : world net) :
  not_configured (getSettingsFromStorage (storage w)) = false ->
  fst (onMessage fuel (Some m) w) <> Returns (Some (Reply_error NotConfigured)).
Proof.
  intros Hc.
  destruct (jsstring_eqb (msg_type m) (lit "synthesize")) eqn:Hm;
    [|unfold onMessage; rewrite Hm; discriminate].
  apply jsstring_eqb_eq in Hm.
  rewrite (onMessage_configured fuel m w Hm Hc). cbv zeta.
  assert (Hsplit := splitText_loop_throws_nothing
                (with_default [] (msg_text m))
                (effective_maxLength (getSettings (storage w)))
                fuel 0 [] NotConfigured ltac:(discriminate)).
  change (splitText fuel (with_default [] (msg_text m))
            (effective_maxLength (getSettings (storage w)))
          <> Throws NotConfigured) in Hsplit.
  destruct (splitText fuel _ _) as [segments|e|]; cbn;
    [|congruence|discriminate].
  destruct (onMessage_loop_calls (getSettings (storage w)) segments [] w)
    as (k & _ & Hout & _).
  destruct (onMessage_loop _ _ _ w) as [[?|?|] ?]; cbn in *; congruence.
Qed.

End PipelineProperties.

(** ** What the remote service is called with *)

Section WatchedService.

Variable net : Type.
Variable fetch : fetch_call -> net -> (jsstring + Response) * net.
Variable atob : jsstring -> option jsstring.
Variable StringToNumber : jsstring -> jsnum.
Variable JSON_stringify : req_params -> jsstring.

Local Abbreviation watched_synthesizeAll :=
  (synthesizeAll (list fetch_call * net) (recorded fetch) atob StringToNumber
     JSON_stringify).
Local Abbreviation watched_onMessage :=
  (onMessage (list fetch_call * net) (recorded fetch) atob StringToNumber
     JSON_stringify).
Local Abbreviation watched_synthesizeSegment :=
  (synthesizeSegment (list fetch_call * net) (recorded fetch) atob
     StringToNumber JSON_stringify).
Local Abbreviation watched_synthesizeAll_loop :=
  (synthesizeAll_loop (list fetch_call * net) (recorded fetch) atob
     StringToNumber JSON_stringify).
Local Abbreviation watched_onMessage_loop :=
  (onMessage_loop (list fetch_call * net) (recorded fetch) atob
     StringToNumber JSON_stringify).
Local Abbreviation watched_await_fetch :=
  (await_fetch (list fetch_call * net) (recorded fetch) JSON_stringify).
Local Abbreviation await_fetch := (await_fetch net fetch JSON_stringify).
Local Abbreviation fetch_arguments := (fetch_arguments JSON_stringify).
Local Abbreviation synthesizeSegment :=
  (synthesizeSegment net fetch atob StringToNumber JSON_stringify).
Local Abbreviation synthesizeAll_loop :=
  (synthesizeAll_loop net fetch atob StringToNumber JSON_stringify).
Local Abbreviation synthesizeAll :=
  (synthesizeAll net fetch atob StringToNumber JSON_stringify).
Local Abbreviation onMessage_loop :=
  (onMessage_loop net fetch atob StringToNumber JSON_stringify).
Local Abbreviation onMessage :=
  (onMessage net fetch atob StringToNumber JSON_stringify).
Local Abbreviation effective_maxLength := (effective_maxLength StringToNumber).
Local Abbreviation carries_settings := (carries_settings StringToNumber).
Local Abbreviation watches := (@watches net _ JSON_stringify).

(** A step that leaves the remote service alone. *)
Lemma watches_local (A : Type) (m : M net A) (m' : M (list fetch_call * net) A) :
  (forall (seen : list fetch_call) (w : world net),
     calls (snd (m w)) = calls w /\
     m' (observed seen w) = (fst (m w), observed seen (snd (m w)))) ->
  watches m m'.
Proof.
  intros H seen w. destruct (H seen w) as (Hcalls & Hrun).
  exists []. cbn [map]. rewrite !app_nil_r. now split.
Qed.

Lemma watches_ret (A : Type) (a : A) : watches (ret a) (ret a).
Proof. apply watches_local. intros seen w. now split. Qed.

Lemma watches_throw (A : Type) (e : error) :
  watches (throw (A := A) e) (throw e).
Proof. apply watches_local. intros seen w. now split. Qed.

Lemma watches_lift (A : Type) (o : outcome A) : watches (lift o) (lift o).
Proof. apply watches_local. intros seen w. now split. Qed.

Lemma watches_read_storage : watches read_storage read_storage.
Proof. apply watches_local. intros seen w. now split. Qed.

Lemma watches_show_progress (i total : Z) :
  watches (show_progress i total) (show_progress i total).
Proof. apply watches_local. intros seen w. now split. Qed.

Lemma watches_bind (A B : Type) (m : M net A) (m' : M (list fetch_call * net) A)
    (k : A -> M net B) (k' : A -> M (list fetch_call * net) B) :
  watches m m' -> (forall a : A, watches (k a) (k' a)) ->
  watches (bind m k) (bind m' k').
Proof.
  intros Hm Hk seen w. destruct (Hm seen w) as (issued & Hcalls & Hrun).
  unfold bind. rewrite Hrun.
  destruct (m w) as [[a|e|] w1]; cbn [fst snd] in *.
  - destruct (Hk a (seen ++ map fetch_arguments issued) w1)
      as (issued' & Hcalls' & Hrun').
    exists (issued ++ issued'). rewrite Hcalls', Hcalls, Hrun'.
    rewrite map_app, !app_assoc. now split.
  - exists issued. now split.
  - exists issued. now split.
Qed.

Lemma watches_try_catch (A : Type) (m : M net A)
    (m' : M (list fetch_call * net) A) (handler : error -> M net A)
    (handler' : error -> M (list fetch_call * net) A) :
  watches m m' -> (forall e : error, watches (handler e) (handler' e)) ->
  watches (try_catch m handler) (try_catch m' handler').
Proof.
  intros Hm Hh seen w. destruct (Hm seen w) as (issued & Hcalls & Hrun).
  unfold try_catch. rewrite Hrun.
  destruct (m w) as [[a|e|] w1]; cbn [fst snd] in *.
  - exists issued. now split.
  - destruct (Hh e (seen ++ map fetch_arguments issued) w1)
      as (issued' & Hcalls' & Hrun').
    exists (issued ++ issued'). rewrite Hcalls', Hcalls, Hrun'.
    rewrite map_app, !app_assoc. now split.
  - exists issued. now split.
Qed.

(** The one place where the service is called: [fetch] gets the arguments
    made from the request, with the body serialized. *)
Lemma watches_await_fetch (req : request) :
  watches (await_fetch req) (watched_await_fetch req).
Proof.
  intros seen w. exists [req].
  unfold await_fetch, recorded, observed.
  cbn [network calls progress storage fst snd map].
  destruct (fetch (fetch_arguments req) (network w)) as [[reason|resp] n'];
    cbn [fst snd calls]; now split.
Qed.

Lemma watches_synthesizeSegment (segment : jsstring)
    (settings : SynthesisSettings) :
  watches (synthesizeSegment segment settings)
    (watched_synthesizeSegment segment settings).
Proof.
  unfold synthesizeSegment.
  apply watches_bind; [apply watches_await_fetch|].
  intros resp. destruct (negb (ok resp));
    [apply watches_throw | apply watches_lift].
Qed.

Lemma watches_synthesizeAll_loop (settings : SynthesisSettings)
    (todo : list jsstring) :
  forall (i total : Z) (buffers : list ArrayBuffer),
    watches (synthesizeAll_loop todo i total settings buffers)
      (watched_synthesizeAll_loop todo i total settings buffers).
Proof.
  induction todo as [|segment todo IH]; intros i total buffers.
  - apply watches_ret.
  - simpl.
    apply watches_bind; [apply watches_show_progress|]. intros _.
    apply watches_bind; [apply watches_synthesizeSegment|]. intros buffer.
    apply IH.
Qed.

Lemma watches_onMessage_loop (settings : SynthesisSettings)
    (todo : list jsstring) :
  forall buffers : list ArrayBuffer,
    watches (onMessage_loop todo settings buffers)
      (watched_onMessage_loop todo settings buffers).
Proof.
  induction todo as [|segment todo IH]; intros buffers.
  - apply watches_ret.
  - simpl.
    apply watches_bind; [apply watches_synthesizeSegment|]. intros buffer.
    apply IH.
Qed.

Lemma watches_synthesizeAll (fuel : nat) (text : jsstring) :
  watches (synthesizeAll fuel text) (watched_synthesizeAll fuel text).
Proof.
  unfold synthesizeAll.
  apply watches_bind; [apply watches_read_storage|]. intros items. cbv zeta.
  destruct (not_configured (getSettingsFromStorage items));
    [apply watches_throw|].
  apply watches_bind; [apply watches_lift|]. intros segments.
  apply watches_bind; [apply watches_synthesizeAll_loop|]. intros buffers.
  apply watches_ret.
Qed.

Lemma watches_onMessage (fuel : nat) (msg : option message) :
  watches (onMessage fuel msg) (watched_onMessage fuel msg).
Proof.
  unfold onMessage.
  destruct msg as [m|]; [|apply watches_ret].
  destruct (negb (jsstring_eqb (msg_type m) (lit "synthesize")));
    [apply watches_ret|].
  apply watches_try_catch; [|intros err; apply watches_ret].
  apply watches_bind; [apply watches_read_storage|]. intros items. cbv zeta.
  destruct (not_configured (getSettings items)); [apply watches_throw|].
  apply watches_bind; [apply watches_lift|]. intros segments.
  apply watches_bind; [apply watches_onMessage_loop|]. intros buffers.
  apply watches_ret.
Qed.


End WatchedService.

(** ** The playback controller *)

Lemma created_in_app (l1 l2 : list url_event) :
  created_in (l1 ++ l2) = created_in l1 ++ created_in l2.
Proof.
  induction l1 as [|[u b m|u|u] l1 IH]; simpl; rewrite ?IH; reflexivity.
Qed.

Lemma played_in_app (l1 l2 : list url_event) :
  played_in (l1 ++ l2) = played_in l1 ++ played_in l2.
Proof.
  induction l1 as [|[u b m|u|u] l1 IH]; simpl; rewrite ?IH; reflexivity.
Qed.

Lemma revoked_in_app (l1 l2 : list url_event) :
  revoked_in (l1 ++ l2) = revoked_in l1 ++ revoked_in l2.
Proof.
  induction l1 as [|[u b m|u|u] l1 IH]; simpl; rewrite ?IH; reflexivity.
Qed.

Lemma revocations_only (urls : list object_url) :
  created_in (map Revoked urls) = [] /\
  played_in (map Revoked urls) = [] /\
  revoked_in (map Revoked urls) = urls.
Proof.
  induction urls as [|u urls (IHc & IHp & IHr)]; simpl; [auto|].
  now rewrite IHr.
Qed.

Lemma seq_snoc (base n : nat) : seq base (S n) = seq base n ++ [base + n]%nat.
Proof. rewrite seq_S. reflexivity. Qed.

Lemma nth_error_queue (base n j : nat) :
  (j < n)%nat -> nth_error (seq base n) j = Some (base + j)%nat.
Proof.
  revert base j. induction n as [|n IH]; intros base j Hj; [lia|].
  destruct j as [|j]; simpl.
  - f_equal. lia.
  - rewrite IH by lia. f_equal. lia.
Qed.

Lemma firstn_queue (base n j : nat) :
  (j <= n)%nat -> firstn j (seq base n) = seq base j.
Proof.
  revert base j. induction n as [|n IH]; intros base j Hj.
  - now replace j with 0%nat by lia.
  - destruct j as [|j]; [reflexivity|]. simpl. f_equal. apply IH. lia.
Qed.

Lemma skipn_queue (base n j : nat) :
  (j <= n)%nat -> skipn j (seq base n) = seq (base + j) (n - j).
Proof.
  revert base j. induction n as [|n IH]; intros base j Hj.
  - now replace j with 0%nat by lia.
  - destruct j as [|j].
    + rewrite Nat.add_0_r. reflexivity.
    + simpl. rewrite IH by lia. f_equal. lia.
Qed.

(** The blob URLs are made in buffer order and are consecutive; making them
    touches nothing but the URL store and its log. *)
Lemma create_urls_spec (buffers : list ArrayBuffer) (mime : jsstring) :
  forall p : popup,
    fst (create_urls buffers mime p) = seq (next_url p) (length buffers) /\
    audioPlayer (snd (create_urls buffers mime p)) = audioPlayer p /\
    next_url (snd (create_urls buffers mime p))
    = (next_url p + length buffers)%nat /\
    exists log,
      url_log (snd (create_urls buffers mime p)) = url_log p ++ log /\
      created_in log = seq (next_url p) (length buffers) /\
      played_in log = [] /\
      revoked_in log = [].
Proof.
  induction buffers as [|buffer buffers IH]; intros p.
  - cbn. split; [reflexivity|]. split; [reflexivity|]. split; [lia|].
    exists []. now rewrite app_nil_r.
  - cbn [create_urls]. unfold createObjectURL.
    match goal with
    | |- context [create_urls buffers mime ?q] =>
        destruct (IH q) as (Hurls & Haudio & Hnext & log & Hlog & Hc & Hp & Hr);
        destruct (create_urls buffers mime q) as [us p2]
    end.
    cbn [fst snd next_url url_log audioPlayer length] in *.
    split; [|split; [|split]].
    + now rewrite Hurls.
    + exact Haudio.
    + lia.
    + exists (Created (next_url p) buffer mime :: log).
      rewrite Hlog, <- app_assoc. cbn. now rewrite Hc, Hp, Hr.
Qed.

Lemma start_playback_playing (buffers : list ArrayBuffer) (mime : jsstring)
    (p0 : popup) :
  (0 < length buffers)%nat ->
  playing_index p0 (length buffers) 0 (start_playback buffers mime p0).
Proof.
  intros Hn. unfold start_playback.
  destruct (create_urls_spec buffers mime p0)
    as (Hurls & _ & _ & log & Hlog & Hc & Hp & Hr).
  destruct (create_urls buffers mime p0) as [urls p1].
  cbn [fst snd] in *. subst urls.
  unfold playNext. cbn [currentUrls currentIndex].
  rewrite nth_error_queue by exact Hn.
  unfold playing_index, queue_of. cbn [currentUrls currentIndex audioPlayer url_log].
  repeat split; [exact Hn|].
  exists (log ++ [Played (next_url p0 + 0)%nat]).
  rewrite Hlog, <- app_assoc, created_in_app, played_in_app, revoked_in_app.
  rewrite Hc, Hp, Hr. cbn. rewrite app_nil_r, Nat.add_0_r. auto.
Qed.

(** The segment of index [j] ends: its URL is revoked and the next segment
    plays, or the queue is finished. *)
Lemma ended_playing (p0 : popup) (n j : nat) (p : popup) :
  playing_index p0 n j p ->
  (S j < n -> playing_index p0 n (S j) (ended p))%nat /\
  (S j = n -> finished_queue p0 n (ended p)).
Proof.
  intros (Hurls & Hidx & Hj & Haudio & log & Hlog & Hc & Hp & Hr).
  unfold ended. rewrite Haudio. cbn [playing onended src].
  unfold onended_handler, revokeObjectURL, playNext.
  cbn [currentUrls currentIndex audioPlayer startBtn_disabled stopBtn_disabled
       statusEl next_url url_log].
  rewrite Hurls, Hidx, Nat.add_1_r. unfold queue_of. split; intros Hnext.
  - rewrite nth_error_queue by exact Hnext.
    unfold playing_index, queue_of.
    cbn [currentUrls currentIndex audioPlayer url_log].
    repeat split; [exact Hnext|].
    exists (log ++ [Revoked (next_url p0 + j)%nat; Played (next_url p0 + S j)%nat]).
    rewrite Hlog, <- !app_assoc, created_in_app, played_in_app, revoked_in_app.
    rewrite Hc, Hp, Hr. cbn [created_in played_in revoked_in app].
    rewrite app_nil_r, <- seq_snoc, <- seq_snoc. auto.
  - assert (Hnone : @nth_error object_url (seq (next_url p0) n) (S j) = None)
      by (apply nth_error_None; rewrite length_seq; lia).
    rewrite Hnone.
    unfold finished_queue, queue_of.
    cbn [currentUrls currentIndex audioPlayer url_log playing statusEl
         startBtn_disabled stopBtn_disabled].
    repeat split; [exact Hnext|].
    exists (log ++ [Revoked (next_url p0 + j)%nat]).
    rewrite Hlog, <- !app_assoc, created_in_app, played_in_app, revoked_in_app.
    rewrite Hc, Hp, Hr. cbn [created_in played_in revoked_in app].
    rewrite !app_nil_r, <- seq_snoc, <- Hnext. auto.
Qed.

Lemma after_ended_S (k : nat) (p : popup) :
  after_ended (S k) p = ended (after_ended k p).
Proof.
  revert p. induction k as [|k IH]; intros p; [reflexivity|].
  change (after_ended (S (S k)) p) with (after_ended (S k) (ended p)).
  rewrite IH. reflexivity.
Qed.

Lemma after_ended_playing (buffers : list ArrayBuffer) (mime : jsstring)
    (p0 : popup) (j : nat) :
  (j < length buffers)%nat ->
  playing_index p0 (length buffers) j
    (after_ended j (start_playback buffers mime p0)).
Proof.
  induction j as [|j IH]; intros Hj.
  - now apply start_playback_playing.
  - rewrite after_ended_S. apply (ended_playing p0 (length buffers) j); [|exact Hj].
    apply IH. lia.
Qed.

Lemma after_ended_finished (buffers : list ArrayBuffer) (mime : jsstring)
    (p0 : popup) :
  (0 < length buffers)%nat ->
  finished_queue p0 (length buffers)
    (after_ended (length buffers) (start_playback buffers mime p0)).
Proof.
  intros Hpos. destruct (length buffers) as [|n] eqn:Hn.
  - lia.
  - rewrite after_ended_S. rewrite <- Hn.
    apply (ended_playing p0 (length buffers) n); [|lia].
    apply after_ended_playing. lia.
Qed.

(** An element that is not playing does not end. *)
Lemma after_ended_idle (k : nat) (p : popup) :
  playing (audioPlayer p) = false -> after_ended k p = p.
Proof.
  intros Hp. induction k as [|k IH]; [reflexivity|].
  rewrite after_ended_S, IH. unfold ended. now rewrite Hp.
Qed.

Lemma revoke_all_spec (urls : list object_url) :
  forall p : popup,
    url_log (fold_left (fun q url => revokeObjectURL url q) urls p)
    = url_log p ++ map Revoked urls /\
    audioPlayer (fold_left (fun q url => revokeObjectURL url q) urls p)
    = audioPlayer p.
Proof.
  induction urls as [|u urls IH]; intros p; cbn [fold_left map].
  - now rewrite app_nil_r.
  - destruct (IH (revokeObjectURL u p)) as (Hlog & Haudio).
    rewrite Hlog, Haudio. cbn. now rewrite <- app_assoc.
Qed.

(** [stopPlayback] revokes the URLs from the cursor on, silences the element
    and empties the queue. *)
Lemma stopPlayback_spec (p : popup) :
  url_log (stopPlayback p)
  = url_log p ++ map Revoked (skipn (currentIndex p) (currentUrls p)) /\
  playing (audioPlayer (stopPlayback p)) = false /\
  src (audioPlayer (stopPlayback p)) = None /\
  currentUrls (stopPlayback p) = [] /\
  currentIndex (stopPlayback p) = 0%nat /\
  startBtn_disabled (stopPlayback p) = false /\
  stopBtn_disabled (stopPlayback p) = true /\
  statusEl (stopPlayback p) = Status_stopped.
Proof.
  unfold stopPlayback, revoke_remaining.
  cbn [url_log audioPlayer currentUrls currentIndex startBtn_disabled
       stopBtn_disabled statusEl].
  match goal with
  | |- context [fold_left _ ?l ?q] =>
      destruct (revoke_all_spec l q) as (Hlog & Haudio)
  end.
  rewrite Hlog, Haudio. cbn. repeat split.
Qed.

(** C8. A queue of buffers started from any state of the popup: the blob
    URLs are created in buffer order and are pairwise distinct.  After [j]
    segments have ended the segment of index [j] is playing, the segments
    before it have been played in order and their URLs revoked.  Stopping
    then revokes the URL of index [j] and those after it, after which every
    created URL has been revoked once, nothing beyond index [j] has been
    played, and no further [ended] event changes anything.  Left alone, the
    queue plays every URL once, in order, and revokes every URL once; after
    the last one no further [ended] event changes anything. *)
Theorem playback_releases_each_url_once (buffers : list ArrayBuffer)
    (mime : jsstring) (p0 : popup) (j : nat) :
  (j < length buffers)%nat ->
  let urls := queue_of p0 (length buffers) in
  let at_j := after_ended j (start_playback buffers mime p0) in
  let cancelled := stopPlayback at_j in
  let finished := after_ended (length buffers) (start_playback buffers mime p0) in
  NoDup urls /\
  (currentIndex at_j = j /\
   src (audioPlayer at_j) = nth_error urls j /\
   playing (audioPlayer at_j) = true /\
   exists log,
     url_log at_j = url_log p0 ++ log /\
     created_in log = urls /\
     played_in log = firstn (S j) urls /\
     revoked_in log = firstn j urls) /\
  (url_log cancelled = url_log at_j ++ map Revoked (skipn j urls) /\
   exists log,
     url_log cancelled = url_log p0 ++ log /\
     created_in log = urls /\
     played_in log = firstn (S j) urls /\
     revoked_in log = urls) /\
  (forall k : nat, after_ended k cancelled = cancelled) /\
  (exists log,
     url_log finished = url_log p0 ++ log /\
     created_in log = urls /\
     played_in log = urls /\
     revoked_in log = urls) /\
  (forall k : nat, after_ended k finished = finished) /\
  url_log (stopPlayback finished) = url_log finished.
Proof.
  intros Hj urls at_j cancelled finished.
  destruct (after_ended_playing buffers mime p0 j Hj)
    as (Hurls & Hidx & _ & Haudio & log & Hlog & Hc & Hp & Hr).
  fold at_j in Hurls, Hidx, Haudio, Hlog. fold urls in Hurls, Hc.
  destruct (stopPlayback_spec at_j) as (Hslog & Hsplay & _).
  fold cancelled in Hslog, Hsplay. rewrite Hurls, Hidx in Hslog.
  destruct (revocations_only (skipn j urls)) as (Hrc & Hrp & Hrr).
  destruct (after_ended_finished buffers mime p0)
    as (Hfq & Hfi & Hfplay & _ & _ & _ & flog & Hflog & Hfc & Hfp & Hfr); [lia|].
  fold finished in Hfq, Hfi, Hfplay, Hflog. fold urls in Hfq, Hfc, Hfp, Hfr.
  split; [apply seq_NoDup|]. split; [|split; [|split; [|split; [|split]]]].
  - split; [exact Hidx|]. rewrite Haudio. cbn [src playing].
    split; [unfold urls, queue_of; now rewrite nth_error_queue|].
    split; [reflexivity|].
    exists log. unfold urls, queue_of in *.
    rewrite !firstn_queue by lia. auto.
  - split; [exact Hslog|].
    exists (log ++ map Revoked (skipn j urls)).
    rewrite Hslog, Hlog, <- app_assoc, created_in_app, played_in_app,
      revoked_in_app, Hc, Hp, Hr, Hrc, Hrp, Hrr, !app_nil_r.
    unfold urls, queue_of. rewrite !firstn_queue by lia.
    rewrite <- (firstn_queue (next_url p0) (length buffers) j) by lia.
    rewrite firstn_skipn. auto.
  - intros k. now apply after_ended_idle.
  - exists flog. auto.
  - intros k. now apply after_ended_idle.
  - destruct (stopPlayback_spec finished) as (Hlast & _).
    rewrite Hlast, Hfq, Hfi. unfold urls, queue_of.
    rewrite skipn_queue, Nat.sub_diag by lia. cbn. now rewrite app_nil_r.
Qed.

Lemma playback_releases_each_url_once_witness :
  (1 < length three_buffers)%nat /\
  let at_1 := after_ended 1 (start_playback three_buffers (lit "audio/mpeg") popup_opened) in
  played_in (url_log at_1) = [0; 1]%nat /\
  revoked_in (url_log at_1) = [0]%nat /\
  url_log (stopPlayback at_1) = url_log at_1 ++ [Revoked 1%nat; Revoked 2%nat] /\
  played_in (url_log (stopPlayback at_1)) = [0; 1]%nat /\
  revoked_in (url_log (stopPlayback at_1)) = [0; 1; 2]%nat /\
  after_ended 5 (stopPlayback at_1) = stopPlayback at_1.
Proof.
  split; [cbn; lia|].
  destruct (playback_releases_each_url_once three_buffers (lit "audio/mpeg")
              popup_opened 1)
    as (_ & _ & (Hlog & _) & Hquiet & _); [cbn; lia|].
  cbv zeta. split; [reflexivity|]. split; [reflexivity|].
  split; [exact Hlog|]. split; [reflexivity|]. split; [reflexivity|].
  apply Hquiet.
Defined.

(** C9, refuted as stated: after the only segment of a queue has ended the
    controller shows the finished line, yet the queue still holds the URL
    and the cursor is 1. *)
Lemma finished_keeps_queue_and_cursor :
  let finished :=
    after_ended 1 (start_playback [[1%N]] (lit "audio/mpeg") popup_opened) in
  statusEl finished = Status_finished /\
  currentUrls finished = [0%nat] /\
  currentUrls finished <> [] /\
  currentIndex finished = 1%nat /\
  currentIndex finished <> 0%nat.
Proof. cbv zeta. repeat split; discriminate. Qed.

(** C9, as the code has it.  Stopping empties the queue and sets the cursor
    to 0.  When the last segment of a queue ends, the queue still holds its
    URLs, all of them revoked, and the cursor is the length of the queue.  In
    both states the start button is enabled and the stop button disabled, and
    a new start replaces the queue and sets the cursor to 0. *)
Theorem terminal_states (buffers : list ArrayBuffer) (mime : jsstring)
    (p0 : popup) :
  buffers <> [] ->
  let finished := after_ended (length buffers) (start_playback buffers mime p0) in
  (forall p : popup,
     currentUrls (stopPlayback p) = [] /\
     currentIndex (stopPlayback p) = 0%nat /\
     statusEl (stopPlayback p) = Status_stopped /\
     startBtn_disabled (stopPlayback p) = false /\
     stopBtn_disabled (stopPlayback p) = true) /\
  (statusEl finished = Status_finished /\
   currentUrls finished = queue_of p0 (length buffers) /\
   currentIndex finished = length buffers /\
   (exists log,
      url_log finished = url_log p0 ++ log /\
      revoked_in log = queue_of p0 (length buffers)) /\
   startBtn_disabled finished = false /\
   stopBtn_disabled finished = true) /\
  (forall (p : popup) (buffers' : list ArrayBuffer) (mime' : jsstring),
     buffers' <> [] ->
     currentUrls (start_playback buffers' mime' p)
     = queue_of p (length buffers') /\
     currentIndex (start_playback buffers' mime' p) = 0%nat).
Proof.
  intros Hne finished. split; [|split].
  - intros p.
    destruct (stopPlayback_spec p) as (_ & _ & _ & Hq & Hi & Hs & Ht & Hl).
    auto.
  - destruct (after_ended_finished buffers mime p0)
      as (Hq & Hi & _ & Hs & Hstart & Hstop & log & Hlog & _ & _ & Hr).
    { destruct buffers; [congruence | cbn; lia]. }
    fold finished in Hq, Hi, Hs, Hstart, Hstop, Hlog.
    repeat split; auto. exists log. auto.
  - intros p buffers' mime' Hne'.
    destruct (start_playback_playing buffers' mime' p)
      as (Hq & Hi & _).
    { destruct buffers'; [congruence | cbn; lia]. }
    auto.
Qed.

Lemma terminal_states_witness :
  three_buffers <> [] /\
  let finished :=
    after_ended 3 (start_playback three_buffers (lit "audio/mpeg") popup_opened) in
  currentUrls finished = [0; 1; 2]%nat /\
  currentIndex finished = 3%nat /\
  currentUrls (stopPlayback finished) = [] /\
  currentIndex (stopPlayback finished) = 0%nat.
Proof.
  split; [discriminate|].
  destruct (terminal_states three_buffers (lit "audio/mpeg") popup_opened)
    as (Hstop & (_ & Hq & Hi & _) & _); [discriminate|].
  cbv zeta. split; [exact Hq|]. split; [exact Hi|].
  destruct (Hstop (after_ended 3
              (start_playback three_buffers (lit "audio/mpeg") popup_opened)))
    as (H1 & H2 & _).
  split; [exact H1 | exact H2].
Defined.

(** ** The pipeline on examples *)



(** A stored negative [maxLength] is handed to the segmenter as it is. *)
Example negative_maxLength_passes :
  effective_maxLength StringToNumber_digits (getSettings negative_maxLength_items)
  = -5.
Proof. reflexivity. Qed.

Lemma decode_binary_response_witness :
  textual binary_response = false /\
  decodeResponse atob_forgiving binary_response = Returns [255; 251; 144; 0]%N.
Proof.
  split; [reflexivity|].
  apply (decode_binary_response (list (jsstring + Response)) scripted_fetch
           atob_forgiving StringToNumber_digits JSON_stringify_body binary_response).
  reflexivity.
Defined.

Lemma synthesizeAll_requires_configuration_witness :
  speaker (getSettingsFromStorage
             (storage (fresh_world no_speaker_items three_answers))) = [] /\
  synthesizeAll (list (jsstring + Response)) scripted_fetch atob_forgiving
    StringToNumber_digits JSON_stringify_body 8 (lit "abcdefg")
    (fresh_world no_speaker_items three_answers)
  = (Throws NotConfigured, fresh_world no_speaker_items three_answers) /\
  calls (fresh_world no_speaker_items three_answers) = [].
Proof.
  split; [reflexivity|]. split; [|reflexivity].
  apply (synthesizeAll_requires_configuration (list (jsstring + Response))
           scripted_fetch atob_forgiving StringToNumber_digits JSON_stringify_body 8
           (lit "abcdefg") (fresh_world no_speaker_items three_answers)).
  right. right. reflexivity.
Defined.

Lemma synthesizeAll_aborts_on_first_failure_witness :
  splitTextPlain 8 (lit "abcdefg") 3
  = Returns [lit "abc"; lit "def"; lit "g"] /\
  exists w',
    synthesizeAll (list (jsstring + Response)) scripted_fetch atob_forgiving
      StringToNumber_digits JSON_stringify_body 8 (lit "abcdefg")
      (fresh_world configured_items three_answers)
    = (Throws (HttpError 429 (lit "Too Many Requests")), w') /\
    length (calls w') = 2%nat /\
    network w' = [inr binary_response].
Proof.
  split; [reflexivity|].
  destruct (synthesizeAll_aborts_on_first_failure
              (list (jsstring + Response)) scripted_fetch atob_forgiving
              StringToNumber_digits JSON_stringify_body 8 (lit "abcdefg")
              (fresh_world configured_items three_answers)
              [lit "abc"] (lit "def") [lit "g"]
              [map to_uint8 (lit "ABCA")]
              [inr failed_response; inr binary_response]
              [inr binary_response]
              (HttpError 429 (lit "Too Many Requests")))
    as ((w' & Hrun & _ & Hlen & Hnet) & _).
  - reflexivity.
  - reflexivity.
  - apply synthesized_cons with (n1 := [inr failed_response; inr binary_response]);
      [reflexivity | constructor].
  - reflexivity.
  - exists w'. split; [exact Hrun|]. split; [exact Hlen | exact Hnet].
Defined.


(** The first request of that run: a format outside the documented ones and
    a sample rate that is not a number are put in the body as they are,
    without an [additions] field. *)
Example unvalidated_request :
  hd_error
    (calls (snd (synthesizeAll (list (jsstring + Response)) scripted_fetch
                   atob_forgiving StringToNumber_digits JSON_stringify_body 8 (lit "abcdefg")
                   (fresh_world configured_items three_answers))))
  = Some
      {| endpoint := synthesis_endpoint;
         method := lit "POST";
         x_api_key := lit "key";
         X_Api_Resource_Id := lit "seed-tts-2.0";
         Content_Type := lit "application/json";
         body :=
           {| rp_text := lit "abc";
              rp_speaker := lit "narrator";
              rp_additions := None;
              rp_audio_params :=
                {| ap_format := lit "wav"; sample_rate := NaN |} |} |}.
Proof. reflexivity. Qed.

(** The bodies that the remote service receives in that run, the second
    call being refused: serialized, the sample rate that is not a number
    reads null. *)
Example unvalidated_request_on_the_wire :
  map (fun call => single_quoted (fc_body call))
    (fst (network (snd (synthesizeAll
                          (list fetch_call * list (jsstring + Response))
                          (recorded scripted_fetch) atob_forgiving
                          StringToNumber_digits JSON_stringify_body 8
                          (lit "abcdefg")
                          (observed []
                             (fresh_world configured_items three_answers))))))
  = [lit "{'req_params':{'text':'abc','speaker':'narrator','audio_params':{'format':'wav','sample_rate':null}}}";
     lit "{'req_params':{'text':'def','speaker':'narrator','audio_params':{'format':'wav','sample_rate':null}}}"].
Proof. reflexivity. Qed.

(** A body with additions and a numeric sample rate, serialized; the text
    holds a line feed. *)
Example serialized_body :
  single_quoted
    (JSON_stringify_body
       {| rp_text := [72; 105; 10]%N;
          rp_speaker := lit "narrator";
          rp_additions := Some (lit "{}");
          rp_audio_params :=
            {| ap_format := lit "mp3"; sample_rate := Num 24000 |} |})
  = lit "{'req_params':{'text':'Hi\n','speaker':'narrator','additions':'{}','audio_params':{'format':'mp3','sample_rate':24000}}}".
Proof. reflexivity. Qed.

(** * Further properties of the code *)

(** ** Segmenter: fixed offsets *)

Lemma ceil_div_step (x L : Z) :
  0 < L -> 0 < x ->
  (x + L - 1) / L = (Z.max 0 (x - L) + L - 1) / L + 1.
Proof.
  intros HL Hx.
  replace (x + L - 1) with ((x - 1) + 1 * L) by lia.
  rewrite Z.div_add by lia. f_equal.
  destruct (Z.le_gt_cases L x) as [Hle|Hgt].
  - rewrite Z.max_r by lia. f_equal. lia.
  - rewrite Z.max_l by lia.
    rewrite !Z.div_small by lia. reflexivity.
Qed.

(** The loop cuts at the offsets [start], [start + maxLength], ... *)
Lemma splitText_loop_offsets (text : jsstring) (L : Z) :
  0 < L ->
  forall (fuel : nat) (start : Z) (segments : list jsstring),
    0 <= start ->
    Z.max 0 (jslength text - start) < Z.of_nat fuel ->
    exists m : nat,
      splitText_loop fuel text L start segments
      = Returns (segments ++
                 map (fun i => slice text (start + Z.of_nat i * L)
                                 (start + Z.of_nat i * L + L)) (seq 0 m))
      /\ Z.of_nat m = (Z.max 0 (jslength text - start) + L - 1) / L.
Proof.
  intros HL. induction fuel as [|fuel IH]; intros start segments Hs Hfuel.
  - exfalso. simpl in Hfuel. lia.
  - simpl. destruct (Z.ltb_spec start (jslength text)) as [Hlt|Hge].
    + destruct (IH (start + L) (segments ++ [slice text start (start + L)]))
        as (m & Hrun & Hm); [lia | lia |].
      exists (S m). split.
      * rewrite Hrun, <- app_assoc. f_equal. f_equal.
        cbn [seq map app]. f_equal; [f_equal; lia|].
        rewrite <- seq_shift, map_map. apply map_ext.
        intros i. f_equal; lia.
      * rewrite Nat2Z.inj_succ, Hm.
        rewrite (Z.max_r 0 (jslength text - start)) by lia.
        rewrite (ceil_div_step (jslength text - start) L) by lia.
        replace (jslength text - (start + L)) with (jslength text - start - L)
          by lia.
        lia.
    + exists 0%nat. cbn [seq map]. rewrite app_nil_r. split; [reflexivity|].
      rewrite Z.max_l by lia. rewrite Z.div_small by lia. reflexivity.
Qed.

(** X1. For a positive [maxLength] the segments are cut at the fixed offsets
    0, [maxLength], 2 [maxLength], ...: there are as many as the length of
    the text divided by [maxLength], rounded up; the segment of index [i] is
    [text.slice(i * maxLength, i * maxLength + maxLength)]; and every segment
    but the last has exactly [maxLength] code units. *)
Theorem splitText_fixed_offsets (T : jsstring) (L : Z) (fuel : nat) :
  0 < L -> (length T < fuel)%nat ->
  exists segments : list jsstring,
    splitText fuel T L = Returns segments /\
    splitTextPlain fuel T L = Returns segments /\
    Z.of_nat (length segments) = (jslength T + L - 1) / L /\
    (forall i : nat, (i < length segments)%nat ->
       nth_error segments i
       = Some (slice T (Z.of_nat i * L) (Z.of_nat i * L + L))) /\
    (forall (i : nat) (s : jsstring), (S i < length segments)%nat ->
       nth_error segments i = Some s -> jslength s = L).
Proof.
  intros HL Hfuel.
  destruct (splitText_loop_offsets T L HL fuel 0 [])
    as (m & Hrun & Hm); [lia | unfold jslength; lia |].
  cbn [app] in Hrun. rewrite Z.sub_0_r, Z.max_r in Hm by apply jslength_nonneg.
  set (cut := fun i : nat => slice T (0 + Z.of_nat i * L) (0 + Z.of_nat i * L + L))
    in Hrun.
  assert (Hlen : length (map cut (seq 0 m)) = m)
    by now rewrite length_map, length_seq.
  assert (Hnth : forall i, (i < m)%nat ->
            nth_error (map cut (seq 0 m)) i
            = Some (slice T (Z.of_nat i * L) (Z.of_nat i * L + L))).
  { intros i Hi. rewrite nth_error_map, nth_error_queue by exact Hi.
    reflexivity. }
  exists (map cut (seq 0 m)).
  split; [exact Hrun|]. split; [exact Hrun|]. rewrite Hlen.
  split; [exact Hm|]. split; [exact Hnth|].
  intros i s Hi Hs. rewrite Hnth in Hs by lia. injection Hs as <-.
  pose proof (Z.mul_div_le (jslength T + L - 1) L HL) as Hdiv.
  rewrite <- Hm in Hdiv.
  assert (Hroom : (Z.of_nat i + 1) * L < jslength T) by nia.
  rewrite slice_forward by nia.
  unfold jslength in *. rewrite length_firstn, length_skipn. nia.
Qed.

Lemma splitText_fixed_offsets_witness :
  0 < 3 /\ (length (lit "abcdefg") < 8)%nat /\
  exists segments : list jsstring,
    splitText 8 (lit "abcdefg") 3 = Returns segments /\
    Z.of_nat (length segments) = 3.
Proof.
  split; [lia|]. split; [cbn; lia|].
  destruct (splitText_fixed_offsets (lit "abcdefg") 3 8)
    as (segments & Hrun & _ & Hcount & _); [lia | cbn; lia |].
  exists segments. split; [exact Hrun | exact Hcount].
Defined.

(** ** Decoder: the scan and the merge *)

(** X2. One search of the regular expression either finds the leftmost
    occurrence of the data pattern in the text it is given, with its value
    and the text after its closing quote, or returns null, and then the
    pattern occurs nowhere in that text. *)
Theorem regex_exec_leftmost_occurrence (s : jsstring) :
  match regex_exec s with
  | Some (v, rest) =>
      exists pre,
        occurs s pre v rest /\
        forall pre' v' rest', occurs s pre' v' rest' ->
          (length pre <= length pre')%nat
  | None => forall pre v rest, ~ occurs s pre v rest
  end.
Proof.
  destruct (regex_exec s) as [[v rest]|] eqn:He.
  - now apply regex_exec_sound.
  - now apply regex_exec_none.
Qed.

Lemma bytelength_concat (chunks : list (list uint8)) :
  bytelength (concat chunks) = fold_right Z.add 0 (map bytelength chunks).
Proof.
  induction chunks as [|c l IH]; [reflexivity|].
  cbn [concat map fold_right]. now rewrite bytelength_app, IH.
Qed.

(** X3. Decoding a response never fails in the merge and never loops: the
    only error it raises is the no-audio error of the text branch.  The
    merged array is allocated with the summed length of the chunks, so no
    write goes past its end, and every match consumes text, so the scan
    ends. *)
Theorem decodeResponse_only_fails_without_audio
    (atob : jsstring -> option jsstring) (r : Response) :
  decodeResponse atob r <> OutOfFuel /\
  (forall e : error,
     decodeResponse atob r = Throws e -> e = NoAudioData /\ textual r = true) /\
  (textual r = true ->
   forall buffer : ArrayBuffer,
     decodeResponse atob r = Returns buffer ->
     exists captures,
       successive_matches (response_text r) captures /\
       bytelength buffer
       = fold_right Z.add 0 (map bytelength (decoded_chunks atob captures))).
Proof.
  destruct (successive_matches_total (response_text r)) as (captures & Hm).
  destruct (textual r) eqn:Ht.
  - rewrite (decodeResponse_textual atob r Ht).
    rewrite (decode_text_matches atob _ captures Hm).
    destruct (decoded_chunks atob captures) as [|chunk chunks] eqn:Hc.
    + split; [discriminate|]. split; [now intros e [= <-]|discriminate].
    + split; [discriminate|]. split; [discriminate|].
      intros _ buffer [= <-]. exists captures. split; [exact Hm|].
      rewrite Hc. apply (bytelength_concat (chunk :: chunks)).
  - assert (Hraw : decodeResponse atob r = Returns (response_arrayBuffer r)).
    { unfold textual in Ht. unfold decodeResponse. cbv zeta. now rewrite Ht. }
    rewrite Hraw. split; [discriminate|]. split; discriminate.
Qed.

(** ** Trimming *)

Lemma drop_whitespace_head (s : jsstring) :
  drop_whitespace s = [] \/
  exists c r, drop_whitespace s = c :: r /\ is_js_whitespace c = false.
Proof.
  induction s as [|c s IH]; [now left|]. cbn [drop_whitespace].
  destruct (is_js_whitespace c) eqn:Hc; [exact IH|].
  right. now exists c, s.
Qed.

Lemma drop_whitespace_suffix (s : jsstring) :
  exists pre, s = pre ++ drop_whitespace s /\
              forallb is_js_whitespace pre = true.
Proof.
  induction s as [|c s (pre & Hs & Hpre)]; [now exists []|].
  cbn [drop_whitespace]. destruct (is_js_whitespace c) eqn:Hc.
  - exists (c :: pre). cbn. rewrite Hc, Hpre. split; [now f_equal|reflexivity].
  - now exists [].
Qed.

Lemma drop_whitespace_fixed (c : code_unit) (s : jsstring) :
  is_js_whitespace c = false -> drop_whitespace (c :: s) = c :: s.
Proof. intros Hc. cbn. now rewrite Hc. Qed.

Lemma drop_whitespace_blank (s : jsstring) :
  drop_whitespace s = [] <-> forallb is_js_whitespace s = true.
Proof.
  induction s as [|c s IH]; cbn; [tauto|].
  destruct (is_js_whitespace c); cbn; [exact IH|].
  split; discriminate.
Qed.

Lemma forallb_rev {A} (f : A -> bool) (l : list A) :
  forallb f (rev l) = forallb f l.
Proof.
  induction l as [|a l IH]; [reflexivity|].
  cbn. rewrite forallb_app, IH. cbn. rewrite andb_true_r. apply andb_comm.
Qed.

(** A text trims to the empty text exactly when it is blank. *)
Lemma trim_blank (s : jsstring) :
  trim s = [] <-> forallb is_js_whitespace s = true.
Proof.
  unfold trim. split.
  - intros H. apply (f_equal (@rev code_unit)) in H.
    rewrite rev_involutive in H. cbn in H.
    apply drop_whitespace_blank in H. rewrite forallb_rev in H.
    destruct (drop_whitespace_suffix s) as (pre & Hs & Hpre).
    rewrite Hs, forallb_app, Hpre, H. reflexivity.
  - intros H. apply drop_whitespace_blank in H. now rewrite H.
Qed.

(** A trimmed text that is not empty starts and ends with a code unit that
    is not white space. *)
Lemma trim_ends (s : jsstring) :
  trim s = [] \/
  exists first middle last,
    is_js_whitespace first = false /\ is_js_whitespace last = false /\
    (trim s = [first] /\ first = last \/ trim s = first :: middle ++ [last]).
Proof.
  unfold trim.
  destruct (drop_whitespace_head (rev (drop_whitespace s)))
    as [Hb|(last & r & Hb & Hlast)]; rewrite Hb; [now left|].
  right. cbn [rev].
  destruct (drop_whitespace_suffix (rev (drop_whitespace s)))
    as (pre & Hrev & _).
  rewrite Hb in Hrev. apply (f_equal (@rev code_unit)) in Hrev.
  rewrite rev_involutive, rev_app_distr in Hrev. cbn [rev] in Hrev.
  destruct (rev r) as [|first middle] eqn:Hr.
  - exists last, [], last. now repeat split; [| |left].
  - exists first, middle, last.
    destruct (drop_whitespace_head s) as [He|(c & r' & He & Hc)];
      rewrite He in Hrev.
    + destruct middle; discriminate.
    + cbn in Hrev. injection Hrev as -> _.
      repeat split; [exact Hc | exact Hlast | now right].
Qed.

Lemma trim_idempotent (s : jsstring) : trim (trim s) = trim s.
Proof.
  destruct (trim_ends s)
    as [->|(first & middle & last & Hf & Hl & [(-> & <-)| ->])].
  - reflexivity.
  - unfold trim. cbn. rewrite Hf. cbn. now rewrite Hf.
  - unfold trim. rewrite (drop_whitespace_fixed first _ Hf).
    change (first :: middle ++ [last]) with ([first] ++ middle ++ [last]).
    rewrite !rev_app_distr. cbn [rev app].
    rewrite (drop_whitespace_fixed last _ Hl).
    cbn [rev]. rewrite rev_app_distr, rev_involutive. reflexivity.
Qed.

(** ** Synthesis client and orchestrators: traces *)

Lemma splitText_loop_extends (text : jsstring) (L : Z) :
  forall (fuel : nat) (start : Z) (segments result : list jsstring),
    splitText_loop fuel text L start segments = Returns result ->
    exists more, result = segments ++ more.
Proof.
  induction fuel as [|fuel IH]; intros start segments result H;
    [discriminate|].
  simpl in H. destruct (start <? jslength text).
  - destruct (IH _ _ _ H) as (more & ->). rewrite <- app_assoc. now eexists.
  - injection H as <-. exists []. now rewrite app_nil_r.
Qed.

(** A non-empty text never splits into no segment. *)
Lemma splitText_some_segment (fuel : nat) (text : jsstring) (L : Z)
    (segments : list jsstring) :
  text <> [] -> splitText fuel text L = Returns segments -> segments <> [].
Proof.
  intros Hne H. unfold splitText in H. destruct fuel as [|fuel];
    [discriminate|].
  simpl in H. destruct (Z.ltb_spec 0 (jslength text)) as [_|Hlen].
  - destruct (splitText_loop_extends _ _ _ _ _ _ H) as (more & ->).
    discriminate.
  - destruct text; [congruence|]. unfold jslength in Hlen. simpl in Hlen. lia.
Qed.

Lemma concat_firstn_skipn {A} (k : nat) (l : list (list A)) :
  concat l = concat (firstn k l) ++ concat (skipn k l).
Proof. now rewrite <- concat_app, firstn_skipn. Qed.

Section PipelineTraces.

Variable net : Type.
Variable fetch : fetch_call -> net -> (jsstring + Response) * net.
Variable atob : jsstring -> option jsstring.
Variable StringToNumber : jsstring -> jsnum.
Variable JSON_stringify : req_params -> jsstring.

Local Abbreviation build_request := (build_request StringToNumber).
Local Abbreviation fetch_arguments := (fetch_arguments JSON_stringify).
Local Abbreviation synthesizeSegment :=
  (synthesizeSegment net fetch atob StringToNumber JSON_stringify).
Local Abbreviation synthesizeSegmentLocal :=
  (synthesizeSegmentLocal net fetch atob StringToNumber JSON_stringify).
Local Abbreviation synthesizeAll_loop :=
  (synthesizeAll_loop net fetch atob StringToNumber JSON_stringify).
Local Abbreviation synthesizeAll := (synthesizeAll net fetch atob StringToNumber JSON_stringify).
Local Abbreviation onMessage_loop := (onMessage_loop net fetch atob StringToNumber JSON_stringify).
Local Abbreviation onMessage := (onMessage net fetch atob StringToNumber JSON_stringify).
Local Abbreviation effective_maxLength := (effective_maxLength StringToNumber).
Local Abbreviation call_result := (call_result net fetch atob StringToNumber JSON_stringify).
Local Abbreviation requests_for := (requests_for StringToNumber).
Local Abbreviation start_click := (start_click net fetch atob StringToNumber JSON_stringify).

(** X4. One synthesis call hands exactly one request to [fetch], whatever
    comes back: there is no retry.  A rejected [fetch] and a response that is
    not ok end the call with that error, the latter carrying the status and
    the status text, without the body being decoded; an ok response is
    decoded.  The call touches neither the stored settings nor the progress
    lines.  The two copies of the function behave alike. *)
Theorem synthesizeSegment_single_request (segment : jsstring)
    (settings : SynthesisSettings) (w : world net) :
  synthesizeSegmentLocal segment settings w = synthesizeSegment segment settings w /\
  calls (snd (synthesizeSegment segment settings w))
  = calls w ++ [build_request segment settings] /\
  storage (snd (synthesizeSegment segment settings w)) = storage w /\
  progress (snd (synthesizeSegment segment settings w)) = progress w /\
  fst (synthesizeSegment segment settings w) <> OutOfFuel /\
  match fetch (fetch_arguments (build_request segment settings)) (network w) with
  | (inl reason, n') =>
      synthesizeSegment segment settings w
      = (Throws (FetchRejected reason),
         {| storage := storage w; network := n';
            calls := calls w ++ [build_request segment settings];
            progress := progress w |})
  | (inr resp, n') =>
      network (snd (synthesizeSegment segment settings w)) = n' /\
      fst (synthesizeSegment segment settings w)
      = if ok resp then decodeResponse atob resp
        else Throws (HttpError (status resp) (statusText resp))
  end.
Proof.
  split; [reflexivity|].
  rewrite synthesizeSegment_run. cbn [fst snd calls storage progress network].
  split; [reflexivity|]. split; [reflexivity|]. split; [reflexivity|].
  split; [apply (call_result_outcome net fetch atob StringToNumber JSON_stringify)|].
  unfold call_result, synthesizeSegment, bind, await_fetch.
  cbn [network calls progress storage].
  destruct (fetch (fetch_arguments (build_request segment settings)) (network w))
    as [[reason|resp] n']; cbn; [reflexivity|].
  destruct (ok resp); cbn; split; reflexivity.
Qed.

(** The popup's loop, whatever the calls yield: requests and progress lines
    for a prefix of the segments. *)
Lemma synthesizeAll_loop_trace (settings : SynthesisSettings)
    (todo : list jsstring) :
  forall (i total : Z) (buffers : list ArrayBuffer) (w : world net),
    exists k : nat,
      (k <= length todo)%nat /\
      calls (snd (synthesizeAll_loop todo i total settings buffers w))
      = calls w ++ requests_for settings (firstn k todo) /\
      progress (snd (synthesizeAll_loop todo i total settings buffers w))
      = progress w ++ map (fun j => (i + Z.of_nat j + 1, total)) (seq 0 k) /\
      storage (snd (synthesizeAll_loop todo i total settings buffers w))
      = storage w /\
      fst (synthesizeAll_loop todo i total settings buffers w) <> OutOfFuel /\
      (forall bs,
         fst (synthesizeAll_loop todo i total settings buffers w) = Returns bs ->
         k = length todo /\ length bs = (length buffers + length todo)%nat).
Proof.
  induction todo as [|segment todo IH]; intros i total buffers w.
  - exists 0%nat. cbn. rewrite !app_nil_r.
    split; [lia|]. split; [reflexivity|]. split; [reflexivity|].
    split; [reflexivity|]. split; [discriminate|].
    intros bs [= <-]. split; [reflexivity | lia].
  - rewrite synthesizeAll_loop_step. cbv zeta.
    destruct (call_result_outcome net fetch atob StringToNumber JSON_stringify settings
                segment (network w)) as (_ & Hfuel).
    destruct (fst (call_result settings segment (network w))) as [buffer|e|].
    + match goal with
      | |- context [synthesizeAll_loop todo _ _ _ _ ?w2] =>
          destruct (IH (i + 1) total (buffers ++ [buffer]) w2)
            as (k & Hk & Hcalls & Hprog & Hsto & Hout & Hret)
      end.
      exists (S k). cbn [calls progress storage] in Hcalls, Hprog, Hsto.
      rewrite Hcalls, Hprog, Hsto, <- !app_assoc.
      split; [cbn; lia|]. split; [reflexivity|]. split.
      { f_equal. cbn [seq map app]. f_equal; [f_equal; lia|].
        rewrite <- seq_shift, map_map. apply map_ext.
        intros j. f_equal. lia. }
      split; [reflexivity|]. split; [exact Hout|].
      intros bs Hbs. destruct (Hret bs Hbs) as (-> & Hlen).
      rewrite length_app in Hlen. cbn in *. lia.
    + exists 1%nat. cbn. rewrite Z.add_0_r.
      split; [lia|]. split; [reflexivity|]. split; [reflexivity|].
      split; [reflexivity|]. split; discriminate.
    + now destruct Hfuel.
Qed.

(** The two loops make the same calls and yield the same; only the popup
    writes progress lines. *)
Lemma loops_agree (settings : SynthesisSettings) (todo : list jsstring) :
  forall (i total : Z) (buffers : list ArrayBuffer) (w1 w2 : world net),
    storage w1 = storage w2 -> network w1 = network w2 -> calls w1 = calls w2 ->
    fst (onMessage_loop todo settings buffers w1)
    = fst (synthesizeAll_loop todo i total settings buffers w2) /\
    storage (snd (onMessage_loop todo settings buffers w1))
    = storage (snd (synthesizeAll_loop todo i total settings buffers w2)) /\
    network (snd (onMessage_loop todo settings buffers w1))
    = network (snd (synthesizeAll_loop todo i total settings buffers w2)) /\
    calls (snd (onMessage_loop todo settings buffers w1))
    = calls (snd (synthesizeAll_loop todo i total settings buffers w2)) /\
    progress (snd (onMessage_loop todo settings buffers w1)) = progress w1.
Proof.
  induction todo as [|segment todo IH]; intros i total buffers w1 w2 Hs Hn Hc.
  - cbn. auto.
  - rewrite onMessage_loop_step, synthesizeAll_loop_step. cbv zeta.
    rewrite Hs, Hn, Hc.
    destruct (fst (call_result settings segment (network w2))) as [buffer|e|];
      [|cbn; auto|cbn; auto].
    match goal with
    | |- context [onMessage_loop todo _ _ ?a] =>
        match goal with
        | |- context [synthesizeAll_loop todo _ _ _ _ ?b] =>
            destruct (IH (i + 1) total (buffers ++ [buffer]) a b
                        eq_refl eq_refl eq_refl)
              as (H1 & H2 & H3 & H4 & H5)
        end
    end.
    cbn [progress] in H5. auto.
Qed.

Lemma requests_for_texts (settings : SynthesisSettings)
    (segments : list jsstring) :
  map (fun req => rp_text (body req)) (requests_for settings segments)
  = segments.
Proof.
  unfold requests_for. rewrite map_map. cbn. apply map_id.
Qed.

Lemma Forall_firstn_of {A} (P : A -> Prop) (k : nat) (l : list A) :
  Forall P l -> Forall P (firstn k l).
Proof.
  intros H. revert k. induction H as [|a l Ha _ IH]; intros [|k]; cbn;
    constructor; auto.
Qed.

(** A run of the popup's orchestrator on configured settings, whatever the
    calls yield. *)
Lemma synthesizeAll_trace (fuel : nat) (text : jsstring) (w : world net)
    (segments : list jsstring) :
  not_configured (getSettingsFromStorage (storage w)) = false ->
  splitTextPlain fuel text
    (effective_maxLength (getSettingsFromStorage (storage w)))
  = Returns segments ->
  exists k : nat,
    (k <= length segments)%nat /\
    calls (snd (synthesizeAll fuel text w))
    = calls w
      ++ requests_for (getSettingsFromStorage (storage w)) (firstn k segments) /\
    progress (snd (synthesizeAll fuel text w))
    = progress w
      ++ map (fun j => (Z.of_nat j + 1, Z.of_nat (length segments))) (seq 0 k) /\
    storage (snd (synthesizeAll fuel text w)) = storage w /\
    (forall bs fmt,
       fst (synthesizeAll fuel text w) = Returns (bs, fmt) ->
       k = length segments /\ length bs = length segments /\
       fmt = format (getSettingsFromStorage (storage w))) /\
    ((k < length segments)%nat ->
     exists e, fst (synthesizeAll fuel text w) = Throws e).
Proof.
  intros Hc Hsplit. rewrite (synthesizeAll_configured net fetch atob
                               StringToNumber JSON_stringify fuel text w Hc).
  cbv zeta. rewrite Hsplit.
  destruct (synthesizeAll_loop_trace (getSettingsFromStorage (storage w))
              segments 0 (Z.of_nat (length segments)) [] w)
    as (k & Hk & Hcalls & Hprog & Hsto & Hfuel & Hret).
  exists k.
  destruct (synthesizeAll_loop segments 0 _ _ [] w) as [[bs|e|] w'];
    cbn [fst snd] in *; [| |now destruct Hfuel].
  - split; [exact Hk|]. split; [exact Hcalls|].
    split; [rewrite Hprog; f_equal; apply map_ext; intros j; f_equal; lia|].
    split; [exact Hsto|]. destruct (Hret bs eq_refl) as (-> & Hlen).
    split; [intros bs' fmt [= <- <-]; cbn in Hlen; auto | lia].
  - split; [exact Hk|]. split; [exact Hcalls|].
    split; [rewrite Hprog; f_equal; apply map_ext; intros j; f_equal; lia|].
    split; [exact Hsto|]. split; [discriminate | intros _; now exists e].
Qed.

(** X5. On configured settings the requests of a run are those of the first
    [k] segments, in order, one each: no segment is requested twice, skipped
    or requested out of order.  Before each request the popup writes the
    progress line with the number of the segment and the number of segments.
    The run returns only after all segments, with one buffer per segment and
    the stored format; if it stopped earlier it threw. *)
Theorem synthesizeAll_requests_prefix (fuel : nat) (text : jsstring)
    (w : world net) (segments : list jsstring) :
  not_configured (getSettingsFromStorage (storage w)) = false ->
  splitTextPlain fuel text
    (effective_maxLength (getSettingsFromStorage (storage w)))
  = Returns segments ->
  exists k : nat,
    (k <= length segments)%nat /\
    calls (snd (synthesizeAll fuel text w))
    = calls w
      ++ requests_for (getSettingsFromStorage (storage w)) (firstn k segments) /\
    progress (snd (synthesizeAll fuel text w))
    = progress w
      ++ map (fun j => (Z.of_nat j + 1, Z.of_nat (length segments))) (seq 0 k) /\
    storage (snd (synthesizeAll fuel text w)) = storage w /\
    (forall bs fmt,
       fst (synthesizeAll fuel text w) = Returns (bs, fmt) ->
       k = length segments /\ length bs = length segments /\
       fmt = format (getSettingsFromStorage (storage w))) /\
    ((k < length segments)%nat ->
     exists e, fst (synthesizeAll fuel text w) = Throws e).
Proof. apply synthesizeAll_trace. Qed.

(** X6. On configured settings with a positive effective [maxLength], every
    request of a run goes to the synthesis endpoint with the stored API key,
    resource id and speaker, and carries a non-empty text of at most
    [maxLength] code units; the texts of the requests, one after the other,
    are a prefix of the input text, and the whole text when the run
    returns. *)
Theorem synthesizeAll_sends_the_text (fuel : nat) (text : jsstring)
    (w : world net) :
  not_configured (getSettingsFromStorage (storage w)) = false ->
  0 < effective_maxLength (getSettingsFromStorage (storage w)) ->
  (length text < fuel)%nat ->
  exists (issued : list request) (rest : jsstring),
    calls (snd (synthesizeAll fuel text w)) = calls w ++ issued /\
    Forall
      (fun req =>
         endpoint req = synthesis_endpoint /\
         x_api_key req = apiKey (getSettingsFromStorage (storage w)) /\
         X_Api_Resource_Id req = resourceId (getSettingsFromStorage (storage w)) /\
         rp_speaker (body req) = speaker (getSettingsFromStorage (storage w)) /\
         0 < jslength (rp_text (body req))
           <= effective_maxLength (getSettingsFromStorage (storage w)))
      issued /\
    text = concat (map (fun req => rp_text (body req)) issued) ++ rest /\
    (forall result, fst (synthesizeAll fuel text w) = Returns result -> rest = []).
Proof.
  intros Hc HL Hfuel.
  destruct (splitText_returns text _ HL) as (segments & Hrun & Hcat & Hall).
  pose proof (Hrun fuel Hfuel) as Hsplit.
  rewrite <- splitTextPlain_eq in Hsplit.
  destruct (synthesizeAll_trace fuel text w segments Hc Hsplit)
    as (k & Hk & Hcalls & _ & _ & Hret & _).
  exists (requests_for (getSettingsFromStorage (storage w)) (firstn k segments)),
         (concat (skipn k segments)).
  split; [exact Hcalls|]. split; [|split].
  - unfold requests_for. apply Forall_map.
    eapply Forall_impl; [|apply (Forall_firstn_of _ k _ Hall)].
    intros segment Hs. cbn. auto.
  - rewrite requests_for_texts, <- Hcat. apply concat_firstn_skipn.
  - intros [bs fmt] Hres. destruct (Hret bs fmt Hres) as (-> & _).
    now rewrite skipn_all.
Qed.

(** The listener of the service worker in terms of the popup's
    orchestrator. *)
Lemma onMessage_as_synthesizeAll (fuel : nat) (m : message) (w : world net) :
  msg_type m = lit "synthesize" ->
  fst (onMessage fuel (Some m) w)
  = match fst (synthesizeAll fuel (with_default [] (msg_text m)) w) with
    | Returns (bs, fmt) => Returns (Some (Reply_buffers bs fmt))
    | Throws e => Returns (Some (Reply_error e))
    | OutOfFuel => OutOfFuel
    end /\
  calls (snd (onMessage fuel (Some m) w))
  = calls (snd (synthesizeAll fuel (with_default [] (msg_text m)) w)) /\
  network (snd (onMessage fuel (Some m) w))
  = network (snd (synthesizeAll fuel (with_default [] (msg_text m)) w)) /\
  storage (snd (onMessage fuel (Some m) w))
  = storage (snd (synthesizeAll fuel (with_default [] (msg_text m)) w)) /\
  progress (snd (onMessage fuel (Some m) w)) = progress w.
Proof.
  intros Hm.
  destruct (not_configured (getSettingsFromStorage (storage w))) eqn:Hc.
  - assert (H1 : synthesizeAll fuel (with_default [] (msg_text m)) w
                 = (Throws NotConfigured, w)).
    { unfold synthesizeAll, bind, read_storage. now rewrite Hc. }
    assert (H2 : onMessage fuel (Some m) w
                 = (Returns (Some (Reply_error NotConfigured)), w)).
    { unfold onMessage. rewrite Hm.
      change (jsstring_eqb (lit "synthesize") (lit "synthesize")) with true.
      cbn [negb]. unfold try_catch, bind, read_storage.
      change (getSettings (storage w)) with (getSettingsFromStorage (storage w)).
      now rewrite Hc. }
    rewrite H1, H2. cbn. auto.
  - rewrite (onMessage_configured net fetch atob StringToNumber JSON_stringify fuel m w Hm Hc).
    rewrite (synthesizeAll_configured net fetch atob StringToNumber JSON_stringify fuel _ w Hc).
    cbv zeta. rewrite splitTextPlain_eq.
    change (getSettings (storage w)) with (getSettingsFromStorage (storage w)).
    destruct (splitText fuel (with_default [] (msg_text m)) _)
      as [segments|e|]; [|cbn; auto|cbn; auto].
    destruct (loops_agree (getSettingsFromStorage (storage w)) segments 0
                (Z.of_nat (length segments)) [] w w eq_refl eq_refl eq_refl)
      as (H1 & H2 & H3 & H4 & H5).
    destruct (onMessage_loop segments _ [] w) as [[bs|e|] w1];
      destruct (synthesizeAll_loop segments 0 _ _ [] w) as [[bs'|e'|] w2];
      cbn [fst snd] in *; try discriminate;
      try (injection H1 as <-); auto.
Qed.

(** X7. The two orchestrators agree.  On a synthesis message the listener of
    the service worker makes the requests that the popup's [synthesizeAll]
    makes on the message's text (the empty text when the message has none),
    leaves the remote service in the same state, and answers with the same
    buffers and format, or with the error that [synthesizeAll] throws; it
    writes no progress line. *)
Theorem onMessage_agrees_with_synthesizeAll (fuel : nat) (m : message)
    (w : world net) :
  msg_type m = lit "synthesize" ->
  fst (onMessage fuel (Some m) w)
  = match fst (synthesizeAll fuel (with_default [] (msg_text m)) w) with
    | Returns (bs, fmt) => Returns (Some (Reply_buffers bs fmt))
    | Throws e => Returns (Some (Reply_error e))
    | OutOfFuel => OutOfFuel
    end /\
  calls (snd (onMessage fuel (Some m) w))
  = calls (snd (synthesizeAll fuel (with_default [] (msg_text m)) w)) /\
  network (snd (onMessage fuel (Some m) w))
  = network (snd (synthesizeAll fuel (with_default [] (msg_text m)) w)) /\
  storage (snd (onMessage fuel (Some m) w))
  = storage (snd (synthesizeAll fuel (with_default [] (msg_text m)) w)) /\
  progress (snd (onMessage fuel (Some m) w)) = progress w.
Proof. apply onMessage_as_synthesizeAll. Qed.

(** X8. The listener of the service worker never throws: whatever goes wrong
    inside its [try] comes back as an error reply.  A message that is absent
    or of another type is ignored: no reply, no storage read, no request. *)
Theorem onMessage_never_throws (fuel : nat) (msg : option message)
    (w : world net) :
  (forall e : error, fst (onMessage fuel msg w) <> Throws e) /\
  (msg = None \/ (exists m, msg = Some m /\ msg_type m <> lit "synthesize") ->
   onMessage fuel msg w = (Returns None, w)).
Proof.
  split.
  - intros e. destruct msg as [m|]; [|discriminate].
    destruct (jsstring_eqb (msg_type m) (lit "synthesize")) eqn:Hm;
      [|unfold onMessage; rewrite Hm; discriminate].
    apply jsstring_eqb_eq in Hm.
    destruct (onMessage_as_synthesizeAll fuel m w Hm) as (-> & _).
    destruct (fst (synthesizeAll fuel _ w)) as [[bs fmt]|e'|]; discriminate.
  - intros [->|(m & -> & Hm)]; [reflexivity|].
    apply jsstring_eqb_neq in Hm. unfold onMessage. now rewrite Hm.
Qed.

(** X9. The empty text makes no request, whatever the stored [maxLength]:
    on configured settings [synthesizeAll] returns an empty list of buffers
    and leaves the world as it was, the listener answers a message without
    text (or with the empty text) with an empty list of buffers, and the
    popup, given an empty list of buffers, creates no blob URL and shows that
    no audio came back. *)
Theorem empty_text_makes_no_request (fuel : nat) (w : world net) :
  (0 < fuel)%nat ->
  not_configured (getSettingsFromStorage (storage w)) = false ->
  synthesizeAll fuel [] w
  = (Returns ([], format (getSettingsFromStorage (storage w))), w) /\
  (forall m : message,
     msg_type m = lit "synthesize" ->
     msg_text m = None \/ msg_text m = Some [] ->
     onMessage fuel (Some m) w
     = (Returns (Some (Reply_buffers []
                         (format (getSettingsFromStorage (storage w))))), w)) /\
  (forall (stored_fmt : option jsstring) (p : popup),
     url_log (play_result [] stored_fmt p) = url_log p /\
     next_url (play_result [] stored_fmt p) = next_url p /\
     audioPlayer (play_result [] stored_fmt p) = audioPlayer p /\
     statusEl (play_result [] stored_fmt p) = Status_no_audio /\
     startBtn_disabled (play_result [] stored_fmt p) = false /\
     stopBtn_disabled (play_result [] stored_fmt p) = true).
Proof.
  intros Hfuel Hc.
  assert (Hsplit : forall L, splitText fuel [] L = Returns [])
    by (intros L; destruct fuel; [lia | reflexivity]).
  split; [|split].
  - rewrite (synthesizeAll_configured net fetch atob StringToNumber JSON_stringify fuel [] w Hc).
    cbv zeta. rewrite splitTextPlain_eq, Hsplit. reflexivity.
  - intros m Hm Ht.
    rewrite (onMessage_configured net fetch atob StringToNumber JSON_stringify fuel m w Hm Hc).
    cbv zeta.
    assert (Hempty : with_default [] (msg_text m) = [])
      by (destruct Ht as [-> | ->]; reflexivity).
    rewrite Hempty, Hsplit. reflexivity.
  - intros stored_fmt p. cbn. auto 10.
Qed.

End PipelineTraces.

(** ** Text extraction and the options page *)

(** X10. The text the popup synthesizes, when the active tab answers through
    the content script: the selection, trimmed, when it has a code unit that
    is not white space, and the visible text of the body, trimmed, otherwise
    (the empty text when the page has no body).  The content script trims the
    selection and the popup trims again, which changes nothing.  The text is
    empty exactly when both the selection and the body text are blank or
    absent. *)
Theorem extracted_text_is_trimmed (m : message) (pg : page) :
  msg_type m = lit "getText" ->
  getText_listener (Some m) (Some pg) = Some (page_text pg) /\
  response_text_trimmed (Some (getText_listener (Some m) (Some pg)))
  = (if forallb is_js_whitespace (with_default [] (page_selection pg))
     then trim (with_default [] (page_innerText pg))
     else trim (with_default [] (page_selection pg))) /\
  (response_text_trimmed (Some (getText_listener (Some m) (Some pg))) = [] <->
   forallb is_js_whitespace (with_default [] (page_selection pg)) = true /\
   forallb is_js_whitespace (with_default [] (page_innerText pg)) = true) /\
  trim (response_text_trimmed (Some (getText_listener (Some m) (Some pg))))
  = response_text_trimmed (Some (getText_listener (Some m) (Some pg))).
Proof.
  intros Hm.
  assert (Hl : getText_listener (Some m) (Some pg) = Some (page_text pg)).
  { unfold getText_listener. rewrite Hm.
    now change (jsstring_eqb (lit "getText") (lit "getText")) with true. }
  rewrite Hl. cbn [response_text_trimmed]. split; [reflexivity|].
  assert (Ht : trim (page_text pg)
               = if forallb is_js_whitespace (with_default [] (page_selection pg))
                 then trim (with_default [] (page_innerText pg))
                 else trim (with_default [] (page_selection pg))).
  { unfold page_text. cbv zeta.
    destruct (forallb is_js_whitespace (with_default [] (page_selection pg)))
      eqn:Hb.
    - apply trim_blank in Hb. rewrite Hb. cbn [is_empty negb].
      now rewrite andb_false_r.
    - assert (Hne : trim (with_default [] (page_selection pg)) <> []).
      { intros H. apply trim_blank in H. congruence. }
      destruct (with_default [] (page_selection pg)) as [|c sel] eqn:Hs;
        [discriminate|].
      destruct (trim (c :: sel)) as [|c' t] eqn:Htr; [congruence|].
      cbn [is_empty negb andb]. rewrite <- Htr. apply trim_idempotent. }
  split; [exact Ht|]. split.
  - rewrite Ht.
    destruct (forallb is_js_whitespace (with_default [] (page_selection pg)))
      eqn:Hb.
    + rewrite trim_blank. tauto.
    + rewrite trim_blank. split; [congruence | intros (H & _); discriminate].
  - apply trim_idempotent.
Qed.

Lemma extracted_text_is_trimmed_witness :
  msg_type {| msg_type := lit "getText"; msg_text := None |} = lit "getText" /\
  response_text_trimmed
    (Some (getText_listener
             (Some {| msg_type := lit "getText"; msg_text := None |})
             (Some {| page_selection := Some (lit "  ");
                      page_innerText := Some (lit " Chapter 1 ") |})))
  = lit "Chapter 1".
Proof.
  split; [reflexivity|].
  destruct (extracted_text_is_trimmed
              {| msg_type := lit "getText"; msg_text := None |}
              {| page_selection := Some (lit "  ");
                 page_innerText := Some (lit " Chapter 1 ") |} eq_refl)
    as (_ & -> & _).
  reflexivity.
Defined.

Section OptionsPage.

Variable parseInt10 : jsstring -> jsnum.
Variable StringToNumber : jsstring -> jsnum.

(** X11. What the options page saves is what the pipeline reads back: the
    trimmed strings, and for [maxLength] and the sample rate the parsed
    integer, or the default (5000, 24000) when the field does not parse or
    parses to 0.  So the effective [maxLength] of a run after a save is never
    0, the sample rate of its requests is never [NaN], and a non-zero integer
    typed into the form is used as it is. *)
Theorem saved_options_round_trip (form : options_form) :
  let settings := getSettings (save_options parseInt10 form) in
  apiKey settings = trim (form_apiKey form) /\
  resourceId settings = trim (form_resourceId form) /\
  speaker settings = trim (form_speaker form) /\
  additions settings = trim (form_additions form) /\
  format settings = form_format form /\
  effective_maxLength StringToNumber settings
  = or_default (parseInt10 (form_maxLength form)) 5000 /\
  effective_maxLength StringToNumber settings <> 0 /\
  (forall z, parseInt10 (form_maxLength form) = Num z -> z <> 0 ->
     effective_maxLength StringToNumber settings = z) /\
  (forall segment,
     sample_rate (rp_audio_params (body (build_request StringToNumber segment settings)))
     = Num (or_default (parseInt10 (form_sampleRate form)) 24000)) /\
  or_default (parseInt10 (form_sampleRate form)) 24000 <> 0.
Proof.
  cbv zeta. unfold effective_maxLength, getSettings, save_options.
  cbn [apiKey resourceId speaker additions format maxLength sampleRate
       with_default stored_apiKey stored_resourceId stored_speaker
       stored_additions stored_format stored_sampleRate stored_maxLength
       Number build_request body rp_audio_params sample_rate].
  assert (Hnz : forall n d, d <> 0 -> or_default n d <> 0).
  { intros [|[|z|z]] d Hd; cbn; congruence. }
  assert (Hfix : forall n d, d <> 0 -> or_default (Num (or_default n d)) d
                                       = or_default n d).
  { intros [|[|z|z]] d Hd; cbn; try reflexivity; destruct d; congruence. }
  repeat split.
  - apply Hfix. discriminate.
  - rewrite Hfix by discriminate. apply Hnz. discriminate.
  - intros z Hz Hne. rewrite Hfix by discriminate. rewrite Hz.
    destruct z; [congruence | reflexivity | reflexivity].
  - apply Hnz. discriminate.
Qed.

(** X12. After a save the readiness check of the pipeline fails exactly when
    the API key, the resource id or the speaker typed into the form is blank
    (empty or white space only), because the options page stores these
    fields trimmed. *)
Theorem saved_options_configured (form : options_form) :
  not_configured (getSettings (save_options parseInt10 form)) = true <->
  forallb is_js_whitespace (form_apiKey form) = true \/
  forallb is_js_whitespace (form_resourceId form) = true \/
  forallb is_js_whitespace (form_speaker form) = true.
Proof.
  unfold not_configured, getSettings, save_options.
  cbn [apiKey resourceId speaker with_default stored_apiKey stored_resourceId
       stored_speaker].
  rewrite <- !trim_blank.
  assert (He : forall s : jsstring, is_empty s = true <-> s = [])
    by (intros [|c s]; cbn; split; congruence).
  rewrite !orb_true_iff, !He. tauto.
Qed.

End OptionsPage.

(** ** The start handler *)

Lemma create_urls_controls (buffers : list ArrayBuffer) (mime : jsstring) :
  forall p : popup,
    startBtn_disabled (snd (create_urls buffers mime p)) = startBtn_disabled p /\
    stopBtn_disabled (snd (create_urls buffers mime p)) = stopBtn_disabled p.
Proof.
  induction buffers as [|buffer buffers IH]; intros p; [now split|].
  cbn [create_urls]. unfold createObjectURL.
  match goal with
  | |- context [create_urls buffers mime ?q] =>
      destruct (IH q) as (H1 & H2); destruct (create_urls buffers mime q)
  end.
  cbn in *. now split.
Qed.

(** Starting a queue that is not empty leaves the two buttons as they
    are. *)
Lemma start_playback_controls (buffers : list ArrayBuffer) (mime : jsstring)
    (p : popup) :
  (0 < length buffers)%nat ->
  startBtn_disabled (start_playback buffers mime p) = startBtn_disabled p /\
  stopBtn_disabled (start_playback buffers mime p) = stopBtn_disabled p.
Proof.
  intros Hn. unfold start_playback.
  destruct (create_urls_spec buffers mime p) as (Hurls & _).
  destruct (create_urls_controls buffers mime p) as (H1 & H2).
  destruct (create_urls buffers mime p) as [urls p1].
  cbn [fst snd] in *. subst urls.
  unfold playNext. cbn [currentUrls currentIndex].
  rewrite nth_error_queue by exact Hn. cbn. now split.
Qed.

Section StartHandlerProperties.

Variable net : Type.
Variable fetch : fetch_call -> net -> (jsstring + Response) * net.
Variable atob : jsstring -> option jsstring.
Variable StringToNumber : jsstring -> jsnum.
Variable JSON_stringify : req_params -> jsstring.

Local Abbreviation synthesizeAll := (synthesizeAll net fetch atob StringToNumber JSON_stringify).
Local Abbreviation effective_maxLength := (effective_maxLength StringToNumber).
Local Abbreviation start_click := (start_click net fetch atob StringToNumber JSON_stringify).

(** A run on a non-empty text that returns, returns at least one buffer. *)
Lemma synthesizeAll_some_buffer (fuel : nat) (text : jsstring) (w w' : world net)
    (bs : list ArrayBuffer) (fmt : jsstring) :
  text <> [] ->
  synthesizeAll fuel text w = (Returns (bs, fmt), w') ->
  bs <> [].
Proof.
  intros Hne Hrun.
  destruct (not_configured (getSettingsFromStorage (storage w))) eqn:Hc.
  - unfold synthesizeAll, bind, read_storage in Hrun. rewrite Hc in Hrun.
    discriminate.
  - destruct (splitTextPlain fuel text
                (effective_maxLength (getSettingsFromStorage (storage w))))
      as [segments|e|] eqn:Hsplit.
    + destruct (synthesizeAll_trace net fetch atob StringToNumber JSON_stringify fuel text w
                  segments Hc Hsplit) as (k & _ & _ & _ & _ & Hret & _).
      rewrite Hrun in Hret. destruct (Hret bs fmt eq_refl) as (_ & Hlen & _).
      rewrite splitTextPlain_eq in Hsplit.
      pose proof (splitText_some_segment fuel text _ segments Hne Hsplit).
      destruct bs; destruct segments; cbn in *; congruence.
    + rewrite (synthesizeAll_configured net fetch atob StringToNumber JSON_stringify fuel
                 text w Hc) in Hrun.
      cbv zeta in Hrun. rewrite Hsplit in Hrun. discriminate.
    + rewrite (synthesizeAll_configured net fetch atob StringToNumber JSON_stringify fuel
                 text w Hc) in Hrun.
      cbv zeta in Hrun. rewrite Hsplit in Hrun. discriminate.
Qed.

(** With settings that are not configured, or with a positive effective
    [maxLength], a run with a budget above the length of the text ends. *)
Lemma synthesizeAll_ends (fuel : nat) (text : jsstring) (w : world net) :
  not_configured (getSettingsFromStorage (storage w)) = true \/
  0 < effective_maxLength (getSettingsFromStorage (storage w)) ->
  (length text < fuel)%nat ->
  fst (synthesizeAll fuel text w) <> OutOfFuel.
Proof.
  intros Hok Hfuel.
  destruct (not_configured (getSettingsFromStorage (storage w))) eqn:Hc.
  - unfold synthesizeAll, bind, read_storage. rewrite Hc. discriminate.
  - destruct Hok as [Hok|HL]; [discriminate|].
    destruct (splitText_returns text _ HL) as (segments & Hrun & _).
    specialize (Hrun fuel Hfuel). rewrite <- splitTextPlain_eq in Hrun.
    rewrite (synthesizeAll_configured net fetch atob StringToNumber
               JSON_stringify fuel text w Hc).
    cbv zeta. rewrite Hrun.
    destruct (synthesizeAll_loop_trace net fetch atob StringToNumber
                JSON_stringify (getSettingsFromStorage (storage w)) segments 0
                (Z.of_nat (length segments)) [] w)
      as (k & _ & _ & _ & _ & Hout & _).
    destruct (synthesizeAll_loop net fetch atob StringToNumber
                JSON_stringify segments 0 (Z.of_nat (length segments))
                (getSettingsFromStorage (storage w)) [] w) as [[bs|e|] w1];
      cbn [fst] in *; [discriminate | discriminate | congruence].
Qed.

(** X13. The start handler, run without another handler in between, on
    settings that are not configured or have a positive effective
    [maxLength], and with a budget above the length of the text that the
    tab answers: the handler ends, and where it ends is decided by that
    answer.  Without an active tab, without an answer of the tab, or with
    an answer whose trimmed text is empty, it reads no setting and makes no
    request.  Otherwise it calls [synthesizeAll] on the trimmed text of the
    first tab's answer: an error of that call ends it with that error, and
    a return brings at least one buffer, so that the handler never ends on
    its no-audio line, and starts playback with one URL per buffer, the
    first one playing and the start button still disabled.  Unless playback
    starts the handler creates no blob URL, leaves the queue and the audio
    element as they were, and re-enables the start button. *)
Theorem start_click_outcomes (fuel : nat) (tabs : list tab_answer)
    (p : popup) (w : world net) :
  not_configured (getSettingsFromStorage (storage w)) = true \/
  0 < effective_maxLength (getSettingsFromStorage (storage w)) ->
  (forall (response : option (option jsstring)) (rest : list tab_answer),
     tabs = Tab_response response :: rest ->
     (length (response_text_trimmed response) < fuel)%nat) ->
  let outcome := fst (fst (start_click fuel tabs p w)) in
  let p' := snd (fst (start_click fuel tabs p w)) in
  let w' := snd (start_click fuel tabs p w) in
  let quiet :=
    url_log p' = url_log p /\ next_url p' = next_url p /\
    currentUrls p' = currentUrls p /\ currentIndex p' = currentIndex p /\
    audioPlayer p' = audioPlayer p /\
    startBtn_disabled p' = false /\ stopBtn_disabled p' = true in
  let asked (text : jsstring) :=
    exists (response : option (option jsstring)) (rest : list tab_answer),
      tabs = Tab_response response :: rest /\
      text = response_text_trimmed response /\
      text <> [] /\ trim text = text in
  match outcome with
  | No_active_tab => tabs = [] /\ w' = w /\ quiet
  | Unable_to_retrieve =>
      (exists rest, tabs = Tab_lastError :: rest) /\ w' = w /\ quiet
  | No_text_found =>
      (exists response rest,
         tabs = Tab_response response :: rest /\
         response_text_trimmed response = []) /\ w' = w /\ quiet
  | Synthesis_failed e =>
      (exists text, asked text /\
                    synthesizeAll fuel text w = (Throws e, w')) /\ quiet
  | No_audio_segments => False
  | Playback_started =>
      exists text buffers fmt,
        asked text /\
        synthesizeAll fuel text w = (Returns (buffers, fmt), w') /\
        buffers <> [] /\
        currentUrls p' = queue_of p (length buffers) /\
        currentIndex p' = 0%nat /\
        playing (audioPlayer p') = true /\
        startBtn_disabled p' = true /\ stopBtn_disabled p' = false
  | Synthesis_pending => False
  end.
Proof.
  intros Hok Hfuel. cbv zeta. unfold start_click.
  destruct tabs as [|[|response] tabs]; cbn [fst snd].
  - cbn. auto 10.
  - cbn. split; [now exists tabs | auto 10].
  - assert (Htrim : trim (response_text_trimmed response)
                    = response_text_trimmed response).
    { destruct response as [[text|]|]; cbn [response_text_trimmed];
        [apply trim_idempotent | reflexivity | reflexivity]. }
    specialize (Hfuel response tabs eq_refl).
    destruct (response_text_trimmed response) as [|c text] eqn:Htext;
      cbn [is_empty].
    { cbn. split; [exists response, tabs; now rewrite Htext | auto 10]. }
    assert (Hasked :
              exists (response0 : option (option jsstring))
                     (rest : list tab_answer),
                Tab_response response :: tabs = Tab_response response0 :: rest /\
                c :: text = response_text_trimmed response0 /\
                c :: text <> [] /\ trim (c :: text) = c :: text).
    { exists response, tabs. rewrite Htext.
      split; [reflexivity|]. split; [reflexivity|].
      split; [discriminate | exact Htrim]. }
    pose proof (synthesizeAll_ends fuel (c :: text) w Hok Hfuel) as Hends.
    destruct (synthesizeAll fuel (c :: text) w) as [[[bs fmt]|e|] w1] eqn:Hrun;
      cbn [fst snd] in *.
    + assert (Hbs : bs <> [])
        by (apply (synthesizeAll_some_buffer fuel (c :: text) w w1 bs fmt);
            [discriminate | exact Hrun]).
      destruct bs as [|b bs]; [congruence|]. cbn [is_nil].
      exists (c :: text), (b :: bs), fmt.
      split; [exact Hasked|]. split; [exact Hrun|].
      split; [discriminate|]. unfold play_result. cbn [is_nil].
      match goal with
      | |- context [start_playback (b :: bs) ?mime ?busy] =>
          destruct (start_playback_playing (b :: bs) mime busy)
            as (Hq & Hi & _ & Haudio & _); [cbn; lia|];
          destruct (start_playback_controls (b :: bs) mime busy)
            as (Hstart & Hstop); [cbn; lia|];
          rewrite Hq, Hi, Haudio, Hstart, Hstop
      end.
      cbn. auto 10.
    + split; [|cbn; auto 10].
      exists (c :: text). split; [exact Hasked | exact Hrun].
    + now apply Hends.
Qed.

End StartHandlerProperties.

(** The start handler on a tab that answers with three letters between
    blanks: one segment, one buffer, and playback starts. *)
Lemma start_click_outcomes_witness :
  0 < effective_maxLength StringToNumber_digits
        (getSettingsFromStorage configured_items) /\
  response_text_trimmed (Some (Some (lit " abc "))) = lit "abc" /\
  exists buffers : list ArrayBuffer,
    buffers <> [] /\
    currentUrls
      (snd (fst (start_click (list (jsstring + Response)) scripted_fetch
                   atob_forgiving StringToNumber_digits JSON_stringify_body 8
                   [Tab_response (Some (Some (lit " abc ")))] popup_opened
                   (fresh_world configured_items three_answers))))
    = queue_of popup_opened (length buffers) /\
    startBtn_disabled
      (snd (fst (start_click (list (jsstring + Response)) scripted_fetch
                   atob_forgiving StringToNumber_digits JSON_stringify_body 8
                   [Tab_response (Some (Some (lit " abc ")))] popup_opened
                   (fresh_world configured_items three_answers))))
    = true.
Proof.
  split; [reflexivity|]. split; [reflexivity|].
  assert (Hfuel : forall (response : option (option jsstring))
                         (rest : list tab_answer),
             [Tab_response (Some (Some (lit " abc ")))]
             = Tab_response response :: rest ->
             (length (response_text_trimmed response) < 8)%nat).
  { intros response rest [= <- <-]. cbn. lia. }
  pose proof (start_click_outcomes (list (jsstring + Response)) scripted_fetch
                atob_forgiving StringToNumber_digits JSON_stringify_body 8
                [Tab_response (Some (Some (lit " abc ")))] popup_opened
                (fresh_world configured_items three_answers)
                (or_intror eq_refl) Hfuel) as H.
  cbv zeta in H.
  assert (E : fst (fst (start_click (list (jsstring + Response)) scripted_fetch
                          atob_forgiving StringToNumber_digits
                          JSON_stringify_body 8
                          [Tab_response (Some (Some (lit " abc ")))]
                          popup_opened
                          (fresh_world configured_items three_answers)))
              = Playback_started) by reflexivity.
  rewrite E in H.
  destruct H as (text & buffers & fmt & _ & _ & Hbs & Hq & _ & _ & Hstart & _).
  exists buffers. split; [exact Hbs|]. split; [exact Hq | exact Hstart].
Defined.

(** ** The playback controller under any sequence of events *)

Lemma skipn_S_tl {A} (i : nat) (l : list A) :
  skipn (S i) l = tl (skipn i l).
Proof.
  revert l. induction i as [|i IH]; intros [|a l]; try reflexivity.
  change (skipn (S (S i)) (a :: l)) with (skipn (S i) l).
  change (skipn (S i) (a :: l)) with (skipn i l). apply IH.
Qed.

Lemma skipn_nth_error {A} (i : nat) (l : list A) :
  match nth_error l i with
  | Some a => skipn i l = a :: skipn (S i) l
  | None => skipn i l = []
  end.
Proof.
  revert l. induction i as [|i IH]; intros [|a l]; cbn; try reflexivity.
  apply IH.
Qed.

Lemma In_skipn_S {A} (i : nat) (l : list A) (a : A) :
  In a (skipn (S i) l) -> In a (skipn i l).
Proof.
  rewrite skipn_S_tl. destruct (skipn i l); cbn; auto.
Qed.

Lemma revoke_all_store (urls : list object_url) :
  forall p : popup,
    next_url (fold_left (fun q url => revokeObjectURL url q) urls p)
    = next_url p.
Proof.
  induction urls as [|u urls IH]; intros p; cbn [fold_left]; [reflexivity|].
  now rewrite IH.
Qed.

(** [stopPlayback] makes no URL and keeps the handler of the element. *)
Lemma stopPlayback_store (p : popup) :
  next_url (stopPlayback p) = next_url p /\
  onended (audioPlayer (stopPlayback p)) = onended (audioPlayer p).
Proof.
  unfold stopPlayback, revoke_remaining. cbn [next_url audioPlayer].
  match goal with
  | |- context [fold_left _ ?l ?q] =>
      destruct (revoke_all_spec l q) as (_ & Haudio);
      rewrite (revoke_all_store l q), Haudio
  end.
  cbn. now split.
Qed.

(** What one [ended] event does, from any state. *)
Lemma ended_spec (p : popup) :
  next_url (ended p) = next_url p /\
  currentUrls (ended p) = currentUrls p /\
  match playing (audioPlayer p), onended (audioPlayer p) with
  | false, _ => ended p = p
  | true, None =>
      url_log (ended p) = url_log p /\
      currentIndex (ended p) = currentIndex p /\
      playing (audioPlayer (ended p)) = false
  | true, Some u =>
      currentIndex (ended p) = S (currentIndex p) /\
      match nth_error (currentUrls p) (S (currentIndex p)) with
      | Some u' =>
          url_log (ended p) = url_log p ++ [Revoked u; Played u'] /\
          playing (audioPlayer (ended p)) = true /\
          onended (audioPlayer (ended p)) = Some u'
      | None =>
          url_log (ended p) = url_log p ++ [Revoked u] /\
          playing (audioPlayer (ended p)) = false
      end
  end.
Proof.
  unfold ended.
  destruct (playing (audioPlayer p)); [|auto].
  destruct (onended (audioPlayer p)) as [u|]; [|cbn; auto].
  unfold onended_handler, revokeObjectURL, playNext.
  cbn [currentUrls currentIndex audioPlayer startBtn_disabled stopBtn_disabled
       statusEl next_url url_log].
  rewrite Nat.add_1_r.
  destruct (nth_error (currentUrls p) (S (currentIndex p))) as [u'|];
    cbn; rewrite <- ?app_assoc; auto 10.
Qed.

(** What starting a queue does, from any state. *)
Lemma start_playback_spec (buffers : list ArrayBuffer) (mime : jsstring)
    (p : popup) :
  next_url (start_playback buffers mime p) = (next_url p + length buffers)%nat /\
  currentUrls (start_playback buffers mime p) = queue_of p (length buffers) /\
  currentIndex (start_playback buffers mime p) = 0%nat /\
  (exists log,
     url_log (start_playback buffers mime p) = url_log p ++ log /\
     created_in log = queue_of p (length buffers) /\
     revoked_in log = [] /\
     played_in log = firstn 1 (queue_of p (length buffers))) /\
  match buffers with
  | [] => audioPlayer (start_playback buffers mime p) = audioPlayer p
  | _ :: _ =>
      audioPlayer (start_playback buffers mime p)
      = {| src := Some (next_url p); playing := true;
           onended := Some (next_url p) |}
  end.
Proof.
  unfold start_playback, queue_of.
  destruct (create_urls_spec buffers mime p)
    as (Hurls & Haudio & Hnext & log & Hlog & Hc & Hp & Hr).
  destruct (create_urls buffers mime p) as [urls p1].
  cbn [fst snd] in *. subst urls. unfold playNext.
  cbn [currentUrls currentIndex audioPlayer startBtn_disabled stopBtn_disabled
       statusEl next_url url_log].
  destruct buffers as [|b bs].
  - cbn. repeat split; auto. exists log. cbn in *. auto.
  - cbn [length seq nth_error]. cbn [currentUrls currentIndex audioPlayer
      next_url url_log firstn].
    repeat split; auto.
    exists (log ++ [Played (next_url p)]).
    rewrite Hlog, <- app_assoc, created_in_app, played_in_app, revoked_in_app,
      Hc, Hp, Hr.
    cbn. rewrite app_nil_r. auto.
Qed.

(** What the controller keeps true, whatever happens to it. *)
Definition controller_ok (p : popup) : Prop :=
  created_in (url_log p) = seq 0 (next_url p) /\
  NoDup (revoked_in (url_log p)) /\
  Forall (fun u => u < next_url p)%nat (revoked_in (url_log p)) /\
  Forall (fun u => u < next_url p)%nat (played_in (url_log p)) /\
  NoDup (pending p) /\
  Forall (fun u => u < next_url p)%nat (pending p) /\
  (forall u, In u (pending p) -> ~ In u (revoked_in (url_log p))) /\
  (playing (audioPlayer p) = true ->
   exists u,
     onended (audioPlayer p) = Some u /\
     (u < next_url p)%nat /\
     ~ In u (revoked_in (url_log p)) /\
     ~ In u (skipn (S (currentIndex p)) (currentUrls p))).

Lemma controller_ok_opened : controller_ok popup_opened.
Proof.
  unfold controller_ok, pending. cbn.
  split; [reflexivity|]. split; [constructor|]. split; [constructor|].
  split; [constructor|]. split; [constructor|]. split; [constructor|].
  split; [intros u []|discriminate].
Qed.

Lemma controller_ok_stop (p : popup) :
  controller_ok p -> controller_ok (stopPlayback p).
Proof.
  intros (Hc & Hnd & Hrb & Hpb & Hpn & Hpnb & Hdis & _).
  destruct (stopPlayback_spec p) as (Hlog & Hplay & _ & Hq & Hi & _).
  destruct (stopPlayback_store p) as (Hnext & _).
  destruct (revocations_only (pending p)) as (Hrc & Hrp & Hrr).
  fold (pending p) in Hlog.
  unfold controller_ok, pending.
  rewrite Hlog, Hnext, Hq, Hi, Hplay, created_in_app, played_in_app,
    revoked_in_app, Hrc, Hrp, Hrr, !app_nil_r.
  cbn [skipn].
  split; [exact Hc|]. split.
  { apply NoDup_app; auto. intros u Hu Hin. exact (Hdis u Hin Hu). }
  split; [apply Forall_app; now split|].
  split; [exact Hpb|]. split; [constructor|]. split; [constructor|].
  split; [intros u []|discriminate].
Qed.

Lemma controller_ok_start (buffers : list ArrayBuffer) (mime : jsstring)
    (p : popup) :
  controller_ok p -> controller_ok (start_playback buffers mime p).
Proof.
  intros (Hc & Hnd & Hrb & Hpb & Hpn & Hpnb & Hdis & Hplay).
  destruct (start_playback_spec buffers mime p)
    as (Hnext & Hq & Hi & (log & Hlog & Hlc & Hlr & Hlp) & Haudio).
  unfold controller_ok, pending.
  rewrite Hlog, Hnext, Hq, Hi, created_in_app, played_in_app, revoked_in_app,
    Hc, Hlc, Hlr, Hlp, app_nil_r.
  unfold queue_of. cbn [skipn].
  assert (Hmono : forall l, Forall (fun u => u < next_url p)%nat l ->
            Forall (fun u => u < next_url p + length buffers)%nat l).
  { intros l. apply Forall_impl. intros; lia. }
  assert (Hfresh : Forall (fun u => u < next_url p + length buffers)%nat
                     (seq (next_url p) (length buffers))).
  { apply Forall_forall. intros u Hu. apply in_seq in Hu. lia. }
  split; [now rewrite <- seq_app|].
  split; [exact Hnd|].
  split; [now apply Hmono|].
  split; [apply Forall_app; split;
          [now apply Hmono | apply Forall_firstn_of; exact Hfresh]|].
  split; [apply seq_NoDup|].
  split; [exact Hfresh|].
  split.
  { intros u Hu Hin. apply in_seq in Hu.
    rewrite Forall_forall in Hrb. specialize (Hrb u Hin). lia. }
  destruct buffers as [|b bs].
  - rewrite Haudio. intros Hp.
    destruct (Hplay Hp) as (u & Ho & Hu & Hnr & _).
    exists u. cbn [length seq skipn].
    split; [exact Ho|]. split; [lia|]. split; [exact Hnr|]. intros [].
  - rewrite Haudio. intros _. exists (next_url p). cbn [onended].
    split; [reflexivity|]. split; [cbn [length]; lia|]. split.
    + intros Hin. rewrite Forall_forall in Hrb. specialize (Hrb _ Hin). lia.
    + cbn [length seq skipn]. intros Hin. apply in_seq in Hin. lia.
Qed.

Lemma controller_ok_ended (p : popup) :
  controller_ok p -> controller_ok (ended p).
Proof.
  intros (Hc & Hnd & Hrb & Hpb & Hpn & Hpnb & Hdis & Hplay).
  destruct (ended_spec p) as (Hnext & Hq & Hcase).
  destruct (playing (audioPlayer p)) eqn:Hp.
  2:{ rewrite Hcase. unfold controller_ok. rewrite Hp.
      split; [exact Hc|]. split; [exact Hnd|]. split; [exact Hrb|].
      split; [exact Hpb|]. split; [exact Hpn|]. split; [exact Hpnb|].
      split; [exact Hdis | discriminate]. }
  destruct (Hplay eq_refl) as (u & Ho & Hu & Hnr & Hnl).
  rewrite Ho in Hcase. destruct Hcase as (Hi & Hcase).
  pose proof (skipn_nth_error (S (currentIndex p)) (currentUrls p)) as Hsk.
  assert (Hsub : forall x, In x (skipn (S (currentIndex p)) (currentUrls p)) ->
                           In x (pending p)) by (intros x; apply In_skipn_S).
  assert (Hnd' : NoDup (skipn (S (currentIndex p)) (currentUrls p))).
  { rewrite skipn_S_tl. unfold pending in Hpn.
    destruct (skipn (currentIndex p) (currentUrls p)); cbn; [constructor|].
    now inversion Hpn. }
  assert (Hb' : Forall (fun x => x < next_url p)%nat
                  (skipn (S (currentIndex p)) (currentUrls p))).
  { apply Forall_forall. intros x Hx. rewrite Forall_forall in Hpnb.
    apply Hpnb. now apply Hsub. }
  assert (Hrev : NoDup (revoked_in (url_log p) ++ [u])).
  { apply NoDup_app; auto; [repeat constructor; intros []|].
    intros x Hx [<-|[]]. contradiction. }
  assert (Hrb' : Forall (fun x => x < next_url p)%nat
                   (revoked_in (url_log p) ++ [u])).
  { apply Forall_app. split; [exact Hrb | now constructor]. }
  assert (Hdis' : forall x,
            In x (skipn (S (currentIndex p)) (currentUrls p)) ->
            ~ In x (revoked_in (url_log p) ++ [u])).
  { intros x Hx Hin. apply in_app_or in Hin. destruct Hin as [Hin|[<-|[]]].
    - exact (Hdis x (Hsub x Hx) Hin).
    - contradiction. }
  unfold controller_ok, pending. rewrite Hnext, Hq, Hi.
  destruct (nth_error (currentUrls p) (S (currentIndex p))) as [u'|] eqn:Hn;
    destruct Hcase as (Hlog & Hcase); rewrite Hlog, created_in_app,
      played_in_app, revoked_in_app; cbn [created_in played_in revoked_in];
      rewrite ?app_nil_r.
  - destruct Hcase as (Hp' & Ho'). rewrite Hp', Ho'.
    assert (Hin' : In u' (skipn (S (currentIndex p)) (currentUrls p)))
      by (rewrite Hsk; now left).
    assert (Hu' : (u' < next_url p)%nat)
      by (rewrite Forall_forall in Hb'; now apply Hb').
    split; [exact Hc|]. split; [exact Hrev|]. split; [exact Hrb'|].
    split; [apply Forall_app; split; [exact Hpb | now repeat constructor]|].
    split; [exact Hnd'|]. split; [exact Hb'|]. split; [exact Hdis'|].
    intros _. exists u'.
    split; [reflexivity|]. split; [exact Hu'|]. split; [now apply Hdis'|].
    rewrite Hsk in Hnd'. rewrite skipn_S_tl, Hsk. cbn [tl].
    now inversion Hnd'.
  - rewrite Hcase.
    split; [exact Hc|]. split; [exact Hrev|]. split; [exact Hrb'|].
    split; [exact Hpb|]. split; [exact Hnd'|]. split; [exact Hb'|].
    split; [exact Hdis' | discriminate].
Qed.

Lemma controller_ok_run (events : list popup_event) :
  forall p : popup, controller_ok p -> controller_ok (popup_run events p).
Proof.
  unfold popup_run.
  induction events as [|ev events IH]; intros p Hp; [exact Hp|].
  cbn [fold_left]. apply IH. destruct ev; cbn [popup_step].
  - now apply controller_ok_start.
  - now apply controller_ok_ended.
  - now apply controller_ok_stop.
Qed.

(** X14. Whatever sequence of queue starts, [ended] events and stops the
    controller goes through from the moment the popup opens, no blob URL is
    revoked twice, only URLs that were created are revoked or played, and no
    URL is created twice. *)
Theorem no_url_is_revoked_twice (events : list popup_event) :
  NoDup (revoked_in (url_log (popup_run events popup_opened))) /\
  NoDup (created_in (url_log (popup_run events popup_opened))) /\
  incl (revoked_in (url_log (popup_run events popup_opened)))
       (created_in (url_log (popup_run events popup_opened))) /\
  incl (played_in (url_log (popup_run events popup_opened)))
       (created_in (url_log (popup_run events popup_opened))).
Proof.
  destruct (controller_ok_run events popup_opened controller_ok_opened)
    as (Hc & Hnd & Hrb & Hpb & _).
  rewrite Hc. split; [exact Hnd|]. split; [apply seq_NoDup|].
  split; intros u Hu; apply in_seq.
  - rewrite Forall_forall in Hrb. specialize (Hrb u Hu). lia.
  - rewrite Forall_forall in Hpb. specialize (Hpb u Hu). lia.
Qed.

Lemma create_urls_log (buffers : list ArrayBuffer) (mime : jsstring) :
  forall p : popup,
    url_log (snd (create_urls buffers mime p))
    = url_log p
      ++ map (fun ub => Created (fst ub) (snd ub) mime)
           (combine (seq (next_url p) (length buffers)) buffers).
Proof.
  induction buffers as [|buffer buffers IH]; intros p.
  - cbn. now rewrite app_nil_r.
  - cbn [create_urls]. unfold createObjectURL.
    match goal with
    | |- context [create_urls buffers mime ?q] =>
        pose proof (IH q) as Hlog; destruct (create_urls buffers mime q)
    end.
    cbn [fst snd url_log next_url] in *. rewrite Hlog, <- app_assoc.
    reflexivity.
Qed.

(** X15. Starting a queue creates one blob URL per buffer, in buffer order,
    each from its own buffer and with the MIME type of the queue, before
    anything is played; then it plays the first one.  Nothing is revoked by
    the start. *)
Theorem start_playback_creates_one_url_per_buffer
    (buffers : list ArrayBuffer) (mime : jsstring) (p : popup) :
  url_log (start_playback buffers mime p)
  = url_log p
    ++ map (fun ub => Created (fst ub) (snd ub) mime)
         (combine (queue_of p (length buffers)) buffers)
    ++ map Played (firstn 1 (queue_of p (length buffers))) /\
  length (queue_of p (length buffers)) = length buffers /\
  currentUrls (start_playback buffers mime p) = queue_of p (length buffers).
Proof.
  split; [|split].
  - unfold start_playback, queue_of.
    pose proof (create_urls_log buffers mime p) as Hlog.
    destruct (create_urls_spec buffers mime p) as (Hurls & _).
    destruct (create_urls buffers mime p) as [urls p1].
    cbn [fst snd] in *. subst urls. unfold playNext.
    cbn [currentUrls currentIndex url_log].
    destruct buffers as [|b bs].
    + cbn in *. now rewrite Hlog.
    + cbn [length seq nth_error firstn map url_log].
      rewrite Hlog, <- app_assoc. reflexivity.
  - unfold queue_of. apply length_seq.
  - apply start_playback_spec.
Qed.

(** X16. Stopping twice is stopping once: the second [stopPlayback] finds
    an empty queue, revokes nothing and changes nothing. *)
Theorem stopPlayback_idempotent (p : popup) :
  stopPlayback (stopPlayback p) = stopPlayback p.
Proof.
  destruct (stopPlayback_spec p)
    as (_ & Hplay & Hsrc & Hq & Hi & Hstart & Hstop & Hstatus).
  destruct (stopPlayback (stopPlayback p)) as [q i a sb tb st n l] eqn:Htwice.
  destruct (stopPlayback p) as [q1 i1 [s1 pl1 o1] sb1 tb1 st1 n1 l1] eqn:Hone.
  cbn in Hplay, Hsrc, Hq, Hi, Hstart, Hstop, Hstatus. subst.
  unfold stopPlayback, revoke_remaining in Htwice. cbn in Htwice.
  now injection Htwice as <- <- <- <- <- <- <- <-.
Qed.

Lemma next_url_run (events : list popup_event) :
  forall p : popup, (next_url p <= next_url (popup_run events p))%nat.
Proof.
  unfold popup_run.
  induction events as [|ev events IH]; intros p; [cbn; lia|].
  cbn [fold_left]. etransitivity; [|apply IH].
  destruct ev; cbn [popup_step].
  - destruct (start_playback_spec buffers mime p) as (-> & _). lia.
  - destruct (ended_spec p) as (-> & _). lia.
  - destruct (stopPlayback_store p) as (-> & _). lia.
Qed.

(** A URL is revoked only while it is in the queue from the cursor on, or
    held by the handler of the playing element; URLs created later apart. *)
Lemma revocations_after (events : list popup_event) :
  forall (p : popup) (u : object_url),
    In u (revoked_in (url_log (popup_run events p))) ->
    In u (revoked_in (url_log p)) \/
    In u (pending p) \/
    (playing (audioPlayer p) = true /\ onended (audioPlayer p) = Some u) \/
    (next_url p <= u)%nat.
Proof.
  unfold popup_run.
  induction events as [|ev events IH]; intros p u Hu; [now left|].
  cbn [fold_left] in Hu. apply IH in Hu. destruct ev; cbn [popup_step] in Hu.
  - destruct (start_playback_spec buffers mime p)
      as (Hnext & Hq & Hi & (log & Hlog & _ & Hlr & _) & Haudio).
    unfold pending in Hu.
    rewrite Hlog, revoked_in_app, Hlr, app_nil_r, Hnext, Hq, Hi in Hu.
    unfold queue_of in Hu. cbn [skipn] in Hu.
    destruct Hu as [Hu|[Hu|[(Hp & Ho)|Hu]]].
    + now left.
    + apply in_seq in Hu. right. right. right. lia.
    + destruct buffers as [|b bs]; rewrite Haudio in Hp, Ho.
      * right. right. left. now split.
      * cbn in Ho. injection Ho as <-. right. right. right. lia.
    + right. right. right. lia.
  - destruct (ended_spec p) as (Hnext & Hq & Hcase).
    destruct (playing (audioPlayer p)) eqn:Hp;
      [|rewrite Hcase in Hu; rewrite Hp in Hu; exact Hu].
    unfold pending in Hu. rewrite Hnext, Hq in Hu.
    destruct (onended (audioPlayer p)) as [u0|] eqn:Ho.
    + destruct Hcase as (Hi & Hcase). rewrite Hi in Hu.
      pose proof (skipn_nth_error (S (currentIndex p)) (currentUrls p)) as Hsk.
      assert (Hpend : In u (skipn (S (currentIndex p)) (currentUrls p)) ->
                      In u (pending p)) by apply In_skipn_S.
      destruct (nth_error (currentUrls p) (S (currentIndex p))) as [u'|].
      * destruct Hcase as (Hlog & _ & Ho').
        rewrite Hlog, revoked_in_app, Ho' in Hu. cbn in Hu.
        destruct Hu as [Hu|[Hu|[(_ & Hu)|Hu]]]; auto.
        -- apply in_app_or in Hu. destruct Hu as [Hu|[<-|[]]]; auto.
        -- injection Hu as <-. right. left. apply Hpend. rewrite Hsk. now left.
      * destruct Hcase as (Hlog & Hp').
        rewrite Hlog, revoked_in_app, Hp' in Hu. cbn in Hu.
        destruct Hu as [Hu|[Hu|[(Hu & _)|Hu]]]; auto; [|discriminate].
        apply in_app_or in Hu. destruct Hu as [Hu|[<-|[]]]; auto.
    + destruct Hcase as (Hlog & Hi & Hp'). rewrite Hlog, Hi, Hp' in Hu.
      destruct Hu as [Hu|[Hu|[(Hu & _)|Hu]]]; auto. discriminate.
  - destruct (stopPlayback_spec p) as (Hlog & Hplay & _ & Hq & Hi & _).
    destruct (stopPlayback_store p) as (Hnext & _).
    destruct (revocations_only (pending p)) as (_ & _ & Hrr).
    fold (pending p) in Hlog. unfold pending at 1 in Hu.
    rewrite Hlog, revoked_in_app, Hrr, Hq, Hi, Hplay, Hnext in Hu.
    cbn [skipn] in Hu.
    destruct Hu as [Hu|[[]|[(Hu & _)|Hu]]]; auto; [|discriminate].
    apply in_app_or in Hu. destruct Hu; auto.
Qed.

Lemma after_ended_run (k : nat) (p : popup) :
  after_ended k p = popup_run (repeat Ev_ended k) p.
Proof.
  revert p. induction k as [|k IH]; intros p; [reflexivity|].
  cbn [after_ended repeat]. rewrite IH. reflexivity.
Qed.

Lemma popup_run_app (e1 e2 : list popup_event) (p : popup) :
  popup_run (e1 ++ e2) p = popup_run e2 (popup_run e1 p).
Proof. unfold popup_run. apply fold_left_app. Qed.

(** X17. Starting a queue releases nothing.  If a new queue is started while
    the segment of index [j] of an earlier queue is playing, the URLs of the
    earlier queue from index [j] on, which were created and not yet revoked,
    are not revoked by anything that happens afterwards: the new queue has
    replaced them in the controller. *)
Theorem replaced_queue_is_never_revoked (before : list popup_event)
    (buffersA : list ArrayBuffer) (mimeA : jsstring) (j : nat)
    (buffersB : list ArrayBuffer) (mimeB : jsstring)
    (after : list popup_event) (i : nat) :
  (j <= i < length buffersA)%nat ->
  buffersB <> [] ->
  let p0 := popup_run before popup_opened in
  let playing_A := after_ended j (start_playback buffersA mimeA p0) in
  let p := popup_run after (start_playback buffersB mimeB playing_A) in
  revoked_in (url_log (start_playback buffersB mimeB playing_A))
  = revoked_in (url_log playing_A) /\
  nth_error (queue_of p0 (length buffersA)) i = Some (next_url p0 + i)%nat /\
  In (next_url p0 + i)%nat (created_in (url_log p)) /\
  ~ In (next_url p0 + i)%nat (revoked_in (url_log p)).
Proof.
  intros Hi HB p0 playing_A p.
  assert (Hok0 : controller_ok p0)
    by (apply controller_ok_run, controller_ok_opened).
  destruct (after_ended_playing buffersA mimeA p0 j)
    as (HqA & HiA & _ & HaA & logA & HlogA & _ & _ & HrA); [lia|].
  fold playing_A in HqA, HiA, HaA, HlogA.
  assert (HnextA : next_url playing_A = (next_url p0 + length buffersA)%nat).
  { unfold playing_A. rewrite after_ended_run.
    destruct (start_playback_spec buffersA mimeA p0) as (Hn & _).
    assert (Hends : forall k q, next_url (popup_run (repeat Ev_ended k) q)
                                = next_url q).
    { induction k as [|k IH]; intros q; [reflexivity|].
      cbn [repeat]. unfold popup_run in *. cbn [fold_left popup_step].
      rewrite IH. apply ended_spec. }
    now rewrite Hends. }
  destruct (start_playback_spec buffersB mimeB playing_A)
    as (HnextB & HqB & HiB & (logB & HlogB & _ & HrB & _) & HaB).
  assert (Hsame : revoked_in (url_log (start_playback buffersB mimeB playing_A))
                  = revoked_in (url_log playing_A))
    by now rewrite HlogB, revoked_in_app, HrB, app_nil_r.
  split; [exact Hsame|].
  split; [unfold queue_of; apply nth_error_queue; lia|].
  split.
  - assert (Hok : controller_ok p).
    { unfold p, playing_A. rewrite after_ended_run.
      apply controller_ok_run, controller_ok_start, controller_ok_run,
        controller_ok_start, Hok0. }
    destruct Hok as (Hc & _). rewrite Hc. apply in_seq.
    pose proof (next_url_run after (start_playback buffersB mimeB playing_A)).
    fold p in H. lia.
  - intros Hrev. apply revocations_after in Hrev.
    destruct Hrev as [Hrev|[Hrev|[(_ & Hrev)|Hrev]]].
    + rewrite Hsame, HlogA, revoked_in_app, HrA in Hrev.
      apply in_app_or in Hrev. destruct Hrev as [Hrev|Hrev].
      * destruct Hok0 as (_ & _ & Hrb & _). rewrite Forall_forall in Hrb.
        specialize (Hrb _ Hrev). lia.
      * apply in_seq in Hrev. lia.
    + unfold pending in Hrev. rewrite HqB, HiB in Hrev. unfold queue_of in Hrev.
      cbn [skipn] in Hrev. apply in_seq in Hrev. lia.
    + destruct buffersB as [|b bs]; [congruence|].
      rewrite HaB in Hrev. cbn in Hrev. injection Hrev as Hrev. lia.
    + lia.
Qed.

(** ** The further properties on examples *)

Lemma synthesizeAll_requests_prefix_witness :
  not_configured
    (getSettingsFromStorage (storage (fresh_world configured_items three_answers)))
  = false /\
  splitTextPlain 8 (lit "abcdefg")
    (effective_maxLength StringToNumber_digits
       (getSettingsFromStorage
          (storage (fresh_world configured_items three_answers))))
  = Returns [lit "abc"; lit "def"; lit "g"] /\
  exists k : nat,
    (k <= 3)%nat /\
    progress (snd (synthesizeAll (list (jsstring + Response)) scripted_fetch
                     atob_forgiving StringToNumber_digits JSON_stringify_body 8 (lit "abcdefg")
                     (fresh_world configured_items three_answers)))
    = map (fun j => (Z.of_nat j + 1, 3)) (seq 0 k).
Proof.
  split; [reflexivity|]. split; [reflexivity|].
  destruct (synthesizeAll_requests_prefix (list (jsstring + Response))
              scripted_fetch atob_forgiving StringToNumber_digits JSON_stringify_body 8
              (lit "abcdefg") (fresh_world configured_items three_answers)
              [lit "abc"; lit "def"; lit "g"] eq_refl eq_refl)
    as (k & Hk & _ & Hprog & _).
  exists k. split; [exact Hk | exact Hprog].
Defined.

Lemma synthesizeAll_sends_the_text_witness :
  not_configured
    (getSettingsFromStorage (storage (fresh_world configured_items three_answers)))
  = false /\
  0 < effective_maxLength StringToNumber_digits
        (getSettingsFromStorage
           (storage (fresh_world configured_items three_answers))) /\
  (length (lit "abcdefg") < 8)%nat /\
  exists (issued : list request) (rest : jsstring),
    calls (snd (synthesizeAll (list (jsstring + Response)) scripted_fetch
                  atob_forgiving StringToNumber_digits JSON_stringify_body 8 (lit "abcdefg")
                  (fresh_world configured_items three_answers)))
    = issued /\
    lit "abcdefg" = concat (map (fun req => rp_text (body req)) issued) ++ rest.
Proof.
  split; [reflexivity|]. split; [reflexivity|]. split; [cbn; lia|].
  destruct (synthesizeAll_sends_the_text (list (jsstring + Response))
              scripted_fetch atob_forgiving StringToNumber_digits JSON_stringify_body 8
              (lit "abcdefg") (fresh_world configured_items three_answers))
    as (issued & rest & Hcalls & _ & Htext & _);
    [reflexivity | reflexivity | cbn; lia |].
  exists issued, rest. split; [exact Hcalls | exact Htext].
Defined.

Lemma onMessage_agrees_with_synthesizeAll_witness :
  msg_type {| msg_type := lit "synthesize"; msg_text := Some (lit "abcdefg") |}
  = lit "synthesize" /\
  fst (onMessage (list (jsstring + Response)) scripted_fetch atob_forgiving
         StringToNumber_digits JSON_stringify_body 8
         (Some {| msg_type := lit "synthesize";
                  msg_text := Some (lit "abcdefg") |})
         (fresh_world configured_items three_answers))
  = Returns (Some (Reply_error (HttpError 429 (lit "Too Many Requests")))).
Proof.
  split; [reflexivity|].
  destruct (onMessage_agrees_with_synthesizeAll (list (jsstring + Response))
              scripted_fetch atob_forgiving StringToNumber_digits JSON_stringify_body 8
              {| msg_type := lit "synthesize";
                 msg_text := Some (lit "abcdefg") |}
              (fresh_world configured_items three_answers) eq_refl)
    as (Hreply & _).
  rewrite Hreply. reflexivity.
Defined.

Lemma empty_text_makes_no_request_witness :
  (0 < 1)%nat /\
  not_configured
    (getSettingsFromStorage
       (storage (fresh_world negative_maxLength_items three_answers)))
  = false /\
  synthesizeAll (list (jsstring + Response)) scripted_fetch atob_forgiving
    StringToNumber_digits JSON_stringify_body 1 []
    (fresh_world negative_maxLength_items three_answers)
  = (Returns ([], lit "mp3"), fresh_world negative_maxLength_items three_answers).
Proof.
  split; [lia|]. split; [reflexivity|].
  apply (empty_text_makes_no_request (list (jsstring + Response))
           scripted_fetch atob_forgiving StringToNumber_digits JSON_stringify_body 1
           (fresh_world negative_maxLength_items three_answers));
    [lia | reflexivity].
Defined.

Lemma replaced_queue_is_never_revoked_witness :
  (1 <= 2 < length three_buffers)%nat /\
  [[9%N]] <> ([] : list ArrayBuffer) /\
  ~ In 2%nat
      (revoked_in
         (url_log
            (popup_run [Ev_ended; Ev_stop]
               (start_playback [[9%N]] (lit "audio/mpeg")
                  (after_ended 1
                     (start_playback three_buffers (lit "audio/mpeg")
                        (popup_run [] popup_opened))))))).
Proof.
  split; [cbn; lia|]. split; [discriminate|].
  apply (replaced_queue_is_never_revoked [] three_buffers (lit "audio/mpeg") 1
           [[9%N]] (lit "audio/mpeg") [Ev_ended; Ev_stop] 2);
    [cbn; lia | discriminate].
Defined.
